(** * LFSIR: metadata-driven cleaning of survey tables

    A shallow embedding of [lfsir/core/metadata_reader.py] (settings merge)
    and [lfsir/core/data_cleaner.py] (column lookup, type coercion, table
    assembly, batch driver), followed by the properties of the design
    document that were checked against them.

    Python objects are modelled as the interpreter has them: scalars are
    immutable values, every [dict] is an object in a heap and is denoted by
    its address, so that two names for one dict see each other's writes. *)

From Stdlib Require Import ZArith QArith String Ascii List.
From stdpp Require Import gmap strings list pretty.

Local Open Scope string_scope.
Local Open Scope list_scope.
Local Open Scope Z_scope.

(* ===================================================================== *)
(** * Part I. Definitions *)
(* ===================================================================== *)

(** ** Python values *)

(** Scalars of a parsed YAML document (floats are left out: no metadata
    field read by the cleaner is a float). Scalars are the hashable values,
    hence the keys of every dict. *)
Inductive scalar :=
  | SNone
  | SBool (b : bool)
  | SInt (z : Z)
  | SStr (s : string).

Abbreviation loc := positive.

Inductive value :=
  | VScalar (s : scalar)
  | VRef (l : loc).

Coercion VScalar : scalar >-> value.

Abbreviation VNone := (VScalar SNone).
Abbreviation VBool b := (VScalar (SBool b)).
Abbreviation VInt z := (VScalar (SInt z)).
Abbreviation VStr s := (VScalar (SStr s)).

#[global] Instance scalar_eq_dec : EqDecision scalar.
Proof. solve_decision. Defined.

#[global] Instance value_eq_dec : EqDecision value.
Proof. solve_decision. Defined.

(** [True == 1] and [hash(True) == hash(1)]: as dict keys a bool and the
    integer of the same value are one key. *)
Definition norm_key (k : scalar) : scalar :=
  match k with
  | SBool b => SInt (Z.b2z b)
  | _ => k
  end.

(** [v == s] for a string literal [s]. *)
Definition eq_str (v : value) (s : string) : bool :=
  match v with
  | VStr s' => bool_decide (s' = s)
  | _ => false
  end.

(** [isinstance(v, dict)]: the dicts are exactly the heap objects. *)
Definition is_dict (v : value) : bool :=
  match v with
  | VRef _ => true
  | _ => false
  end.

(** [isinstance(v, int)] ([bool] is a subclass of [int]). *)
Definition is_int (k : scalar) : bool :=
  match k with
  | SInt _ | SBool _ => true
  | _ => false
  end.

(** [str(v)] as used in f-strings. The repr of a mapping is not spelled
    out. *)
Definition py_str (v : value) : string :=
  match v with
  | VNone => "None"
  | VBool true => "True"
  | VBool false => "False"
  | VInt z => pretty z
  | VStr s => s
  | VRef _ => "{...}"
  end.

(** ** Exceptions and results *)

Inductive exception :=
  | KeyError (key : scalar)
  | TypeError
  | IndexError
  | AttributeError
  | AssertionError
  | RecursionError
  | OverflowError
  | FileNotFoundError
  | ResolutionError
  | DanglingReference
  | ValueError (message : string).

Inductive result (A : Type) :=
  | Return (a : A)
  | Raise (e : exception).

Arguments Return {A} a.
Arguments Raise {A} e.

Definition bind {A B} (r : result A) (k : A → result B) : result B :=
  match r with
  | Return a => k a
  | Raise e => Raise e
  end.

Notation "'let*' x := r 'in' k" := (bind r (fun x => k))
  (at level 10, x pattern, k at level 200).

Definition is_return {A} (r : result A) : bool :=
  match r with
  | Return _ => true
  | Raise _ => false
  end.

(** ** Insertion-ordered dictionaries

    A dict is the list of its items in insertion order. Keys are compared
    after [norm]; assigning to a key that is present keeps its position and
    its key object, assigning to a new key appends. *)

Section Dict.
Context {K N V : Type} `{EqDecision N} (norm : K → N).

Fixpoint dict_get (k : K) (d : list (K * V)) : option V :=
  match d with
  | [] => None
  | (k', v) :: d' =>
      if decide (norm k = norm k') then Some v else dict_get k d'
  end.

Fixpoint dict_set (k : K) (v : V) (d : list (K * V)) : list (K * V) :=
  match d with
  | [] => [(k, v)]
  | (k', v') :: d' =>
      if decide (norm k = norm k') then (k', v) :: d'
      else (k', v') :: dict_set k v d'
  end.

Definition dict_mem (k : K) (d : list (K * V)) : bool :=
  match dict_get k d with
  | Some _ => true
  | None => false
  end.

Definition dict_keys (d : list (K * V)) : list K := d.*1.
End Dict.

(** ** The heap of dict objects *)

Abbreviation pydict := (list (scalar * value)).

Abbreviation heap := (gmap loc pydict).

Definition pyget (k : scalar) (d : pydict) : option value :=
  dict_get norm_key k d.

Definition pyset (k : scalar) (v : value) (d : pydict) : pydict :=
  dict_set norm_key k v d.

(** [s[i]] on a string: one character, negative indices count from the
    end. *)
Definition str_index (s : string) (i : Z) : result value :=
  let n := Z.of_nat (String.length s) in
  let j := if i <? 0 then i + n else i in
  if (0 <=? j) && (j <? n)
  then match String.get (Z.to_nat j) s with
       | Some c => Return (VStr (String c EmptyString))
       | None => Raise IndexError
       end
  else Raise IndexError.

(** [needle in s] on strings. *)
Fixpoint str_contains (needle s : string) : bool :=
  String.prefix needle s ||
  match s with
  | EmptyString => false
  | String _ s' => str_contains needle s'
  end.

(** [obj[key]] *)
Definition subscript (h : heap) (obj key : value) : result value :=
  match obj with
  | VRef l =>
      match h !! l with
      | None => Raise DanglingReference
      | Some d =>
          match key with
          | VRef _ => Raise TypeError
          | VScalar k =>
              match pyget k d with
              | Some v => Return v
              | None => Raise (KeyError k)
              end
          end
      end
  | VStr s =>
      match key with
      | VInt i => str_index s i
      | VBool b => str_index s (Z.b2z b)
      | _ => Raise TypeError
      end
  | _ => Raise TypeError
  end.

(** [key in obj] *)
Definition contains (h : heap) (key obj : value) : result bool :=
  match obj with
  | VRef l =>
      match h !! l with
      | None => Raise DanglingReference
      | Some d =>
          match key with
          | VRef _ => Raise TypeError
          | VScalar k => Return (dict_mem norm_key k d)
          end
      end
  | VStr s =>
      match key with
      | VStr needle => Return (str_contains needle s)
      | _ => Raise TypeError
      end
  | _ => Raise TypeError
  end.

(** [obj[key] = v] *)
Definition setitem (obj : value) (key : scalar) (v : value) (h : heap)
  : result unit * heap :=
  match obj with
  | VRef l =>
      match h !! l with
      | None => (Raise DanglingReference, h)
      | Some d => (Return tt, <[l := pyset key v d]> h)
      end
  | _ => (Raise TypeError, h)
  end.

(** ** Characters and the text operations of the sanitation step

    A character is a code point below 256. *)

Definition code (c : ascii) : Z := Z.of_nat (nat_of_ascii c).

Definition chr (n : Z) : ascii := ascii_of_nat (Z.to_nat n).

(** The class [\s] of Python's [re] on [str] patterns. *)
Definition is_space (c : ascii) : bool :=
  let n := code c in
  ((9 <=? n) && (n <=? 13)) || ((28 <=? n) && (n <=? 32))
  || (n =? 133) || (n =? 160).

(** The class [\w]: alphanumeric characters and the underscore. *)
Definition is_word (c : ascii) : bool :=
  let n := code c in
  ((48 <=? n) && (n <=? 57)) || ((65 <=? n) && (n <=? 90)) || (n =? 95)
  || ((97 <=? n) && (n <=? 122))
  || (n =? 170) || (n =? 178) || (n =? 179) || (n =? 181) || (n =? 185)
  || (n =? 186) || ((188 <=? n) && (n <=? 190))
  || ((192 <=? n) && (n <=? 214)) || ((216 <=? n) && (n <=? 246))
  || ((248 <=? n) && (n <=? 255)).

(** [str.upper()]. The three letters whose capital lies outside the
    character range (181, 223, 255) are left as they are. *)
Definition upper_char (c : ascii) : ascii :=
  let n := code c in
  if ((97 <=? n) && (n <=? 122))
     || ((224 <=? n) && (n <=? 254) && negb (n =? 247))
  then chr (n - 32) else c.

Fixpoint upper (s : string) : string :=
  match s with
  | EmptyString => EmptyString
  | String c s' => String (upper_char c) (upper s')
  end.

(** [s.replace(a, b)] for single characters. *)
Fixpoint replace_char (a b : ascii) (s : string) : string :=
  match s with
  | EmptyString => EmptyString
  | String c s' =>
      String (if bool_decide (c = a) then b else c) (replace_char a b s')
  end.

(** [s.rstrip(a)] for a single character. *)
Fixpoint rstrip (a : ascii) (s : string) : string :=
  match s with
  | EmptyString => EmptyString
  | String c s' =>
      match rstrip a s' with
      | EmptyString => if bool_decide (c = a) then EmptyString
                       else String c EmptyString
      | r => String c r
      end
  end.

(** [str.replace] with a pattern that is a repeated character class and
    an empty replacement: every character of the class goes. *)
Fixpoint remove_chars (class : ascii → bool) (s : string) : string :=
  match s with
  | EmptyString => EmptyString
  | String c s' =>
      if class c then remove_chars class s'
      else String c (remove_chars class s')
  end.

(** The characters of [chars_to_remove]: newline, carriage return and
    [, @ + * [ ] _ ? &]. *)
Definition chars_to_remove (c : ascii) : bool :=
  bool_decide (code c ∈ [10; 13; 44; 64; 43; 42; 91; 93; 95; 63; 38]).

Definition hyphen : ascii := chr 45.
Definition dot : ascii := chr 46.

(** [str.replace] with the pattern [\b\-] and an empty replacement: a
    hyphen goes when a word boundary stands before it, that is when the
    character before it in [s] is a word character. [prev_word] tells
    whether the character before the current position is one. *)
Fixpoint remove_boundary_hyphens (prev_word : bool) (s : string) : string :=
  match s with
  | EmptyString => EmptyString
  | String c s' =>
      if bool_decide (c = hyphen) && prev_word
      then remove_boundary_hyphens false s'
      else String c (remove_boundary_hyphens (is_word c) s')
  end.

(** [re.search(r"^[\s\.\-]*$", s) is not None] *)
Fixpoint is_blank (s : string) : bool :=
  match s with
  | EmptyString => true
  | String c s' =>
      (is_space c || bool_decide (c = dot) || bool_decide (c = hyphen))
      && is_blank s'
  end.

(** ** Columns and tables (the part of pandas the cleaner uses)

    A column is a dtype tag and its values by position; the index is left
    out, since every column of one table shares it. A float is modelled by
    the rational it denotes (rounding to binary floating point is not
    modelled). *)

Inductive cell :=
  | NA
  | CBool (b : bool)
  | CInt (z : Z)
  | CFloat (q : Q)
  | CStr (s : string).

Inductive number :=
  | NInt (z : Z)
  | NFloat (q : Q).

(** [narrowed f] is the dtype [pd.to_numeric(..., downcast=f)] arrives at:
    the smallest dtype of the family [f] that holds the values, when there
    is one. A categorical column keeps its labels as values; its categories
    are the distinct values present. *)
Inductive dtype :=
  | object
  | bool_
  | int64
  | float64
  | Int32
  | UInt8
  | UInt16
  | UInt32
  | UInt64
  | boolean
  | narrowed (family : string)
  | category.

Record Series := mkSeries { dtype_of : dtype; values : list cell }.

(** A table: its columns by label, in column order. *)
Abbreviation DataFrame := (list (scalar * Series)).

Definition cell_of_number (n : number) : cell :=
  match n with
  | NInt z => CInt z
  | NFloat q => CFloat q
  end.

Definition cell_of_scalar (k : scalar) : cell :=
  match k with
  | SNone => NA
  | SBool b => CBool b
  | SInt z => CInt z
  | SStr s => CStr s
  end.

Definition numeric_value (c : cell) : option Q :=
  match c with
  | CBool b => Some (inject_Z (Z.b2z b))
  | CInt z => Some (inject_Z z)
  | CFloat q => Some q
  | _ => None
  end.

(** [a == b] on the values of a column; a missing value equals nothing. *)
Definition cell_eqb (a b : cell) : bool :=
  match a, b with
  | CStr s, CStr t => bool_decide (s = t)
  | _, _ =>
      match numeric_value a, numeric_value b with
      | Some p, Some q => Qeq_bool p q
      | _, _ => false
      end
  end.

(** The integer a float stands for, when it is one. *)
Definition integral (q : Q) : option Z :=
  let r := Qred q in
  if bool_decide (Qden r = 1%positive) then Some (Qnum r) else None.

Fixpoint mapM {A B} (f : A → result B) (l : list A) : result (list B) :=
  match l with
  | [] => Return []
  | a :: l' =>
      let* b := f a in
      let* bs := mapM f l' in
      Return (b :: bs)
  end.

Definition is_numeric_dtype (d : dtype) : bool :=
  match d with
  | object | category => false
  | _ => true
  end.

Definition is_na (c : cell) : bool :=
  match c with
  | NA => true
  | _ => false
  end.

Definition is_number_cell (c : cell) : bool :=
  match c with
  | CInt _ | CFloat _ => true
  | _ => false
  end.

Definition is_bool_cell (c : cell) : bool :=
  match c with
  | CBool _ => true
  | _ => false
  end.

(** Whether [column.str] is available: the dtype is not numeric and the
    values present are not all numbers nor all booleans (pandas infers
    "string", "empty", "mixed" or "mixed-integer"). *)
Definition str_accessor_ok (column : Series) : bool :=
  negb (is_numeric_dtype (dtype_of column)) &&
  let present := filter (λ c, is_na c = false) (values column) in
  match present with
  | [] => true
  | _ => negb (forallb is_number_cell present || forallb is_bool_cell present)
  end.

(** [column.str.method(...)]: strings are transformed, every other value
    becomes missing. *)
Definition str_method (f : string → string) (column : Series) : result Series :=
  if str_accessor_ok column
  then Return (mkSeries object
                 (map (λ c, match c with CStr s => CStr (f s) | _ => NA end)
                      (values column)))
  else Raise AttributeError.

(** [column.replace(regex, np.nan, regex=True)] for a pattern that matches
    the strings [p] holds of. The dtype of an object column is inferred
    anew from the values after the replacement: a column in which only
    missing values are left is a float column. *)
Definition replace_regex_nan (p : string → bool) (column : Series) : Series :=
  let replaced :=
    map (λ c, match c with
              | CStr s => if p s then NA else c
              | _ => c
              end) (values column) in
  mkSeries
    match dtype_of column, replaced with
    | object, _ :: _ => if forallb is_na replaced then float64 else object
    | d, _ => d
    end
    replaced.

(** [pd.Series(np.nan, index=column.index)] *)
Definition nan_like (column : Series) : Series :=
  mkSeries float64 (map (λ _, NA) (values column)).

Definition quote : string := String (chr 34) EmptyString.

Definition apostrophe : string := String (chr 39) EmptyString.

Definition newline : string := String (chr 10) EmptyString.

(** Conversion of one value to an integer dtype with range [lo, hi). *)
Definition cast_int (parse : string → option number) (lo hi : Z) (c : cell)
  : result cell :=
  let ranged z :=
    if (lo <=? z) && (z <? hi) then Return (CInt z) else Raise TypeError in
  match c with
  | NA => Return NA
  | CBool b => ranged (Z.b2z b)
  | CInt z => ranged z
  | CFloat q =>
      match integral q with
      | Some z => ranged z
      | None => Raise TypeError
      end
  | CStr s =>
      match parse s with
      | Some (NInt z) =>
          if (lo <=? z) && (z <? hi) then Return (CInt z)
          else Raise OverflowError
      | _ => Raise (ValueError
               ("invalid literal for int() with base 10: "
                +:+ apostrophe +:+ s +:+ apostrophe))
      end
  end.

(** [column.astype(name)] for the nullable integer dtypes. *)
Definition astype_int (parse : string → option number)
    (d : dtype) (lo hi : Z) (column : Series) : result Series :=
  let* vs := mapM (cast_int parse lo hi) (values column) in
  Return (mkSeries d vs).

(** [column.astype("category")] *)
Definition astype_category (column : Series) : Series :=
  mkSeries category (values column).

(** [column == x] on a nullable integer column. *)
Definition eq_scalar (column : Series) (x : value) : Series :=
  mkSeries boolean
    (map (λ c, match c with
               | NA => NA
               | _ => CBool (match x with
                             | VScalar k => cell_eqb c (cell_of_scalar k)
                             | VRef _ => false
                             end)
               end) (values column)).

(** The categories of a categorical column: its distinct values. *)
Fixpoint distinct (l : list cell) : list cell :=
  match l with
  | [] => []
  | c :: l' =>
      if is_na c || existsb (cell_eqb c) l' then distinct l'
      else c :: distinct l'
  end.

Fixpoint unique (l : list cell) : bool :=
  match l with
  | [] => true
  | c :: l' => negb (existsb (cell_eqb c) l') && unique l'
  end.

(** [mapping.get(item, item)] for a category [item]. *)
Definition renamed (mapping : pydict) (item : cell) : value + cell :=
  match List.find (λ e, cell_eqb item (cell_of_scalar e.1)) mapping with
  | Some (_, v) => inl v
  | None => inr item
  end.

Definition new_category (mapping : pydict) (item : cell) : result cell :=
  match renamed mapping item with
  | inr c => Return c
  | inl (VRef _) => Raise TypeError
  | inl VNone => Raise (ValueError "Categorical categories cannot be null")
  | inl (VScalar k) => Return (cell_of_scalar k)
  end.

(** [column.cat.rename_categories(mapping)] with a dict: a category found
    in the mapping takes its label, any other category is passed through;
    the new categories must be distinct and not null. *)
Definition rename_categories (mapping : pydict) (column : Series)
  : result Series :=
  let* cats := mapM (new_category mapping) (distinct (values column)) in
  if unique cats
  then
    let* vs := mapM (λ c, if is_na c then Return NA
                          else new_category mapping c) (values column) in
    Return (mkSeries category vs)
  else Raise (ValueError "Categorical categories must be unique").

(** *** [pd.to_numeric] *)

(** The message of the error raised for text that is not a number. *)
Definition unparsable (s : string) (position : nat) : string :=
  "Unable to parse string " +:+ quote +:+ s +:+ quote
  +:+ " at position " +:+ pretty position.

Fixpoint parse_cells (parse : string → option number) (i : nat)
    (l : list cell) : result (list cell) :=
  match l with
  | [] => Return []
  | c :: l' =>
      let* c' :=
        match c with
        | CStr s =>
            match parse s with
            | Some n => Return (cell_of_number n)
            | None =>
                Raise (ValueError (unparsable s i))
            end
        | _ => Return c
        end in
      let* cs := parse_cells parse (S i) l' in
      Return (c' :: cs)
  end.

Definition to_float (c : cell) : cell :=
  match c with
  | CInt z => CFloat (inject_Z z)
  | CBool b => CFloat (inject_Z (Z.b2z b))
  | _ => c
  end.

Definition to_int (c : cell) : cell :=
  match c with
  | CBool b => CInt (Z.b2z b)
  | CFloat q => match integral q with Some z => CInt z | None => c end
  | _ => c
  end.

(** The array built from parsed objects: floats as soon as one value is a
    float or is missing, else integers as soon as one is an integer. *)
Definition unify_numeric (l : list cell) : list cell :=
  if existsb (λ c, match c with NA | CFloat _ => true | _ => false end) l
  then map to_float l
  else if existsb (λ c, match c with CInt _ => true | _ => false end) l
  then map to_int l
  else l.

Definition integer_valued (c : cell) : bool :=
  match c with
  | CInt _ | CBool _ => true
  | CFloat q => match integral q with Some _ => true | None => false end
  | _ => false
  end.

Definition nonnegative (c : cell) : bool :=
  match numeric_value c with
  | Some q => Qle_bool 0 q
  | None => true
  end.

(** Narrowing to the integer families succeeds when every value is an
    integer (and, for [unsigned], none is negative); narrowing floats keeps
    the values. *)
Definition downcast_values (family : string) (l : list cell) : list cell :=
  if bool_decide (family = "integer") then
    if forallb integer_valued l then map to_int l else l
  else if bool_decide (family = "unsigned") then
    if forallb integer_valued l && forallb nonnegative l
    then map to_int l else l
  else l.

(** [pd.to_numeric(column, downcast=family)] with the default
    [errors="raise"]. [parse] is the parser of numeric text. *)
Definition to_numeric (parse : string → option number) (family : string)
    (column : Series) : result Series :=
  let* vs :=
    if is_numeric_dtype (dtype_of column) then Return (values column)
    else let* parsed := parse_cells parse 0 (values column) in
         Return (unify_numeric parsed) in
  Return (mkSeries (narrowed family) (downcast_values family vs)).

(** [table[label] = column] *)
Definition DataFrame_setitem (table : DataFrame) (label : value)
    (column : Series) : result DataFrame :=
  match label with
  | VRef _ => Raise TypeError
  | VScalar k => Return (dict_set norm_key k column table)
  end.

(** ** Computations on the heap *)

Definition M (A : Type) : Type := heap → result A * heap.

Definition ret {A} (a : A) : M A := λ h, (Return a, h).

Definition raise {A} (e : exception) : M A := λ h, (Raise e, h).

Definition bindM {A B} (m : M A) (k : A → M B) : M B :=
  λ h, match m h with
       | (Return a, h') => k a h'
       | (Raise e, h') => (Raise e, h')
       end.

(** A computation that only reads the heap. *)
Definition read {A} (f : heap → result A) : M A := λ h, (f h, h).

Notation "'let+' x := m 'in' k" := (bindM m (fun x => k))
  (at level 10, x pattern, k at level 200).

(** [for key in obj]: the keys of a dict, the characters of a string. *)
Fixpoint characters (s : string) : list scalar :=
  match s with
  | EmptyString => []
  | String c s' => SStr (String c EmptyString) :: characters s'
  end.

Definition iterate (h : heap) (obj : value) : result (list scalar) :=
  match obj with
  | VRef l =>
      match h !! l with
      | Some d => Return (dict_keys d)
      | None => Raise DanglingReference
      end
  | VStr s => Return (characters s)
  | _ => Raise TypeError
  end.

(** A new dict object. *)
Definition alloc (d : pydict) : M value :=
  λ h, let l := fresh (dom h) in (Return (VRef l), <[l := d]> h).

(** ** What the cleaner takes from outside

    The metadata registry ([metadata.tables], loaded by
    [metadata_reader.Metadata]), the extracted CSV files, and the library
    routines whose behaviour no property below depends on. *)

Inductive year_range :=
  | SingleYear (y : Z)
  | YearRange (first last : Z)
  | Fallback.

Record environment := {
  (** [metadata.tables] *)
  metadata_tables : value;
  (** [defaults.extracted_data], as path components *)
  extracted_data : list string;
  (** [pd.read_csv(path, low_memory=False)] *)
  read_csv : list string → result DataFrame;
  (** [Series.replace(to_replace)] with the metadata's replacement map *)
  Series_replace : heap → Series → value → result Series;
  (** the parser [pd.to_numeric] applies to text *)
  parse_number : string → option number;
  (** how a key of a metadata mapping reads as a year-range specifier *)
  year_range_of_key : scalar → option year_range;
}.

(** ** [utils.resolve_metadata] *)

Definition in_range (y : Z) (r : option year_range) : bool :=
  match r with
  | Some (SingleYear a) => y =? a
  | Some (YearRange a b) => (a <=? y) && (y <=? b)
  | _ => false
  end.

Definition is_fallback (r : option year_range) : bool :=
  match r with
  | Some Fallback => true
  | _ => false
  end.

Definition recursion_limit : nat := 1000.

Section Cleaner.
Context (env : environment).

(** A mapping is year-keyed when it has keys and all of them are
    year-range specifiers. *)
Definition year_keyed (d : pydict) : bool :=
  match d with
  | [] => false
  | _ => forallb (λ e, bool_decide (is_Some (year_range_of_key env e.1))) d
  end.

(** The branch for [y]: the first range, in document order, that contains
    it; the fallback when no range does. *)
Definition select_branch (d : pydict) (y : Z) : option value :=
  match List.find (λ e, in_range y (year_range_of_key env e.1)) d with
  | Some e => Some e.2
  | None =>
      match List.find (λ e, is_fallback (year_range_of_key env e.1)) d with
      | Some e => Some e.2
      | None => None
      end
  end.

Fixpoint mapM_items (f : value → M value) (d : pydict) : M pydict :=
  match d with
  | [] => ret []
  | (k, v) :: d' =>
      let+ v' := f v in
      let+ rest := mapM_items f d' in
      ret ((k, v') :: rest)
  end.

(** Modelled from the spec: [utils.resolve_metadata] is not among the
    sources. Section 4.3: at a mapping whose keys are year-range
    specifiers the first range containing the target year is selected and
    resolved in turn, the rest is discarded, and without a match or a
    fallback the resolution fails; at any other mapping every value is
    resolved; a plain value is returned as it is. The spec gives the
    resolved structure no object identity. It is built here from new
    dicts, one for each mapping that is not year-keyed: by section 3 the
    registry is the process-wide singleton and every other entity is
    transient and owned by the caller, and by section 5 a cleaning run
    only reads the shared metadata, which [_get_table_settings] could
    not do if it wrote the defaults into a dict of the registry. The
    depth of the recursion is bounded as the interpreter bounds it. *)
Fixpoint resolve_metadata (depth : nat) (versioned_metadata year : value)
  : M value :=
  match depth with
  | O => raise RecursionError
  | S depth =>
      match versioned_metadata with
      | VScalar _ => ret versioned_metadata
      | VRef l => λ h,
          match h !! l with
          | None => (Raise DanglingReference, h)
          | Some d =>
              if year_keyed d then
                match year with
                | VInt y =>
                    match select_branch d y with
                    | Some branch => resolve_metadata depth branch year h
                    | None => (Raise ResolutionError, h)
                    end
                | _ => (Raise TypeError, h)
                end
              else
                (let+ resolved :=
                   mapM_items (λ v, resolve_metadata depth v year) d in
                 alloc resolved) h
          end
      end
  end.

(** ** [data_cleaner.py] *)

Definition load_raw_data (year table_name : value) : M DataFrame :=
  let+ versioned := read (λ h,
    let* table := subscript h (metadata_tables env) table_name in
    subscript h table (VStr "file_code")) in
  let+ file_code := resolve_metadata recursion_limit versioned year in
  match file_code with
  | VNone =>
      raise (ValueError ("Table " +:+ py_str table_name
                         +:+ " is not available for year " +:+ py_str year))
  | _ =>
      let file_path :=
        extracted_data env
          ++ [py_str year; py_str file_code +:+ ".csv"] in
      read (λ _, read_csv env file_path)
  end.

(** The loop of [_get_table_settings] over the keys of the defaults. *)
Fixpoint inherit_defaults (default_table_settings table_settings : value)
    (keys : list scalar) : M unit :=
  match keys with
  | [] => ret tt
  | key :: keys' =>
      let+ present := read (λ h, contains h key table_settings) in
      let+ _ :=
        if present then ret tt
        else
          let+ v := read (λ h, subscript h default_table_settings key) in
          setitem table_settings key v in
      inherit_defaults default_table_settings table_settings keys'
  end.

Definition _get_table_settings (table_metadata : value) : M value :=
  let+ default_table_settings := read (λ h,
    subscript h (metadata_tables env) (VStr "default_table_settings")) in
  λ h,
    match subscript h table_metadata (VStr "settings") with
    | Raise (KeyError _) => (Return default_table_settings, h)
    | Raise e => (Raise e, h)
    | Return table_settings =>
        (let+ keys := read (λ h, iterate h default_table_settings) in
         let+ _ := inherit_defaults default_table_settings
                     table_settings keys in
         ret table_settings) h
    end.

(** The [print(table_metadata)] before the second [raise] writes to the
    standard output only and is left out. *)
Definition _get_column_metadata (table_metadata : value)
    (column_name : string) : M value :=
  let+ table_settings := _get_table_settings table_metadata in
  let+ columns_metadata := read (λ h,
    subscript h table_metadata (VStr "columns")) in
  if negb (is_dict columns_metadata) then
    raise (ValueError ("Unvalid metadata for column " +:+ column_name
                       +:+ ": " +:+ newline +:+ " "
                       +:+ py_str columns_metadata))
  else
    let+ listed := read (λ h,
      contains h (VStr column_name) columns_metadata) in
    if listed then
      let+ column_metadata := read (λ h,
        subscript h columns_metadata (VStr column_name)) in
      if negb (is_dict column_metadata || eq_str column_metadata "drop")
      then raise (ValueError ("Metadata for column " +:+ column_name
                              +:+ " is not valid"))
      else ret column_metadata
    else
      let+ column_metadata := read (λ h,
        subscript h table_settings (VStr "missings")) in
      if negb (eq_str column_metadata "drop"
               || eq_str column_metadata "error")
      then raise (ValueError "Missing treatment is not valid")
      else ret column_metadata.

Definition _general_cleaning (column : Series) : result Series :=
  if is_numeric_dtype (dtype_of column) then Return column
  else
    match
      (let* c := str_method (replace_char (chr 183) dot) column in
       str_method (rstrip dot) c)
    with
    | Raise AttributeError => Return column
    | Raise e => Raise e
    | Return column =>
        match str_method (remove_chars chars_to_remove) column with
        | Raise AttributeError => Return column
        | Raise e => Raise e
        | Return column =>
            match str_method (remove_boundary_hyphens false) column with
            | Raise AttributeError => Return column
            | Raise e => Raise e
            | Return column => Return (replace_regex_nan is_blank column)
            end
        end
    end.

Definition fixed_width (type : value) : option (dtype * Z) :=
  if eq_str type "UInt8" then Some (UInt8, 2 ^ 8)
  else if eq_str type "UInt16" then Some (UInt16, 2 ^ 16)
  else if eq_str type "UInt32" then Some (UInt32, 2 ^ 32)
  else if eq_str type "UInt64" then Some (UInt64, 2 ^ 64)
  else None.

Definition astype_Int32 : Series → result Series :=
  astype_int (parse_number env) Int32 (- 2 ^ 31) (2 ^ 31).

Definition _apply_type_to_column (h : heap) (column : Series)
    (column_metadata : value) : result Series :=
  let* column := _general_cleaning column in
  let new_column := nan_like column in
  let* typed := contains h (VStr "type") column_metadata in
  let* type := if typed then subscript h column_metadata (VStr "type")
               else Return (VStr "string") in
  if eq_str type "string" then Return column
  else if eq_str type "boolean" then
    let* codes := astype_Int32 column in
    let* true_condition :=
      subscript h column_metadata (VStr "true_condition") in
    Return (eq_scalar codes true_condition)
  else if eq_str type "unsigned" || eq_str type "integer"
          || eq_str type "float" then
    to_numeric (parse_number env) (py_str type) column
  else
    match fixed_width type with
    | Some (d, bound) => astype_int (parse_number env) d 0 bound column
    | None =>
        if eq_str type "category" then
          let* categories :=
            subscript h column_metadata (VStr "categories") in
          match categories with
          | VRef l =>
              match h !! l with
              | None => Raise DanglingReference
              | Some mapping =>
                  match dict_keys mapping with
                  | [] => Raise IndexError
                  | first :: _ =>
                      if is_int first then
                        let* codes := astype_Int32 column in
                        rename_categories mapping (astype_category codes)
                      else
                        rename_categories mapping (astype_category column)
                  end
              end
          | _ => Raise AttributeError
          end
        else Return new_column
    end.

Definition _apply_metadata_to_column (h : heap) (column : Series)
    (column_metadata : value) : result Series :=
  let* has_replace := contains h (VStr "replace") column_metadata in
  let* column :=
    if has_replace then
      let* to_replace := subscript h column_metadata (VStr "replace") in
      match to_replace with
      | VNone => Return column
      | _ => Series_replace env h column to_replace
      end
    else Return column in
  _apply_type_to_column h column column_metadata.

(** The loop of [_apply_metadata_to_table] over [table.items()]. *)
Fixpoint clean_columns (items : list (scalar * Series))
    (table_metadata : value) (cleaned_table : DataFrame) : M DataFrame :=
  match items with
  | [] => ret cleaned_table
  | (SStr column_name, column) :: items' =>
      let+ column_metadata :=
        _get_column_metadata table_metadata (upper column_name) in
      if eq_str column_metadata "drop" then
        clean_columns items' table_metadata cleaned_table
      else if eq_str column_metadata "error" then
        raise (ValueError ("Error: The column " +:+ apostrophe +:+ column_name
                           +:+ apostrophe
                           +:+ " was not found in the metadata."))
      else
        let+ column := read (λ h,
          _apply_metadata_to_column h column column_metadata) in
        let+ cleaned_table := read (λ h,
          let* new_name := subscript h column_metadata (VStr "new_name") in
          DataFrame_setitem cleaned_table new_name column) in
        clean_columns items' table_metadata cleaned_table
  | _ => raise AssertionError
  end.

Definition _apply_metadata_to_table (table : DataFrame)
    (table_metadata : value) : M DataFrame :=
  clean_columns table table_metadata [].

Definition open_and_clean_table (year table_name : value) : M DataFrame :=
  let+ table := load_raw_data year table_name in
  let+ versioned := read (λ h,
    subscript h (metadata_tables env) table_name) in
  let+ table_metadata :=
    resolve_metadata recursion_limit versioned year in
  _apply_metadata_to_table table table_metadata.

(** [original_tables], the arguments of [_OriginalTable] *)
Definition original_tables : list string := ["data"].

(** Modelled from the spec: [utils.construct_table_year_pairs] is not
    among the sources. Section 4.6: the batch iterates the cartesian
    product of the table names and the years. The years are taken as
    already parsed. *)
Definition construct_table_year_pairs (table_names : list string)
    (years : list Z) : list (string * Z) :=
  list_prod table_names years.

(** The loop of [save_cleaned_tables]; [files] are the Parquet files of
    [defaults.cleaned_data] by name. The progress bar is left out. The
    call of [open_and_clean_table] passes [_table_name] and [year] by
    position, in this order, as the source does. *)
Fixpoint save_pairs (table_year : list (string * Z))
    (h : heap) (files : gmap string DataFrame)
  : result unit * (heap * gmap string DataFrame) :=
  match table_year with
  | [] => (Return tt, (h, files))
  | (_table_name, year) :: table_year' =>
      match open_and_clean_table (VStr _table_name) (VInt year) h with
      | (Raise e, h') => (Raise e, (h', files))
      | (Return table, h') =>
          let name := py_str (VInt year) +:+ "_" +:+ _table_name
                      +:+ ".parquet" in
          save_pairs table_year' h' (<[name := table]> files)
      end
  end.

(** [table_names] is [None] for ["all"]. *)
Definition save_cleaned_tables (table_names : option (list string))
    (years : list Z) (h : heap) (files : gmap string DataFrame)
  : result unit * (heap * gmap string DataFrame) :=
  let table_names := default original_tables table_names in
  let table_year := construct_table_year_pairs table_names years in
  save_pairs table_year h files.
End Cleaner.

(** ** [metadata_reader.py]: the settings table *)

#[local] Set Warnings "-register-all".

(** A parsed YAML document: a mapping, or any other value (a leaf). *)
Inductive document (A : Type) :=
  | Leaf (a : A)
  | Mapping (items : list (scalar * document A)).

Arguments Leaf {A} a.
Arguments Mapping {A} items.

(** A key-path: the tuple of the keys from the root to a leaf. *)
Abbreviation key_path := (list scalar).

Definition norm_path (p : key_path) : key_path := map norm_key p.

(** A flattened document: a dict from key-paths to leaves. *)
Abbreviation settings_table A := (list (key_path * A)).

Section Settings.
Context {A : Type}.

Definition path_get (p : key_path) (t : settings_table A) : option A :=
  dict_get norm_path p t.

(** The loop of [flatten_dict] over [dictionary.items()]; [flatten] is
    the recursive call on a value that is a dict. *)
Definition flatten_items (flatten : document A → settings_table A)
  : list (scalar * document A) → settings_table A → settings_table A :=
  fix over_items items flattened_dict :=
    match items with
    | [] => flattened_dict
    | (key, value) :: items' =>
        over_items items'
          match value with
          | Mapping _ =>
              fold_left
                (λ acc sub, dict_set norm_path (key :: sub.1) sub.2 acc)
                (flatten value) flattened_dict
          | Leaf a => dict_set norm_path [key] a flattened_dict
          end
    end.

Fixpoint flatten_document (d : document A) : settings_table A :=
  match d with
  | Leaf _ => []
  | Mapping items => flatten_items flatten_document items []
  end.

(** [flatten_dict(dictionary)]; a document that is not a mapping has no
    [items]. *)
Definition flatten_dict (dictionary : document A)
  : result (settings_table A) :=
  match dictionary with
  | Mapping _ => Return (flatten_document dictionary)
  | Leaf _ => Raise AttributeError
  end.

Definition _update_settings (_settings new_settings : settings_table A)
  : settings_table A :=
  fold_left
    (λ _settings item,
       if dict_mem norm_path item.1 _settings
       then dict_set norm_path item.1 item.2 _settings
       else _settings)
    new_settings _settings.

(** The YAML files: the default document of the package, and the document
    found at a path of the package or of the root directory ([None] when
    no file is there). *)
Inductive location := package | root.

Context (default_settings : result (document A))
        (open_yaml : location → A → option (result (document A))).

Definition settings_path (name : string) (_settings : settings_table A)
  : result A :=
  match path_get [SStr name] _settings with
  | Some a => Return a
  | None => Raise (KeyError (SStr name))
  end.

Definition override (place : location) (name : string)
    (_settings : settings_table A) : result (settings_table A) :=
  let* path := settings_path name _settings in
  match open_yaml place path with
  | None => Return _settings
  | Some yaml =>
      let* content := yaml in
      let* new_settings := flatten_dict content in
      Return (_update_settings _settings new_settings)
  end.

Definition collect_settings : result (settings_table A) :=
  let* content := default_settings in
  let* _settings := flatten_dict content in
  let* _settings := override package "package_settings" _settings in
  override root "local_settings" _settings.
End Settings.

(** ** A parser of decimal literals, for the examples

    An optional sign, digits, and at most one decimal point. *)

Definition digit (c : ascii) : option Z :=
  let n := code c in
  if (48 <=? n) && (n <=? 57) then Some (n - 48) else None.

Fixpoint read_digits (s : string) (acc : Z) (count : nat)
  : Z * nat * string :=
  match s with
  | EmptyString => (acc, count, s)
  | String c s' =>
      match digit c with
      | Some d => read_digits s' (10 * acc + d) (S count)
      | None => (acc, count, s)
      end
  end.

Definition unsigned_literal (s : string) : option number :=
  let '(i, ni, rest) := read_digits s 0 0 in
  match rest with
  | EmptyString => if decide (ni = 0%nat) then None else Some (NInt i)
  | String c rest' =>
      if bool_decide (c = dot) then
        let '(f, nf, rest'') := read_digits rest' i 0 in
        match rest'' with
        | EmptyString =>
            if decide ((ni + nf)%nat = 0%nat) then None
            else Some (NFloat (Qred (f # Z.to_pos (10 ^ Z.of_nat nf))))
        | _ => None
        end
      else None
  end.

Definition negate (n : number) : number :=
  match n with
  | NInt z => NInt (- z)
  | NFloat q => NFloat (Qred (- q))
  end.

Definition decimal_literal (s : string) : option number :=
  match s with
  | String c s' =>
      if bool_decide (c = hyphen) then negate <$> unsigned_literal s'
      else if bool_decide (c = chr 43) then unsigned_literal s'
      else unsigned_literal s
  | EmptyString => None
  end.

(** ** An example registry and its raw tables

    Two tables. [data] lists four columns and leaves the treatment of
    unlisted columns to the defaults ([drop]); [persons] lists one column,
    of a declared type the coercion does not know, and rejects unlisted
    columns. *)

Definition example_heap : heap :=
  list_to_map
    [ (1%positive, [(SStr "data", VRef 10); (SStr "persons", VRef 20);
                    (SStr "default_table_settings", VRef 2)]);
      (2%positive, [(SStr "missings", VStr "drop")]);
      (10%positive, [(SStr "file_code", VStr "P3S01");
                     (SStr "settings", VRef 11);
                     (SStr "columns", VRef 12)]);
      (11%positive, []);
      (12%positive, [(SStr "A01", VRef 13); (SStr "A02", VStr "drop");
                     (SStr "A03", VRef 14); (SStr "A04", VStr "error")]);
      (13%positive, [(SStr "new_name", VStr "Region");
                     (SStr "type", VStr "category");
                     (SStr "categories", VRef 15)]);
      (14%positive, [(SStr "new_name", VStr "Income");
                     (SStr "type", VStr "float")]);
      (15%positive, [(SInt 1, VStr "Urban"); (SInt 2, VStr "Rural")]);
      (20%positive, [(SStr "file_code", VStr "P1");
                     (SStr "settings", VRef 21);
                     (SStr "columns", VRef 22)]);
      (21%positive, [(SStr "missings", VStr "error")]);
      (22%positive, [(SStr "B01", VRef 23)]);
      (23%positive, [(SStr "new_name", VStr "Age");
                     (SStr "type", VStr "decimal")]) ].

Definition example_codes : Series :=
  mkSeries float64 [CFloat 1; CFloat 2; CFloat 9; NA].

Definition example_text : Series :=
  mkSeries object [CStr "  "; CStr "-"; CStr "3.0."; CStr "abc"].

Definition example_amounts : Series :=
  mkSeries object [CStr "  "; CStr "-"; CStr "3.0."; CStr "12"].

Definition example_ages : Series := mkSeries int64 [CInt 30; CInt 41].

Definition example_data : DataFrame :=
  [ (SStr "a01", example_codes);
    (SStr "A02", example_ages);
    (SStr "A03", example_amounts);
    (SStr "Z9", example_ages) ].

Definition example_persons : DataFrame :=
  [ (SStr "B01", example_ages); (SStr "x9", example_text) ].

(** The same code column twice, under names that differ by case only. *)
Definition example_twins : DataFrame :=
  [ (SStr "a01", mkSeries float64 [CFloat 1; CFloat 1]);
    (SStr "A01", mkSeries float64 [CFloat 2; CFloat 2]) ].

Definition example_env : environment := {|
  metadata_tables := VRef 1;
  extracted_data := ["extracted"];
  read_csv := λ path,
    if decide (path = ["extracted"; "1390"; "P3S01.csv"])
    then Return example_data
    else if decide (path = ["extracted"; "1390"; "P1.csv"])
    then Return example_persons
    else Raise FileNotFoundError;
  Series_replace := λ _ column _, Return column;
  parse_number := decimal_literal;
  year_range_of_key := λ k,
    match k with
    | SInt y => if (1300 <=? y) && (y <=? 1500) then Some (SingleYear y)
                else None
    | _ => None
    end |}.

Definition example_cleaned : DataFrame :=
  [ (SStr "Region",
     mkSeries category [CStr "Urban"; CStr "Rural"; CInt 9; NA]);
    (SStr "Income",
     mkSeries (narrowed "float") [NA; NA; CFloat 3; CFloat 12]) ].

(** The docstring example of [flatten_dict]. *)
Definition example_document : document Z :=
  Mapping [ (SStr "a", Leaf 1);
            (SStr "b", Mapping [ (SStr "c", Leaf 2);
                                 (SStr "d", Mapping [(SStr "e", Leaf 3)]) ]) ].

(** ** Notions used in the statements *)

(** The key-paths of a settings table are pairwise different. *)
Definition distinct_paths {A} (t : settings_table A) : Prop :=
  NoDup (map norm_path (dict_keys t)).

(** The settings dict [s] once the keys [keys] of the defaults [d] that it
    lacks have been written into it, in order. *)
Definition inherited (d : pydict) (keys : list scalar) (s : pydict) : pydict :=
  fold_left
    (λ s k, if dict_mem norm_key k s then s
            else match pyget k d with
                 | Some v => pyset k v s
                 | None => s
                 end)
    keys s.

(** The heap once the settings of a table have inherited the defaults. *)
Definition settled (env : environment) (table_metadata : value) (h : heap)
  : heap :=
  (_get_table_settings env table_metadata h).2.

(** What [_get_column_metadata] reads once the settings are known. *)
Definition column_lookup (h : heap) (table_metadata table_settings : value)
    (column_name : string) : result value :=
  let* columns_metadata := subscript h table_metadata (VStr "columns") in
  if negb (is_dict columns_metadata) then
    Raise (ValueError ("Unvalid metadata for column " +:+ column_name
                       +:+ ": " +:+ newline +:+ " "
                       +:+ py_str columns_metadata))
  else
    let* listed := contains h (VStr column_name) columns_metadata in
    if listed then
      let* column_metadata :=
        subscript h columns_metadata (VStr column_name) in
      if negb (is_dict column_metadata || eq_str column_metadata "drop")
      then Raise (ValueError ("Metadata for column " +:+ column_name
                              +:+ " is not valid"))
      else Return column_metadata
    else
      let* column_metadata := subscript h table_settings (VStr "missings") in
      if negb (eq_str column_metadata "drop"
               || eq_str column_metadata "error")
      then Raise (ValueError "Missing treatment is not valid")
      else Return column_metadata.

(** The message of the error raised for a column under the [error]
    treatment. *)
Definition not_found (column_name : string) : string :=
  "Error: The column " +:+ apostrophe +:+ column_name +:+ apostrophe
  +:+ " was not found in the metadata.".

(** What one turn of the loop of [_apply_metadata_to_table] does with a raw
    column on a heap [h]: nothing ([None]), or the assignment of a cleaned
    column to a label. *)
Definition cleaned_column (env : environment) (h : heap)
    (table_metadata : value) (column_name : string) (column : Series)
  : result (option (value * Series)) :=
  let* column_metadata :=
    (_get_column_metadata env table_metadata (upper column_name) h).1 in
  if eq_str column_metadata "drop" then Return None
  else if eq_str column_metadata "error" then
    Raise (ValueError (not_found column_name))
  else
    let* column := _apply_metadata_to_column env h column column_metadata in
    let* new_name := subscript h column_metadata (VStr "new_name") in
    Return (Some (new_name, column)).

(** The loop of [_apply_metadata_to_table] on a heap that stays as it
    is. *)
Fixpoint assemble (env : environment) (h : heap) (table_metadata : value)
    (items : list (scalar * Series)) (cleaned_table : DataFrame)
  : result DataFrame :=
  match items with
  | [] => Return cleaned_table
  | (SStr column_name, column) :: items' =>
      let* step := cleaned_column env h table_metadata column_name column in
      match step with
      | None => assemble env h table_metadata items' cleaned_table
      | Some (new_name, column) =>
          let* cleaned_table :=
            DataFrame_setitem cleaned_table new_name column in
          assemble env h table_metadata items' cleaned_table
      end
  | _ => Raise AssertionError
  end.

(** On the heap [h], the raw column [column] named [name] is cleaned under
    a metadata dict (not a sentinel) into [c], and [c] is assigned to the
    label [label] of the cleaned table. *)
Definition assigned (env : environment) (h : heap) (table_metadata : value)
    (name : string) (column : Series) (label : scalar) (c : Series) : Prop :=
  ∃ column_metadata new_name,
    (_get_column_metadata env table_metadata (upper name) h).1
      = Return column_metadata
    ∧ is_dict column_metadata = true
    ∧ _apply_metadata_to_column env h column column_metadata = Return c
    ∧ subscript h column_metadata (VStr "new_name")
      = Return (VScalar new_name)
    ∧ norm_key new_name = norm_key label.

(** The declared types the coercion step knows. *)
Definition recognised_types : list string :=
  ["string"; "boolean"; "unsigned"; "integer"; "float";
   "UInt8"; "UInt16"; "UInt32"; "UInt64"; "category"].

(** The dict key a value of a column is equal to, if any: [1.0 == 1] and
    [True == 1]; a missing value is equal to nothing. *)
Definition key_of_cell (c : cell) : option scalar :=
  match c with
  | NA => None
  | CBool b => Some (SBool b)
  | CInt z => Some (SInt z)
  | CFloat q => SInt <$> integral q
  | CStr s => Some (SStr s)
  end.

(** A value under a map to labels: its label when the value is equal to
    a key of the map, the value itself otherwise. *)
Definition relabel (mapping : pydict) (c : cell) : cell :=
  match key_of_cell c with
  | Some k =>
      match pyget k mapping with
      | Some (VStr s) => CStr s
      | _ => c
      end
  | None => c
  end.

(** [v] is a scalar or a dict that is not among the objects of [h0]. *)
Definition own (h0 : heap) (v : value) : Prop :=
  match v with
  | VRef l => h0 !! l = None
  | VScalar _ => True
  end.

(** The dicts of [h] that are not objects of [h0] hold scalars and such
    dicts only. *)
Definition closed (h0 h : heap) : Prop :=
  ∀ l d, h0 !! l = None → h !! l = Some d → Forall (λ e, own h0 e.2) d.

(** A computation keeps the objects of [h0] as they are and the new dicts
    closed, and returns only values that are [good]. *)
Definition preserved {A} (h0 : heap) (good : A → Prop) (m : M A) : Prop :=
  ∀ h r h', h0 ⊆ h → closed h0 h → m h = (r, h') →
    h0 ⊆ h' ∧ closed h0 h' ∧ ∀ a, r = Return a → good a.

(** A computation keeps the objects of [h0] as they are. *)
Definition kept {A} (h0 : heap) (m : M A) : Prop :=
  ∀ h r h', h0 ⊆ h → closed h0 h → m h = (r, h') → h0 ⊆ h'.

(** ** Heaps that hold the same structure

    Two runs of the cleaning build their dicts at different addresses.
    A pairing [φ] of the dict objects of two heaps tells which dict of the
    one stands for which dict of the other. *)

(** Values that are alike under a pairing: the same scalar, or two dicts
    that are paired. *)
Definition alike (φ : gmap loc loc) (v v' : value) : Prop :=
  match v, v' with
  | VScalar k, VScalar k' => k = k'
  | VRef l, VRef l' => φ !! l = Some l'
  | _, _ => False
  end.

(** Dicts with the same keys in the same order and alike values. *)
Definition items_alike (φ : gmap loc loc) (d d' : pydict) : Prop :=
  Forall2 (λ e e', e.1 = e'.1 ∧ alike φ e.2 e'.2) d d'.

(** The pairing is one to one, and paired dicts are there and have alike
    items. *)
Definition paired (φ : gmap loc loc) (g g' : heap) : Prop :=
  (∀ l1 l2 l', φ !! l1 = Some l' → φ !! l2 = Some l' → l1 = l2)
  ∧ ∀ l l', φ !! l = Some l' →
      ∃ d d', g !! l = Some d ∧ g' !! l' = Some d' ∧ items_alike φ d d'.

(** Two results: the same error, or values that are [R]. *)
Definition outcome_alike {A} (R : A → A → Prop) (r r' : result A) : Prop :=
  match r, r' with
  | Return a, Return a' => R a a'
  | Raise e, Raise e' => e = e'
  | _, _ => False
  end.

(** Two computations that, run on heaps paired by an extension of [φ0],
    leave heaps paired by a further extension and have alike results. *)
Definition related {A} (φ0 : gmap loc loc)
    (R : gmap loc loc → A → A → Prop) (m m' : M A) : Prop :=
  ∀ φ g g', φ0 ⊆ φ → paired φ g g' →
    ∃ φ', φ ⊆ φ' ∧ paired φ' (m g).2 (m' g').2
          ∧ outcome_alike (R φ') (m g).1 (m' g').1.

(** The value refers to a dict that is there, or is a scalar. *)
Definition resident (h : heap) (v : value) : Prop :=
  match v with
  | VRef l => is_Some (h !! l)
  | VScalar _ => True
  end.

(** A heap as Python has it: every reference held by a dict leads to a
    dict. *)
Definition wellformed (h : heap) : Prop :=
  ∀ l d, h !! l = Some d → Forall (λ e, resident h e.2) d.

(** The pairing of every dict of a heap with itself. *)
Definition self_pairing (h : heap) : gmap loc loc :=
  map_imap (λ l _, Some l) h.

(** [Series.replace] reads its argument by content: on alike arguments
    in paired heaps it returns the same column. *)
Definition replace_by_content (env : environment) : Prop :=
  ∀ φ g g' column v v', paired φ g g' → alike φ v v' →
    Series_replace env g column v = Series_replace env g' column v'.

(** ** [api.py]: the parameters of a call, the classification type and
    the metadata folder *)

(** What a local variable of an API function holds: [None], a string, a
    table, or any other object. *)
Inductive argument (X : Type) :=
  | ANone
  | AStr (s : string)
  | ATable (table : DataFrame)
  | AOther (x : X).
Arguments ANone {X}.
Arguments AStr {X} s.
Arguments ATable {X} table.
Arguments AOther {X} x.

Definition is_None {X} (a : argument X) : bool :=
  match a with
  | ANone => true
  | _ => false
  end.

(** A dict whose keys are the names of the local variables, in the order
    of their definition. *)
Abbreviation variables X := (list (string * argument X)).

Definition _extract_parameters {X} (local_variables : variables X)
  : variables X :=
  filter (λ item, is_None item.2 = false) local_variables.

(** What [add_classification] takes from outside: the names of the two
    code columns ([defaults.columns]), the test
    [table[column].le(10_000).mean() < 0.9] on a column of a table, and
    the decoder ([decoder.DecoderSettings] and
    [decoder.Decoder.add_classification], which are not among the
    sources). *)
Record classifier (X : Type) := {
  commodity_code : string;
  job_code : string;
  mostly_above_10000 : DataFrame → argument X → result bool;
  decoder : DataFrame → variables X → result DataFrame;
}.
Arguments commodity_code {X} c.
Arguments job_code {X} c.
Arguments mostly_above_10000 {X} c table column.
Arguments decoder {X} c table parameters.

Section Api.
Context {X : Type} (api : classifier X).

(** [locals()] at the first statement of [add_classification]: its ten
    parameters. *)
Definition add_classification_locals (table : DataFrame)
    (name classification_type aspects levels column_names drop_value
     missing_value_replacements code_col year_col : argument X)
  : variables X :=
  [ ("table", ATable table); ("name", name);
    ("classification_type", classification_type);
    ("aspects", aspects); ("levels", levels);
    ("column_names", column_names); ("drop_value", drop_value);
    ("missing_value_replacements", missing_value_replacements);
    ("code_col", code_col); ("year_col", year_col) ].

Definition add_classification (table : DataFrame)
    (name classification_type aspects levels column_names drop_value
     missing_value_replacements code_col year_col : argument X)
  : result DataFrame :=
  let parameters :=
    _extract_parameters
      (add_classification_locals table name classification_type aspects
         levels column_names drop_value missing_value_replacements
         code_col year_col) in
  let* parameters :=
    if negb (dict_mem id "classification_type" parameters) then
      let* class_type :=
        if dict_mem id "code_column_name" parameters then
          let* column :=
            match dict_get id "code_column_name" parameters with
            | Some column => Return column
            | None => Raise (KeyError (SStr "code_column_name"))
            end in
          let* above := mostly_above_10000 api table column in
          Return (if above then "occupation" else "commodity")
        else if dict_mem norm_key (SStr (commodity_code api)) table then
          Return "commodity"
        else if dict_mem norm_key (SStr (job_code api)) table then
          Return "occupation"
        else Raise (ValueError "Missing Code Column") in
      Return (dict_set id "classification_type" (AStr class_type)
                parameters)
    else Return parameters in
  decoder api table parameters.
End Api.

(** [setup_metadata(replace)]. A folder is modelled by its regular files,
    by name ([None] when the folder is not there); [src_folder.iterdir()]
    yields the files of the package folder in an order that is not
    specified. The function returns nothing: the result is the
    destination folder after the call. *)
Section Setup.
Context {C : Type}.

Definition copy_file (replace : bool) (name : string) (src : C)
    (dst_folder : gmap string C) : gmap string C :=
  if negb (bool_decide (is_Some (dst_folder !! name))) || replace
  then <[name := src]> dst_folder
  else dst_folder.

Definition setup_metadata (replace : bool)
    (src_folder dst_folder : option (gmap string C))
  : result unit * option (gmap string C) :=
  let dst_folder := default ∅ dst_folder in
  match src_folder with
  | None => (Raise FileNotFoundError, Some dst_folder)
  | Some src_folder =>
      (Return tt, Some (map_fold (copy_file replace) dst_folder src_folder))
  end.
End Setup.

(** ** Further notions and examples *)

(** The leaf a key-path leads to in a nested document, [d[k1][k2]...[kn]]:
    every step but the last is a mapping and the last is not. *)
Fixpoint leaf_at {A} (p : key_path) (d : document A) : option A :=
  match p, d with
  | key :: p', Mapping items =>
      match dict_get norm_key key items with
      | Some (Leaf a) => match p' with [] => Some a | _ => None end
      | Some value => leaf_at p' value
      | None => None
      end
  | _, _ => None
  end.

(** A document as Python dicts hold it: the keys of every mapping are
    pairwise different. *)
Fixpoint unique_keys {A} (d : document A) : Prop :=
  match d with
  | Leaf _ => True
  | Mapping items =>
      NoDup (map norm_key (dict_keys items))
      ∧ (fix all (items : list (scalar * document A)) : Prop :=
           match items with
           | [] => True
           | (_, value) :: items' => unique_keys value ∧ all items'
           end) items
  end.

(** What one level of a document contributes to the flattened table. *)
Definition level_get {A} (flatten : document A → settings_table A)
    (p : key_path) (items : list (scalar * document A)) : option A :=
  match p with
  | key :: p' =>
      match dict_get norm_key key items with
      | Some (Leaf a) => match p' with [] => Some a | _ => None end
      | Some value => path_get p' (flatten value)
      | None => None
      end
  | [] => None
  end.

(** Settings files for the examples: the defaults name the two override
    files; the package override renames a column and holds a key the
    defaults lack; the root override renames the same column again. *)
Definition example_defaults : document string :=
  Mapping [ (SStr "package_settings", Leaf "config/settings.yaml");
            (SStr "local_settings", Leaf "lfsir_settings.yaml");
            (SStr "columns", Mapping [ (SStr "year", Leaf "Year");
                                       (SStr "season", Leaf "Season") ]) ].

Definition example_package_settings : document string :=
  Mapping [ (SStr "columns", Mapping [(SStr "year", Leaf "YEAR")]);
            (SStr "verbose", Leaf "yes") ].

Definition example_root_settings : document string :=
  Mapping [ (SStr "columns", Mapping [(SStr "year", Leaf "Sal")]) ].

Definition example_open_yaml (place : location) (path : string)
  : option (result (document string)) :=
  match place with
  | package =>
      if bool_decide (path = "config/settings.yaml")
      then Some (Return example_package_settings) else None
  | root =>
      if bool_decide (path = "lfsir_settings.yaml")
      then Some (Return example_root_settings) else None
  end.

(** The same files, with a root override that is empty: it parses to
    [None], which is not a mapping. *)
Definition example_open_yaml_empty (place : location) (path : string)
  : option (result (document string)) :=
  match place with
  | package => None
  | root =>
      if bool_decide (path = "lfsir_settings.yaml")
      then Some (Return (Leaf "None")) else None
  end.

(** A value of a text column: missing, or a string that is [P]. *)
Definition text_cell (P : string → Prop) (c : cell) : Prop :=
  c = NA ∨ ∃ s, c = CStr s ∧ P s.

(** No character of [s] is in the class. *)
Definition free_of (class : ascii → bool) (s : string) : Prop :=
  ∀ ch, In ch (list_ascii_of_string s) → class ch = false.

(** The characters the sanitation step leaves in no value: those of
    [chars_to_remove] and the middle dot it replaces. *)
Definition unwanted (ch : ascii) : bool :=
  chars_to_remove ch || bool_decide (ch = chr 183).

(** What the sanitation step makes of one value of a text column. *)
Definition sanitised (c : cell) : cell :=
  match c with
  | CStr s =>
      let s := remove_boundary_hyphens false
                 (remove_chars chars_to_remove
                    (rstrip dot (replace_char (chr 183) dot s))) in
      if is_blank s then NA else CStr s
  | _ => NA
  end.

(** [s.endswith(a)] for a single character. *)
Fixpoint ends_with (a : ascii) (s : string) : bool :=
  match s with
  | EmptyString => false
  | String c EmptyString => bool_decide (c = a)
  | String _ s' => ends_with a s'
  end.

(** [s] has a hyphen right after a word character ([prev_word] tells
    whether one stands before [s]). *)
Fixpoint boundary_hyphen (prev_word : bool) (s : string) : bool :=
  match s with
  | EmptyString => false
  | String c s' =>
      (bool_decide (c = hyphen) && prev_word) || boundary_hyphen (is_word c) s'
  end.

(** Text the sanitation step has nothing to do on. *)
Definition tidy (s : string) : Prop :=
  free_of unwanted s
  ∧ ends_with dot s = false
  ∧ boundary_hyphen false s = false
  ∧ is_blank s = false.

(** A classifier for the examples: the decoder returns the table as it
    is. *)
Definition example_classifier : classifier unit := {|
  commodity_code := "Commodity_Code";
  job_code := "Job_Code";
  mostly_above_10000 := λ _ _, Return true;
  decoder := λ table _, Return table |}.

(** Declared types for the examples: a flag, a category without
    categories, an unsigned number, and a category with string keys. *)
Definition example_types : heap :=
  list_to_map
    [ (30%positive, [(SStr "new_name", VStr "Employed");
                     (SStr "type", VStr "boolean");
                     (SStr "true_condition", VInt 1)]);
      (31%positive, [(SStr "new_name", VStr "Region");
                     (SStr "type", VStr "category");
                     (SStr "categories", VRef 32)]);
      (32%positive, []);
      (33%positive, [(SStr "new_name", VStr "Balance");
                     (SStr "type", VStr "unsigned")]);
      (34%positive, [(SStr "new_name", VStr "Sex");
                     (SStr "type", VStr "category");
                     (SStr "categories", VRef 35)]);
      (35%positive, [(SStr "M", VStr "Male"); (SStr "F", VStr "Female")]) ].

(* ===================================================================== *)
(** * Part II. Properties *)
(* ===================================================================== *)

(** ** Dictionaries *)

Section DictFacts.
Context {K N V : Type} `{EqDecision N} (norm : K → N).
Implicit Types (k : K) (v : V) (d : list (K * V)).

Lemma dict_get_set k k' v d :
  dict_get norm k (dict_set norm k' v d)
  = if decide (norm k = norm k') then Some v else dict_get norm k d.
Proof.
  induction d as [|[k0 v0] d IH]; simpl.
  - destruct (decide (norm k = norm k')); reflexivity.
  - destruct (decide (norm k' = norm k0)) as [E|E]; simpl.
    + destruct (decide (norm k = norm k0)), (decide (norm k = norm k'));
        congruence.
    + rewrite IH.
      destruct (decide (norm k = norm k0)), (decide (norm k = norm k'));
        congruence.
Qed.

Lemma dict_get_norm k k' d :
  norm k = norm k' → dict_get norm k d = dict_get norm k' d.
Proof.
  intros E. induction d as [|[k0 v0] d IH]; simpl; [reflexivity|].
  rewrite E, IH. reflexivity.
Qed.

Lemma dict_get_None k d :
  dict_get norm k d = None ↔ norm k ∉ map norm (dict_keys d).
Proof.
  induction d as [|[k0 v0] d IH]; simpl.
  - split; [intros _; apply not_elem_of_nil | reflexivity].
  - rewrite not_elem_of_cons.
    destruct (decide (norm k = norm k0)); [|tauto].
    split; [discriminate | tauto].
Qed.

Lemma dict_get_Some_elem k v d :
  dict_get norm k d = Some v → ∃ k0, (k0, v) ∈ d ∧ norm k = norm k0.
Proof.
  induction d as [|[k0 v0] d IH]; simpl; [discriminate|].
  destruct (decide (norm k = norm k0)).
  - intros [= ->]. exists k0. split; [left | assumption].
  - intros [k1 [? ?]]%IH. exists k1. split; [right|]; assumption.
Qed.

Lemma dict_mem_true k d :
  dict_mem norm k d = true ↔ is_Some (dict_get norm k d).
Proof.
  unfold dict_mem. destruct (dict_get norm k d) as [v|].
  - split; [eauto | reflexivity].
  - split; [discriminate | intros [? [=]]].
Qed.

Lemma dict_set_keys_present k v d :
  dict_mem norm k d = true → dict_keys (dict_set norm k v d) = dict_keys d.
Proof.
  unfold dict_mem, dict_keys.
  induction d as [|[k0 v0] d IH]; simpl; [discriminate|].
  destruct (decide (norm k = norm k0)); simpl; [reflexivity|].
  intros Hm. f_equal. apply IH, Hm.
Qed.

Lemma dict_set_keys_absent k v d :
  dict_mem norm k d = false
  → dict_keys (dict_set norm k v d) = dict_keys d ++ [k].
Proof.
  unfold dict_mem, dict_keys.
  induction d as [|[k0 v0] d IH]; simpl; [reflexivity|].
  destruct (decide (norm k = norm k0)); simpl; [discriminate|].
  intros Hm. f_equal. apply IH, Hm.
Qed.

Lemma dict_set_NoDup k v d :
  NoDup (map norm (dict_keys d))
  → NoDup (map norm (dict_keys (dict_set norm k v d))).
Proof.
  intros Hd. destruct (dict_mem norm k d) eqn:Hm.
  - rewrite dict_set_keys_present; assumption.
  - rewrite dict_set_keys_absent by assumption.
    rewrite map_app. apply NoDup_app. split; [assumption|].
    split; [|apply NoDup_singleton].
    intros x Hx ->%list_elem_of_singleton.
    unfold dict_mem in Hm.
    destruct (dict_get norm k d) eqn:Hg; [discriminate|].
    apply dict_get_None in Hg. contradiction.
Qed.
End DictFacts.

(** ** The settings table *)

Section SettingsFacts.
Context {A : Type}.
Implicit Types (t new : settings_table A) (p : key_path).

Lemma fold_set_distinct {B} (f : B → key_path * A) (l : list B) t :
  distinct_paths t
  → distinct_paths
      (fold_left (λ acc b, dict_set norm_path (f b).1 (f b).2 acc) l t).
Proof.
  revert t. induction l as [|b l IH]; intros t Ht; simpl; [assumption|].
  apply IH, dict_set_NoDup, Ht.
Qed.

Lemma flatten_items_distinct flatten items t :
  distinct_paths t → distinct_paths (flatten_items flatten items t).
Proof.
  revert t. induction items as [|[key value] items IH]; intros t Ht; simpl.
  - assumption.
  - apply IH. destruct value as [a|sub].
    + apply dict_set_NoDup, Ht.
    + apply (fold_set_distinct (λ s, (key :: s.1, s.2))), Ht.
Qed.

(** The key-paths of a flattened document are pairwise different. *)
Lemma flatten_document_distinct (d : document A) :
  distinct_paths (flatten_document d).
Proof.
  destruct d as [a|items]; simpl.
  - apply NoDup_nil_2.
  - apply flatten_items_distinct, NoDup_nil_2.
Qed.

(** One step of [_update_settings]. *)
Lemma update_step p k (a : A) t :
  path_get p (if dict_mem norm_path k t then dict_set norm_path k a t else t)
  = match path_get p t with
    | Some v => Some (if decide (norm_path p = norm_path k) then a else v)
    | None => None
    end.
Proof.
  unfold path_get, dict_mem.
  destruct (dict_get norm_path k t) as [v0|] eqn:Hk.
  - rewrite dict_get_set.
    destruct (decide (norm_path p = norm_path k)) as [E|E].
    + rewrite (dict_get_norm _ _ _ _ E), Hk. reflexivity.
    + destruct (dict_get norm_path p t); reflexivity.
  - destruct (decide (norm_path p = norm_path k)) as [E|E].
    + rewrite (dict_get_norm _ _ _ _ E), Hk. reflexivity.
    + destruct (dict_get norm_path p t); reflexivity.
Qed.

Lemma update_settings_get t new p :
  distinct_paths new →
  path_get p (_update_settings t new)
  = match path_get p t with
    | Some v => Some (default v (path_get p new))
    | None => None
    end.
Proof.
  unfold _update_settings, distinct_paths.
  revert t. induction new as [|[k a] new IH]; intros t Hnew; simpl.
  - destruct (path_get p t); reflexivity.
  - apply NoDup_cons in Hnew as [Hk Hnew].
    rewrite IH by assumption. rewrite update_step.
    destruct (path_get p t) as [v|]; [|reflexivity].
    unfold path_get at 2. simpl.
    destruct (decide (norm_path p = norm_path k)) as [E|E];
      [|reflexivity].
    assert (path_get p new = None) as ->; [|reflexivity].
    apply dict_get_None. rewrite E. exact Hk.
Qed.

(** C5. Merging an override document into a flattened default document:
    every key-path of the defaults holds the override's value when the
    override has that key-path and the default value otherwise, and a
    key-path the defaults do not have is not in the merged table. *)
Theorem update_settings_merge (defaults override : document A) p :
  path_get p (_update_settings (flatten_document defaults)
                               (flatten_document override))
  = match path_get p (flatten_document defaults) with
    | Some v => Some (default v (path_get p (flatten_document override)))
    | None => None
    end.
Proof. apply update_settings_get, flatten_document_distinct. Qed.
End SettingsFacts.

(** ** The tiers of the settings *)

Section Tiers.
Context {A : Type} (default_settings : result (document A))
        (open_yaml : location → A → option (result (document A))).

(** An override file that is there is merged as [_update_settings]
    merges; one that is not there changes nothing. *)
Lemma override_present place name t path (content : document A) new :
  settings_path name t = Return path →
  open_yaml place path = Some (Return content) →
  flatten_dict content = Return new →
  override open_yaml place name t = Return (_update_settings t new).
Proof.
  intros Hpath Hfile Hflat. unfold override.
  rewrite Hpath. cbn [bind]. rewrite Hfile. cbn [bind].
  rewrite Hflat. reflexivity.
Qed.

Lemma override_absent place name t path :
  settings_path name t = Return path →
  open_yaml place path = None →
  override open_yaml place name t = Return t.
Proof.
  intros Hpath Hfile. unfold override.
  rewrite Hpath. cbn [bind]. rewrite Hfile. reflexivity.
Qed.

(** X1. With both override files there, the root override wins over
    the package override, which wins over the defaults; no key-path is
    added. *)
Lemma collect_settings_precedence defaults package_path package_doc
    root_path root_doc p :
  default_settings = Return defaults →
  settings_path "package_settings" (flatten_document defaults)
    = Return package_path →
  open_yaml package package_path = Some (Return package_doc) →
  settings_path "local_settings"
    (_update_settings (flatten_document defaults)
                      (flatten_document package_doc))
    = Return root_path →
  open_yaml root root_path = Some (Return root_doc) →
  (∃ items, defaults = Mapping items) →
  (∃ items, package_doc = Mapping items) →
  (∃ items, root_doc = Mapping items) →
  ∃ t, collect_settings default_settings open_yaml = Return t
       ∧ path_get p t
         = match path_get p (flatten_document defaults) with
           | Some v =>
               Some (default
                       (default v (path_get p (flatten_document package_doc)))
                       (path_get p (flatten_document root_doc)))
           | None => None
           end.
Proof.
  intros Hdefault Hppath Hpfile Hrpath Hrfile [di ->] [pi ->] [ri ->].
  eexists. split.
  - unfold collect_settings. rewrite Hdefault. cbn [bind flatten_dict].
    rewrite (override_present package "package_settings" _ package_path
               (Mapping pi) (flatten_document (Mapping pi)))
      by (assumption || reflexivity).
    cbn [bind].
    apply (override_present root "local_settings" _ root_path (Mapping ri));
      (assumption || reflexivity).
  - rewrite update_settings_get by apply flatten_document_distinct.
    rewrite update_settings_get by apply flatten_document_distinct.
    destruct (path_get p (flatten_document (Mapping di))); reflexivity.
Qed.
End Tiers.
(** ** Reading and writing the heap *)

Lemma pyget_set k k' v (d : pydict) :
  pyget k (pyset k' v d)
  = if decide (norm_key k = norm_key k') then Some v else pyget k d.
Proof. apply dict_get_set. Qed.

Lemma pyget_key_mem k (d : pydict) :
  k ∈ dict_keys d → dict_mem norm_key k d = true.
Proof.
  intros Hk. apply dict_mem_true.
  destruct (dict_get norm_key k d) eqn:E; [eauto|].
  apply dict_get_None in E. exfalso. apply E.
  apply list_elem_of_fmap. eauto.
Qed.

Lemma inherited_cons d k0 keys s :
  inherited d (k0 :: keys) s
  = inherited d keys
      (if dict_mem norm_key k0 s then s
       else match pyget k0 d with Some v => pyset k0 v s | None => s end).
Proof. reflexivity. Qed.

Lemma inherited_get d keys s k :
  pyget k (inherited d keys s)
  = match pyget k s with
    | Some v => Some v
    | None => if decide (norm_key k ∈ map norm_key keys) then pyget k d
              else None
    end.
Proof.
  revert s. induction keys as [|k0 keys IH]; intros s.
  - unfold inherited. cbn [fold_left map].
    destruct (pyget k s); [reflexivity|].
    rewrite decide_False by apply not_elem_of_nil. reflexivity.
  - rewrite inherited_cons, IH. cbn [map].
    assert (Hcons : ∀ X Y : option value,
      norm_key k ≠ norm_key k0 →
      (if decide (norm_key k ∈ norm_key k0 :: map norm_key keys)
       then X else Y)
      = (if decide (norm_key k ∈ map norm_key keys) then X else Y)).
    { intros X Y Hne.
      destruct (decide (norm_key k ∈ map norm_key keys)) as [Hin|Hin].
      - rewrite decide_True by (apply elem_of_cons; right; exact Hin).
        reflexivity.
      - rewrite decide_False; [reflexivity|].
        intros [?|?]%elem_of_cons; contradiction. }
    unfold dict_mem. fold (pyget k0 s).
    destruct (decide (norm_key k = norm_key k0)) as [Hk|Hk].
    + assert (Hs : pyget k s = pyget k0 s) by (apply dict_get_norm, Hk).
      assert (Hd : pyget k d = pyget k0 d) by (apply dict_get_norm, Hk).
      rewrite (decide_True (P := norm_key k ∈ norm_key k0 :: _))
        by (apply elem_of_cons; left; exact Hk).
      destruct (pyget k0 s) as [v0|] eqn:E0.
      * rewrite Hs. reflexivity.
      * rewrite Hs, Hd. destruct (pyget k0 d) as [w|] eqn:Ed.
        -- rewrite pyget_set, decide_True by exact Hk. reflexivity.
        -- rewrite Hs. destruct (decide _); reflexivity.
    + rewrite Hcons by exact Hk.
      destruct (pyget k0 s) as [v0|] eqn:E0; [reflexivity|].
      destruct (pyget k0 d) as [w|] eqn:Ed; [|reflexivity].
      rewrite pyget_set, decide_False by exact Hk. reflexivity.
Qed.

(** When nothing is missing the loop writes nothing. *)
Lemma inherit_defaults_complete dflt ts keys h :
  Forall (λ k, contains h (VScalar k) ts = Return true) keys →
  inherit_defaults dflt ts keys h = (Return tt, h).
Proof.
  induction 1 as [|k keys Hk _ IH]; cbn [inherit_defaults]; [reflexivity|].
  unfold bindM at 1. unfold read at 1. rewrite Hk.
  unfold bindM at 1. unfold ret at 1. exact IH.
Qed.

(** The loop on two different dicts. *)
Lemma inherit_defaults_dicts ld ls d keys s h :
  ls ≠ ld → h !! ld = Some d → h !! ls = Some s →
  Forall (λ k, is_Some (pyget k d)) keys →
  inherit_defaults (VRef ld) (VRef ls) keys h
  = (Return tt, <[ls := inherited d keys s]> h).
Proof.
  intros Hne Hd. revert s h Hd.
  induction keys as [|k keys IH]; intros s h Hd Hs Hkeys.
  - unfold inherited. cbn [fold_left inherit_defaults]. unfold ret.
    rewrite insert_id by assumption. reflexivity.
  - apply Forall_cons in Hkeys as [[v Hv] Hkeys].
    rewrite inherited_cons. cbn [inherit_defaults].
    unfold bindM at 1. unfold read at 1. unfold contains. rewrite Hs.
    destruct (dict_mem norm_key k s) eqn:Hm.
    + unfold bindM at 1. unfold ret at 1. apply IH; assumption.
    + unfold bindM at 1. unfold bindM at 1. unfold read at 1.
      unfold subscript. rewrite Hd, Hv. unfold setitem. rewrite Hs.
      rewrite (IH (pyset k v s) (<[ls := pyset k v s]> h)).
      * rewrite insert_insert_eq. reflexivity.
      * rewrite lookup_insert_ne by assumption. exact Hd.
      * apply lookup_insert_eq.
      * exact Hkeys.
Qed.

(** The loop leaves the heap as it is when the settings are not a dict. *)
Lemma inherit_defaults_no_dict dflt ts keys h :
  (∀ l, ts = VRef l → h !! l = None) →
  (inherit_defaults dflt ts keys h).2 = h.
Proof.
  intros Hts. induction keys as [|k keys IH]; cbn [inherit_defaults];
    [reflexivity|].
  unfold bindM at 1. unfold read at 1.
  destruct (contains h k ts) as [[|]|e]; [| |reflexivity].
  - unfold bindM at 1. unfold ret at 1. exact IH.
  - unfold bindM at 1. unfold bindM at 1. unfold read at 1.
    destruct (subscript h dflt k) as [v|e]; [|reflexivity].
    unfold setitem. destruct ts as [?|l]; [reflexivity|].
    rewrite (Hts l eq_refl). reflexivity.
Qed.

(** The loop leaves the heap as it is when the defaults cannot be
    subscripted by their keys (a string). *)
Lemma inherit_defaults_unreadable dflt ts keys h :
  Forall (λ k, is_return (subscript h dflt (VScalar k)) = false) keys →
  (inherit_defaults dflt ts keys h).2 = h.
Proof.
  induction 1 as [|k keys Hk _ IH]; cbn [inherit_defaults]; [reflexivity|].
  unfold bindM at 1. unfold read at 1.
  destruct (contains h k ts) as [[|]|e]; [| |reflexivity].
  - unfold bindM at 1. unfold ret at 1. exact IH.
  - unfold bindM at 1. unfold bindM at 1. unfold read at 1.
    destruct (subscript h dflt k) as [v|e]; [discriminate|reflexivity].
Qed.

Lemma inherited_complete d keys s :
  Forall (λ k, dict_mem norm_key k s = true) keys → inherited d keys s = s.
Proof.
  induction 1 as [|k keys Hk _ IH]; [reflexivity|].
  rewrite inherited_cons, Hk. exact IH.
Qed.

Lemma inherited_has_keys d keys s :
  Forall (λ k, is_Some (pyget k d)) keys →
  Forall (λ k, dict_mem norm_key k (inherited d keys s) = true) keys.
Proof.
  intros Hd. apply Forall_forall. intros k Hk.
  apply dict_mem_true. fold (pyget k (inherited d keys s)).
  rewrite inherited_get. destruct (pyget k s); [eauto|].
  rewrite decide_True by (apply list_elem_of_fmap; eauto).
  rewrite Forall_forall in Hd. apply Hd, Hk.
Qed.

Lemma inherited_keeps d keys s k v :
  pyget k s = Some v → pyget k (inherited d keys s) = Some v.
Proof. intros E. rewrite inherited_get, E. reflexivity. Qed.

Lemma dict_keys_present (d : pydict) :
  Forall (λ k, is_Some (pyget k d)) (dict_keys d).
Proof.
  apply Forall_forall. intros k Hk.
  apply dict_mem_true, pyget_key_mem, Hk.
Qed.

(** A successful read is not disturbed when a dict gains items. *)
Lemma subscript_insert_mono h l s s' obj key v :
  h !! l = Some s →
  (∀ k w, pyget k s = Some w → pyget k s' = Some w) →
  subscript h obj key = Return v →
  subscript (<[l := s']> h) obj key = Return v.
Proof.
  intros Hl Hmono. unfold subscript.
  destruct obj as [x|l0]; [exact id|].
  destruct (decide (l0 = l)) as [->|Hne].
  - rewrite Hl, lookup_insert_eq.
    destruct key as [k|]; [|exact id].
    destruct (pyget k s) as [w|] eqn:E; [|discriminate].
    rewrite (Hmono _ _ E). exact id.
  - rewrite lookup_insert_ne by congruence. exact id.
Qed.

Lemma characters_unreadable h x s :
  Forall (λ k, is_return (subscript h (VStr x) (VScalar k)) = false)
         (characters s).
Proof.
  induction s as [|c s IH]; simpl; constructor; [reflexivity | exact IH].
Qed.

Section TableSettingsFacts.
Context (env : environment).

(** The settings lookup on a table whose settings are a dict other than
    the defaults. *)
Lemma get_table_settings_dicts tm h ld ls d s :
  subscript h (metadata_tables env) (VStr "default_table_settings")
    = Return (VRef ld) →
  subscript h tm (VStr "settings") = Return (VRef ls) →
  ls ≠ ld → h !! ld = Some d → h !! ls = Some s →
  _get_table_settings env tm h
  = (Return (VRef ls), <[ls := inherited d (dict_keys d) s]> h).
Proof.
  intros Hdflt Hts Hne Hd Hs. unfold _get_table_settings.
  unfold bindM at 1. unfold read at 1. rewrite Hdflt, Hts.
  unfold bindM at 1. unfold read at 1. unfold iterate. rewrite Hd.
  unfold bindM at 1.
  rewrite (inherit_defaults_dicts ld ls d (dict_keys d) s h)
    by (try assumption; apply dict_keys_present).
  reflexivity.
Qed.

(** In every other case the lookup leaves the heap as it is. *)
Lemma get_table_settings_frame tm h :
  (_get_table_settings env tm h).2 = h
  ∨ ∃ ld ls d s,
      subscript h (metadata_tables env) (VStr "default_table_settings")
        = Return (VRef ld)
      ∧ subscript h tm (VStr "settings") = Return (VRef ls)
      ∧ ls ≠ ld ∧ h !! ld = Some d ∧ h !! ls = Some s.
Proof.
  unfold _get_table_settings. unfold bindM at 1. unfold read at 1.
  destruct (subscript h (metadata_tables env) _) as [dflt|e] eqn:Hdflt;
    [|left; reflexivity].
  destruct (subscript h tm _) as [ts|e] eqn:Hts;
    [|left; destruct e; reflexivity].
  unfold bindM at 1. unfold read at 1.
  destruct (iterate h dflt) as [keys|e] eqn:Hit; [|left; reflexivity].
  unfold bindM at 1.
  destruct ts as [x|ls].
  { left. pose proof (inherit_defaults_no_dict dflt (VScalar x) keys h) as H.
    destruct (inherit_defaults dflt x keys h) as [[[]|e] h'];
      simpl in *; apply H; intros ? [=]. }
  destruct (h !! ls) as [s|] eqn:Hs.
  2:{ left. pose proof (inherit_defaults_no_dict dflt (VRef ls) keys h) as H.
      destruct (inherit_defaults dflt (VRef ls) keys h) as [[[]|e] h'];
        simpl in *; apply H; intros ? [= <-]; exact Hs. }
  destruct dflt as [x|ld].
  { left. destruct x as [| | |x]; try discriminate.
    injection Hit as <-.
    pose proof (inherit_defaults_unreadable (VStr x) (VRef ls)
                  (characters x) h (characters_unreadable h x x)) as H.
    destruct (inherit_defaults (VStr x) (VRef ls) (characters x) h)
      as [[[]|e] h']; simpl in *; exact H. }
  unfold iterate in Hit. destruct (h !! ld) as [d|] eqn:Hd; [|discriminate].
  injection Hit as <-.
  destruct (decide (ls = ld)) as [->|Hne].
  - left. rewrite inherit_defaults_complete; [reflexivity|].
    apply Forall_forall. intros k Hk. unfold contains.
    rewrite Hd, (pyget_key_mem _ _ Hk). reflexivity.
  - right. exists ld, ls, d, s. auto.
Qed.

(** Running the lookup again on the heap it leaves changes nothing and
    returns the same. *)
Lemma get_table_settings_stable tm h r h' :
  _get_table_settings env tm h = (r, h') →
  _get_table_settings env tm h' = (r, h').
Proof.
  intros Hrun.
  destruct (get_table_settings_frame tm h)
    as [Hsame | (ld & ls & d & s & Hdflt & Hts & Hne & Hd & Hs)].
  - rewrite Hrun in Hsame. simpl in Hsame. subst h'. exact Hrun.
  - rewrite (get_table_settings_dicts tm h ld ls d s) in Hrun
      by assumption.
    injection Hrun as <- <-.
    set (s' := inherited d (dict_keys d) s).
    assert (Hmono : ∀ k w, pyget k s = Some w → pyget k s' = Some w)
      by (intros; apply inherited_keeps; assumption).
    rewrite (get_table_settings_dicts tm (<[ls:=s']> h) ld ls d s').
    + rewrite insert_insert_eq. unfold s' at 2.
      rewrite inherited_complete; [reflexivity|].
      apply inherited_has_keys, dict_keys_present.
    + eapply subscript_insert_mono; eassumption.
    + eapply subscript_insert_mono; eassumption.
    + exact Hne.
    + rewrite lookup_insert_ne by assumption. exact Hd.
    + apply lookup_insert_eq.
Qed.
End TableSettingsFacts.

Section ColumnMetadataFacts.
Context (env : environment).

(** C10. When the settings block of a table omits a key of
    [default_table_settings], the settings lookup writes the missing
    defaults into that very dict: the lookup returns the dict the table
    metadata refers to, and after it this dict holds, besides its own
    items, every default it lacked. *)
Theorem table_settings_inherited_in_place tm h ld ls d s :
  subscript h (metadata_tables env) (VStr "default_table_settings")
    = Return (VRef ld) →
  h !! ld = Some d →
  subscript h tm (VStr "settings") = Return (VRef ls) →
  h !! ls = Some s →
  (∃ k, k ∈ dict_keys d ∧ dict_mem norm_key k s = false) →
  ∃ s', _get_table_settings env tm h = (Return (VRef ls), <[ls := s']> h)
        ∧ s' ≠ s
        ∧ subscript (<[ls := s']> h) tm (VStr "settings")
          = Return (VRef ls)
        ∧ ∀ k, pyget k s' = match pyget k s with
                            | Some v => Some v
                            | None => pyget k d
                            end.
Proof.
  intros Hdflt Hd Hts Hs (k0 & Hk0 & Hmiss).
  assert (Hne : ls ≠ ld).
  { intros ->. rewrite Hd in Hs. injection Hs as ->.
    rewrite (pyget_key_mem _ _ Hk0) in Hmiss. discriminate. }
  assert (Hget : ∀ k, pyget k (inherited d (dict_keys d) s)
                      = match pyget k s with
                        | Some v => Some v
                        | None => pyget k d
                        end).
  { intros k. rewrite inherited_get.
    destruct (pyget k s); [reflexivity|].
    destruct (decide _) as [|Hout]; [reflexivity|].
    symmetry. apply dict_get_None. exact Hout. }
  exists (inherited d (dict_keys d) s). split; [|split; [|split]].
  - apply (get_table_settings_dicts env tm h ld ls d s); assumption.
  - intros E. specialize (Hget k0). rewrite E in Hget.
    unfold dict_mem in Hmiss. fold (pyget k0 s) in Hmiss.
    destruct (pyget k0 s); [discriminate|].
    pose proof (dict_keys_present d) as H. rewrite Forall_forall in H.
    destruct (H _ Hk0) as [v Hv]. rewrite Hv in Hget. discriminate.
  - eapply subscript_insert_mono; [exact Hs | | exact Hts].
    intros; apply inherited_keeps; assumption.
  - exact Hget.
Qed.
End ColumnMetadataFacts.

Section ColumnLookupFacts.
Context (env : environment).

Lemma get_column_metadata_unfold tm c h :
  _get_column_metadata env tm c h
  = match _get_table_settings env tm h with
    | (Return ts, h1) => (column_lookup h1 tm ts c, h1)
    | (Raise e, h1) => (Raise e, h1)
    end.
Proof.
  unfold _get_column_metadata. unfold bindM at 1.
  destruct (_get_table_settings env tm h) as [[ts|e] h1]; [|reflexivity].
  unfold column_lookup, bindM, read, raise, ret, bind.
  destruct (subscript h1 tm (VStr "columns")) as [cm|e]; [|reflexivity].
  destruct (negb (is_dict cm)); [reflexivity|].
  destruct (contains h1 (VStr c) cm) as [[|]|e]; [| |reflexivity].
  - destruct (subscript h1 cm (VStr c)) as [md|e]; [|reflexivity].
    destruct (negb _); reflexivity.
  - destruct (subscript h1 ts (VStr "missings")) as [md|e]; [|reflexivity].
    destruct (negb _); reflexivity.
Qed.

Lemma get_column_metadata_heap tm c h :
  (_get_column_metadata env tm c h).2 = settled env tm h.
Proof.
  rewrite get_column_metadata_unfold. unfold settled.
  destruct (_get_table_settings env tm h) as [[ts|e] h1]; reflexivity.
Qed.

Lemma settled_settled tm h :
  settled env tm (settled env tm h) = settled env tm h.
Proof.
  unfold settled.
  destruct (_get_table_settings env tm h) as [r h1] eqn:E. cbn [snd].
  rewrite (get_table_settings_stable env tm h r h1 E). reflexivity.
Qed.

(** The column lookup reads the same, before and after the settings have
    inherited the defaults. *)
Lemma get_column_metadata_settled tm c h :
  _get_column_metadata env tm c (settled env tm h)
  = _get_column_metadata env tm c h.
Proof.
  rewrite !get_column_metadata_unfold. unfold settled.
  destruct (_get_table_settings env tm h) as [r h1] eqn:E. cbn [snd].
  rewrite (get_table_settings_stable env tm h r h1 E). reflexivity.
Qed.

Lemma get_column_metadata_stable_heap tm c h :
  settled env tm h = h → (_get_column_metadata env tm c h).2 = h.
Proof. intros E. rewrite get_column_metadata_heap. exact E. Qed.
End ColumnLookupFacts.

Section TableFacts.
Context (env : environment).

Lemma clean_columns_pure tm items acc h :
  settled env tm h = h →
  clean_columns env items tm acc h = (assemble env h tm items acc, h).
Proof.
  intros Hst. revert acc.
  induction items as [|[k column] items IH]; intros acc; [reflexivity|].
  destruct k as [| | |name]; try reflexivity.
  cbn [clean_columns assemble]. unfold cleaned_column.
  unfold bindM at 1.
  pose proof (get_column_metadata_stable_heap env tm (upper name) h Hst)
    as Hheap.
  destruct (_get_column_metadata env tm (upper name) h) as [[md|e] h'];
    cbn [fst snd] in *; subst h'; [|reflexivity].
  cbn [bind].
  destruct (eq_str md "drop"); [apply IH|].
  destruct (eq_str md "error"); [reflexivity|].
  unfold bindM at 1. unfold read at 1.
  destruct (_apply_metadata_to_column env h column md) as [c|e];
    [|reflexivity].
  cbn [bind]. unfold bindM at 1. unfold read at 1.
  destruct (subscript h md (VStr "new_name")) as [label|e]; [|reflexivity].
  cbn [bind].
  destruct (DataFrame_setitem acc label c) as [acc'|e]; [|reflexivity].
  cbn [bind]. apply IH.
Qed.

(** The table a run of the loop returns is the one it returns on the
    heap where the settings have inherited the defaults. *)
Lemma clean_columns_settled tm items acc h :
  (clean_columns env items tm acc h).1
  = assemble env (settled env tm h) tm items acc.
Proof.
  destruct items as [|[k column] items]; [reflexivity|].
  destruct k as [| | |name]; try reflexivity.
  cbn [clean_columns assemble]. unfold cleaned_column.
  rewrite get_column_metadata_settled.
  unfold bindM at 1.
  pose proof (get_column_metadata_heap env tm (upper name) h) as Hheap.
  destruct (_get_column_metadata env tm (upper name) h) as [[md|e] h'];
    cbn [fst snd] in *; subst h'; [|reflexivity].
  cbn [bind].
  assert (Hst : settled env tm (settled env tm h) = settled env tm h)
    by apply settled_settled.
  destruct (eq_str md "drop");
    [rewrite clean_columns_pure by exact Hst; reflexivity|].
  destruct (eq_str md "error"); [reflexivity|].
  unfold bindM at 1. unfold read at 1.
  destruct (_apply_metadata_to_column env _ column md) as [c|e];
    [|reflexivity].
  cbn [bind]. unfold bindM at 1. unfold read at 1.
  destruct (subscript _ md (VStr "new_name")) as [label|e]; [|reflexivity].
  cbn [bind].
  destruct (DataFrame_setitem acc label c) as [acc'|e]; [|reflexivity].
  cbn [bind]. rewrite clean_columns_pure by exact Hst. reflexivity.
Qed.

Lemma clean_columns_heap tm items acc h :
  (clean_columns env items tm acc h).2 = h
  ∨ (clean_columns env items tm acc h).2 = settled env tm h.
Proof.
  destruct items as [|[k column] items]; [left; reflexivity|].
  destruct k as [| | |name]; try (left; reflexivity).
  right. cbn [clean_columns]. unfold bindM at 1.
  pose proof (get_column_metadata_heap env tm (upper name) h) as Hheap.
  destruct (_get_column_metadata env tm (upper name) h) as [[md|e] h'];
    cbn [fst snd] in *; subst h'; [|reflexivity].
  assert (Hst : settled env tm (settled env tm h) = settled env tm h)
    by apply settled_settled.
  destruct (eq_str md "drop");
    [rewrite clean_columns_pure by exact Hst; reflexivity|].
  destruct (eq_str md "error"); [reflexivity|].
  unfold bindM at 1. unfold read at 1.
  destruct (_apply_metadata_to_column env _ column md) as [c|e];
    [|reflexivity].
  unfold bindM at 1. unfold read at 1.
  destruct (subscript _ md (VStr "new_name")) as [label|e]; [|reflexivity].
  cbn [bind].
  destruct (DataFrame_setitem acc label c) as [acc'|e]; [|reflexivity].
  rewrite clean_columns_pure by exact Hst. reflexivity.
Qed.

Lemma apply_metadata_to_table_assemble table tm h :
  (_apply_metadata_to_table env table tm h).1
  = assemble env (settled env tm h) tm table [].
Proof. apply clean_columns_settled. Qed.
End TableFacts.

Section Treatment.
Context (env : environment).

(** C6 (amended). For a column listed in the columns mapping, the lookup
    returns its metadata unchanged when it is a dict or the drop
    sentinel, and raises the schema error in every other case, the error
    sentinel included. *)
Theorem listed_column_metadata tm h c ts lc cols md :
  (_get_table_settings env tm h).1 = Return ts →
  subscript (settled env tm h) tm (VStr "columns") = Return (VRef lc) →
  settled env tm h !! lc = Some cols →
  pyget (SStr c) cols = Some md →
  _get_column_metadata env tm c h
  = (if is_dict md || eq_str md "drop" then Return md
     else Raise (ValueError ("Metadata for column " +:+ c
                             +:+ " is not valid")),
     settled env tm h).
Proof.
  intros Hts Hcols Hlc Hmd. rewrite get_column_metadata_unfold.
  unfold settled in *.
  destruct (_get_table_settings env tm h) as [r h1]. cbn [fst snd] in *.
  subst r. unfold column_lookup. rewrite Hcols. cbn [bind is_dict negb].
  unfold contains, subscript. rewrite Hlc. unfold dict_mem.
  fold (pyget (SStr c) cols). rewrite Hmd. cbn [bind].
  destruct (is_dict md || eq_str md "drop"); reflexivity.
Qed.

Lemma unlisted_lookup tm h name ts lc cols :
  (_get_table_settings env tm h).1 = Return ts →
  subscript (settled env tm h) tm (VStr "columns") = Return (VRef lc) →
  settled env tm h !! lc = Some cols →
  pyget (SStr name) cols = None →
  (_get_column_metadata env tm name (settled env tm h)).1
  = let* treatment :=
      subscript (settled env tm h) ts (VStr "missings") in
    if negb (eq_str treatment "drop" || eq_str treatment "error")
    then Raise (ValueError "Missing treatment is not valid")
    else Return treatment.
Proof.
  intros Hts Hcols Hlc Hmd.
  rewrite get_column_metadata_settled, get_column_metadata_unfold.
  unfold settled in *.
  destruct (_get_table_settings env tm h) as [r h1]. cbn [fst snd] in *.
  subst r. unfold column_lookup. rewrite Hcols. cbn [bind is_dict negb].
  unfold contains. rewrite Hlc. unfold dict_mem.
  fold (pyget (SStr name) cols). rewrite Hmd. reflexivity.
Qed.

Lemma assemble_skip h tm before name column after acc :
  cleaned_column env h tm name column = Return None →
  assemble env h tm (before ++ (SStr name, column) :: after) acc
  = assemble env h tm (before ++ after) acc.
Proof.
  intros Hskip. revert acc.
  induction before as [|[k c] before IH]; intros acc.
  - cbn [app assemble]. rewrite Hskip. reflexivity.
  - rewrite <- !app_comm_cons. destruct k as [| | |n]; try reflexivity.
    cbn [assemble].
    destruct (cleaned_column env h tm n c) as [[[label c']|]|e];
      cbn [bind]; [|apply IH|reflexivity].
    destruct (DataFrame_setitem acc label c') as [acc'|e]; cbn [bind];
      [apply IH | reflexivity].
Qed.

Lemma assemble_raise h tm before name column after acc e :
  cleaned_column env h tm name column = Raise e →
  is_return (assemble env h tm before acc) = true →
  assemble env h tm (before ++ (SStr name, column) :: after) acc = Raise e.
Proof.
  intros Hraise. revert acc.
  induction before as [|[k c] before IH]; intros acc.
  - intros _. cbn [app assemble]. rewrite Hraise. reflexivity.
  - rewrite <- !app_comm_cons. destruct k as [| | |n]; try discriminate.
    cbn [assemble].
    destruct (cleaned_column env h tm n c) as [[[label c']|]|e'];
      cbn [bind]; [|apply IH|discriminate].
    destruct (DataFrame_setitem acc label c') as [acc'|e']; cbn [bind];
      [apply IH | discriminate].
Qed.

(** C7 (amended). A raw column that the table metadata does not list:
    under the treatment [drop] the cleaned table is the one obtained
    without that column; under the treatment [error], once the columns
    before it are cleaned, cleaning fails with the error that names the
    column (the table is not named). *)
Theorem unlisted_column_treatment before name column after tm h ts lc cols :
  (_get_table_settings env tm h).1 = Return ts →
  subscript (settled env tm h) tm (VStr "columns") = Return (VRef lc) →
  settled env tm h !! lc = Some cols →
  pyget (SStr (upper name)) cols = None →
  (subscript (settled env tm h) ts (VStr "missings")
     = Return (VStr "drop") →
   (_apply_metadata_to_table env
      (before ++ (SStr name, column) :: after) tm h).1
   = (_apply_metadata_to_table env (before ++ after) tm h).1)
  ∧ (subscript (settled env tm h) ts (VStr "missings")
       = Return (VStr "error") →
     is_return (_apply_metadata_to_table env before tm h).1 = true →
     (_apply_metadata_to_table env
        (before ++ (SStr name, column) :: after) tm h).1
     = Raise (ValueError (not_found name))).
Proof.
  intros Hts Hcols Hlc Hmd.
  pose proof (unlisted_lookup tm h (upper name) ts lc cols
                Hts Hcols Hlc Hmd) as Hlookup.
  rewrite !apply_metadata_to_table_assemble. split.
  - intros Hdrop. apply assemble_skip.
    unfold cleaned_column. rewrite Hlookup, Hdrop. reflexivity.
  - intros Herror Hbefore. apply assemble_raise; [|exact Hbefore].
    unfold cleaned_column. rewrite Hlookup, Herror. reflexivity.
Qed.
End Treatment.

Section DictElements.
Context {K N V : Type} `{EqDecision N} (norm : K → N).

Lemma elem_of_dict_set k v k0 v0 (d : list (K * V)) :
  NoDup (map norm (dict_keys d)) →
  (k, v) ∈ dict_set norm k0 v0 d →
  (norm k = norm k0 ∧ v = v0) ∨ (norm k ≠ norm k0 ∧ (k, v) ∈ d).
Proof.
  induction d as [|[k1 v1] d IH]; cbn [dict_set].
  - intros _ [= -> ->]%list_elem_of_singleton. left. auto.
  - unfold dict_keys. rewrite fmap_cons, map_cons. cbn [fst].
    intros [Hk1 Hd]%NoDup_cons.
    destruct (decide (norm k0 = norm k1)) as [E|E].
    + intros [[= -> ->]|Hin]%elem_of_cons; [left; auto|].
      right. split; [|right; exact Hin].
      intros Hk. apply Hk1. rewrite <- E, <- Hk.
      apply list_elem_of_fmap. exists k. split; [reflexivity|].
      apply list_elem_of_fmap. exists (k, v). auto.
    + intros [[= -> ->]|Hin]%elem_of_cons.
      * right. split; [congruence | left].
      * destruct (IH Hd Hin) as [?|[? ?]]; [left; assumption|].
        right. split; [assumption | right; assumption].
Qed.
End DictElements.

Section Origin.
Context (env : environment).

Lemma column_lookup_result h tm ts c md :
  column_lookup h tm ts c = Return md →
  is_dict md = true ∨ md = VStr "drop" ∨ md = VStr "error".
Proof.
  assert (Heq : ∀ v s, eq_str v s = true → v = VStr s).
  { intros [[| | |s']|] s; try discriminate. cbn [eq_str].
    intros ->%bool_decide_eq_true. reflexivity. }
  unfold column_lookup.
  destruct (subscript h tm (VStr "columns")) as [cm|e]; [|discriminate].
  cbn [bind]. destruct (negb (is_dict cm)); [discriminate|].
  destruct (contains h (VStr c) cm) as [[|]|e]; [| |discriminate];
    cbn [bind].
  - destruct (subscript h cm (VStr c)) as [x|e]; [|discriminate].
    cbn [bind].
    destruct (is_dict x) eqn:Hd; cbn [orb negb].
    + intros [= <-]. left. exact Hd.
    + destruct (eq_str x "drop") eqn:Hx; [|discriminate].
      intros [= <-]. right. left. apply Heq, Hx.
  - destruct (subscript h ts (VStr "missings")) as [x|e]; [|discriminate].
    cbn [bind].
    destruct (eq_str x "drop") eqn:Hx; cbn [orb negb].
    + intros [= <-]. right. left. apply Heq, Hx.
    + destruct (eq_str x "error") eqn:Hy; [|discriminate].
      intros [= <-]. right. right. apply Heq, Hy.
Qed.

Lemma get_column_metadata_result tm c h md :
  (_get_column_metadata env tm c h).1 = Return md →
  is_dict md = true ∨ md = VStr "drop" ∨ md = VStr "error".
Proof.
  rewrite get_column_metadata_unfold.
  destruct (_get_table_settings env tm h) as [[ts|e] h1]; [|discriminate].
  apply column_lookup_result.
Qed.

Lemma cleaned_column_Some h tm name column label c :
  cleaned_column env h tm name column = Return (Some (VScalar label, c)) →
  assigned env h tm name column label c.
Proof.
  unfold cleaned_column, assigned.
  destruct (_get_column_metadata env tm (upper name) h).1 as [md|e] eqn:Hmd;
    [|discriminate].
  cbn [bind].
  destruct (get_column_metadata_result _ _ _ _ Hmd) as [Hd|[->| ->]];
    [|discriminate..].
  destruct md as [?|l]; [discriminate|]. cbn [eq_str].
  destruct (_apply_metadata_to_column env h column (VRef l)) as [c'|e]
    eqn:Hc; [|discriminate].
  cbn [bind].
  destruct (subscript h (VRef l) (VStr "new_name")) as [nn|e] eqn:Hnn;
    [|discriminate].
  intros [= -> ->]. exists (VRef l), label. auto.
Qed.

Lemma assigned_cleaned_column h tm name column label c :
  assigned env h tm name column label c →
  ∃ new_name, cleaned_column env h tm name column
              = Return (Some (VScalar new_name, c))
              ∧ norm_key new_name = norm_key label.
Proof.
  intros (md & nn & Hmd & Hd & Hc & Hnn & Hnorm).
  exists nn. split; [|exact Hnorm]. unfold cleaned_column.
  rewrite Hmd. cbn [bind]. destruct md as [?|l]; [discriminate|].
  cbn [eq_str]. rewrite Hc. cbn [bind]. rewrite Hnn. reflexivity.
Qed.

Lemma assemble_origin h tm items acc cleaned :
  assemble env h tm items acc = Return cleaned →
  NoDup (map norm_key (dict_keys acc)) →
  NoDup (map norm_key (dict_keys cleaned))
  ∧ ∀ label c, (label, c) ∈ cleaned →
      (∃ before name column after,
          items = before ++ (SStr name, column) :: after
          ∧ assigned env h tm name column label c
          ∧ ∀ name' column' c', (SStr name', column') ∈ after →
              ¬ assigned env h tm name' column' label c')
      ∨ ((label, c) ∈ acc
         ∧ ∀ name' column' c', (SStr name', column') ∈ items →
             ¬ assigned env h tm name' column' label c').
Proof.
  revert acc. induction items as [|[k column] items IH]; intros acc.
  - intros [= <-] Hacc. split; [exact Hacc|].
    intros label c Hin. right. split; [exact Hin|].
    intros ? ? ? []%elem_of_nil.
  - destruct k as [| | |name]; try discriminate. cbn [assemble].
    destruct (cleaned_column env h tm name column) as [step|e] eqn:Hstep;
      [|discriminate].
    cbn [bind].
    assert (Hprepend : ∀ label c,
      (∃ before name0 column0 after,
          items = before ++ (SStr name0, column0) :: after
          ∧ assigned env h tm name0 column0 label c
          ∧ ∀ name' column' c', (SStr name', column') ∈ after →
              ¬ assigned env h tm name' column' label c') →
      ∃ before name0 column0 after,
          (SStr name, column) :: items
          = before ++ (SStr name0, column0) :: after
          ∧ assigned env h tm name0 column0 label c
          ∧ ∀ name' column' c', (SStr name', column') ∈ after →
              ¬ assigned env h tm name' column' label c').
    { intros label c (before & n0 & c0 & after & -> & Ha & Hafter).
      exists ((SStr name, column) :: before), n0, c0, after. auto. }
    destruct step as [[new_name c0]|].
    + destruct new_name as [k0|]; [|discriminate]. cbn [DataFrame_setitem bind].
      intros Hrun Hacc.
      destruct (IH _ Hrun (dict_set_NoDup norm_key k0 c0 acc Hacc))
        as [Hnodup Hall].
      split; [exact Hnodup|]. intros label c Hin.
      destruct (Hall label c Hin) as [Hleft|[Hacc' Hnone]].
      { left. apply Hprepend, Hleft. }
      apply (elem_of_dict_set norm_key) in Hacc' as [[Hk ->]|[Hk Hin']];
        [| |exact Hacc].
      * left. exists [], name, column, items. split; [reflexivity|].
        split; [|exact Hnone].
        apply cleaned_column_Some in Hstep
          as (md & nn & Hmd & Hd & Hc & Hnn & Hnorm).
        exists md, nn. repeat split; try assumption. congruence.
      * right. split; [exact Hin'|].
        intros name' column' c' [[= -> ->]|Hin'']%elem_of_cons;
          [|apply Hnone; exact Hin''].
        intros (nn & Hcc & Hnorm)%assigned_cleaned_column.
        rewrite Hstep in Hcc. injection Hcc as <- <-. congruence.
    + intros Hrun Hacc. destruct (IH _ Hrun Hacc) as [Hnodup Hall].
      split; [exact Hnodup|]. intros label c Hin.
      destruct (Hall label c Hin) as [Hleft|[Hacc' Hnone]].
      { left. apply Hprepend, Hleft. }
      right. split; [exact Hacc'|].
      intros name' column' c' [[= -> ->]|Hin'']%elem_of_cons;
        [|apply Hnone; exact Hin''].
      intros (nn & Hcc & Hnorm)%assigned_cleaned_column.
      rewrite Hstep in Hcc. discriminate.
Qed.

(** C8 (amended). Every column of the cleaned table holds the cleaned
    data of one raw column whose metadata is a dict and not a sentinel:
    the last raw column that was given its label. A raw column given the
    label of an earlier one replaces it; the labels of the cleaned table
    are pairwise different. *)
Theorem cleaned_column_origin table tm h cleaned :
  (_apply_metadata_to_table env table tm h).1 = Return cleaned →
  NoDup (map norm_key (dict_keys cleaned))
  ∧ ∀ label c, (label, c) ∈ cleaned →
      ∃ before name column after,
        table = before ++ (SStr name, column) :: after
        ∧ assigned env (settled env tm h) tm name column label c
        ∧ ∀ name' column' c', (SStr name', column') ∈ after →
            ¬ assigned env (settled env tm h) tm name' column' label c'.
Proof.
  rewrite apply_metadata_to_table_assemble. intros Hrun.
  destruct (assemble_origin _ _ _ _ _ Hrun) as [Hnodup Hall].
  { apply NoDup_nil_2. }
  split; [exact Hnodup|]. intros label c Hin.
  destruct (Hall label c Hin) as [Hleft|[[]%elem_of_nil _]].
  exact Hleft.
Qed.
End Origin.

(** ** Type coercion *)

Lemma mapM_ext {A B} (f : A → result B) (g : A → B) l :
  Forall (λ a, f a = Return (g a)) l → mapM f l = Return (map g l).
Proof.
  induction 1 as [|a l Ha _ IH]; [reflexivity|].
  cbn [mapM map]. rewrite Ha. cbn [bind]. rewrite IH. reflexivity.
Qed.

Lemma mapM_Forall {A B} (f : A → result B) (P : B → Prop) l l' :
  (∀ a b, f a = Return b → P b) → mapM f l = Return l' → Forall P l'.
Proof.
  intros Hf. revert l'. induction l as [|a l IH]; intros l'; cbn [mapM].
  - intros [= <-]. constructor.
  - destruct (f a) as [b|e] eqn:Hb; [|discriminate]. cbn [bind].
    destruct (mapM f l) as [bs|e]; [|discriminate]. cbn [bind].
    intros [= <-]. constructor; [eapply Hf, Hb | apply IH; reflexivity].
Qed.

Lemma str_method_cases f column :
  str_method f column = Raise AttributeError
  ∨ ∃ c, str_method f column = Return c
         ∧ length (values c) = length (values column).
Proof.
  unfold str_method. destruct (str_accessor_ok column); [right|left; auto].
  eexists. split; [reflexivity|]. cbn [values]. apply length_map.
Qed.

(** The sanitation step always returns, with a column of the same
    length. *)
Lemma general_cleaning_total column :
  ∃ cleaned, _general_cleaning column = Return cleaned
             ∧ length (values cleaned) = length (values column).
Proof.
  unfold _general_cleaning.
  destruct (is_numeric_dtype (dtype_of column)); [eauto|].
  destruct (str_method_cases (replace_char (chr 183) dot) column)
    as [->|(c0 & -> & H0)]; cbn [bind]; [eauto|].
  destruct (str_method_cases (rstrip dot) c0) as [->|(c1 & -> & H1)];
    [eauto|].
  destruct (str_method_cases (remove_chars chars_to_remove) c1)
    as [->|(c2 & -> & H2)]; [exists c1; split; [reflexivity|congruence]|].
  destruct (str_method_cases (remove_boundary_hyphens false) c2)
    as [->|(c3 & -> & H3)]; [exists c2; split; [reflexivity|congruence]|].
  eexists. split; [reflexivity|].
  unfold replace_regex_nan. cbv zeta. cbn [values]. rewrite length_map.
  congruence.
Qed.

Lemma eq_str_true v s : eq_str v s = true → v = VStr s.
Proof.
  destruct v as [[| | |s']|]; try discriminate. cbn [eq_str].
  intros ->%bool_decide_eq_true. reflexivity.
Qed.

Section Coercion.
Context (env : environment).

(** C2 (amended). A declared type that is none of the recognised names
    raises nothing: the coercion step returns a column of the length of
    the input whose values are all missing. *)
Theorem unrecognised_type_gives_missing h column md type :
  contains h (VStr "type") md = Return true →
  subscript h md (VStr "type") = Return type →
  Forall (λ name, eq_str type name = false) recognised_types →
  _apply_type_to_column env h column md
  = Return (mkSeries float64 (replicate (length (values column)) NA)).
Proof.
  intros Hin Htype Hnone.
  destruct (general_cleaning_total column) as (cleaned & Hclean & Hlen).
  unfold _apply_type_to_column. rewrite Hclean. cbn [bind].
  rewrite Hin. cbn [bind]. rewrite Htype. cbn [bind].
  unfold recognised_types in Hnone.
  repeat match goal with
         | H : Forall _ (_ :: _) |- _ => apply Forall_cons in H as [? H]
         end.
  unfold fixed_width.
  repeat match goal with
         | H : eq_str type _ = false |- _ => rewrite H; clear H
         end.
  cbn [orb]. unfold nan_like. rewrite <- Hlen. f_equal. f_equal.
  clear. induction (values cleaned) as [|c l IH]; [reflexivity|].
  cbn [map length replicate]. rewrite IH. reflexivity.
Qed.
End Coercion.

Lemma cast_int_cell parse lo hi c c' :
  cast_int parse lo hi c = Return c' → c' = NA ∨ ∃ z, c' = CInt z.
Proof.
  unfold cast_int. destruct c as [|b|z|q|s].
  - intros [= <-]. auto.
  - destruct (_ && _); [intros [= <-]; eauto | discriminate].
  - destruct (_ && _); [intros [= <-]; eauto | discriminate].
  - destruct (integral q); [|discriminate].
    destruct (_ && _); [intros [= <-]; eauto | discriminate].
  - destruct (parse s) as [[z|q]|]; try discriminate.
    destruct (_ && _); [intros [= <-]; eauto | discriminate].
Qed.

Lemma distinct_Forall (P : cell → Prop) l :
  Forall P l → Forall (λ c, P c ∧ is_na c = false) (distinct l).
Proof.
  induction 1 as [|c l Hc _ IH]; cbn [distinct]; [constructor|].
  destruct (is_na c) eqn:Hna; cbn [orb]; [exact IH|].
  destruct (existsb (cell_eqb c) l); [exact IH|].
  constructor; [split; assumption | exact IH].
Qed.

Lemma Qeq_bool_inject z z' :
  Qeq_bool (inject_Z z) (inject_Z z') = bool_decide (z = z').
Proof.
  unfold Qeq_bool, inject_Z. cbn [Qnum Qden].
  rewrite !Z.mul_1_r.
  destruct (Z.eqb_spec z z') as [->|Hne].
  - rewrite bool_decide_eq_true_2; reflexivity.
  - rewrite bool_decide_eq_false_2; [reflexivity | exact Hne].
Qed.

Lemma Qeq_bool_integral q z' :
  Qeq_bool q (inject_Z z')
  = match integral q with
    | Some z => bool_decide (z = z')
    | None => false
    end.
Proof.
  unfold integral. cbv zeta.
  destruct (Qeq_bool q (inject_Z z')) eqn:E.
  - apply Qeq_bool_iff, Qred_complete in E.
    assert (Qred (inject_Z z') = inject_Z z') as Hz.
    { unfold Qred, inject_Z.
      generalize (Z.ggcd_gcd z' 1) (Z.ggcd_correct_divisors z' 1).
      destruct (Z.ggcd z' 1) as (g, (aa, bb)). cbn [fst snd].
      rewrite Z.gcd_1_r. intros -> [Ha Hb].
      rewrite Z.mul_1_l in Ha, Hb. subst aa bb. reflexivity. }
    rewrite Hz in E. rewrite E. cbn [Qden Qnum inject_Z].
    rewrite bool_decide_eq_true_2 by reflexivity.
    rewrite bool_decide_eq_true_2 by reflexivity. reflexivity.
  - destruct (bool_decide (Qden (Qred q) = 1%positive)) eqn:Hden;
      [|reflexivity].
    apply bool_decide_eq_true in Hden.
    symmetry. apply bool_decide_eq_false_2. intros Hnum.
    assert (q == inject_Z z') as Heq.
    { rewrite <- (Qred_correct q). destruct (Qred q) as [n d].
      cbn in Hden, Hnum. subst. reflexivity. }
    apply Qeq_bool_iff in Heq. congruence.
Qed.

Lemma cell_eqb_key c k0 :
  cell_eqb c (cell_of_scalar k0)
  = match key_of_cell c with
    | Some k => bool_decide (norm_key k = norm_key k0)
    | None => false
    end.
Proof.
  assert (Hint : ∀ z z', bool_decide (z = z')
                         = bool_decide (SInt z = SInt z')).
  { intros. apply bool_decide_ext.
    split; [intros ->; reflexivity | intros [= ->]; reflexivity]. }
  destruct c as [|b|z|q|s], k0 as [|b0|z0|s0];
    cbn [cell_of_scalar cell_eqb numeric_value norm_key key_of_cell];
    try reflexivity;
    try (rewrite Qeq_bool_inject; apply Hint);
    try (symmetry; apply bool_decide_eq_false_2; discriminate).
  - destruct (integral q); reflexivity.
  - rewrite Qeq_bool_integral. destruct (integral q); cbn; [apply Hint|reflexivity].
  - rewrite Qeq_bool_integral. destruct (integral q); cbn; [apply Hint|reflexivity].
  - destruct (integral q); cbn; [|reflexivity].
    symmetry; apply bool_decide_eq_false_2; discriminate.
  - apply bool_decide_ext.
    split; [intros ->; reflexivity | intros [= ->]; reflexivity].
Qed.

(** [mapping.get(item, item)] is the dict lookup under the key the item
    is equal to. *)
Lemma renamed_key mapping c :
  renamed mapping c
  = match key_of_cell c with
    | Some k =>
        match pyget k mapping with
        | Some v => inl v
        | None => inr c
        end
    | None => inr c
    end.
Proof.
  unfold renamed, pyget.
  induction mapping as [|[k0 v] mapping IH].
  - destruct (key_of_cell c); reflexivity.
  - cbn [List.find dict_get fst]. rewrite cell_eqb_key.
    destruct (key_of_cell c) as [k|]; [|exact IH].
    destruct (decide (norm_key k = norm_key k0)) as [E|E].
    + rewrite bool_decide_eq_true_2 by exact E. reflexivity.
    + rewrite bool_decide_eq_false_2 by exact E. exact IH.
Qed.

Lemma new_category_relabel mapping c :
  Forall (λ e, ∃ s, e.2 = VStr s) mapping →
  new_category mapping c = Return (relabel mapping c).
Proof.
  intros Hlabels. unfold new_category, relabel.
  rewrite renamed_key.
  destruct (key_of_cell c) as [k|]; [|reflexivity].
  destruct (pyget k mapping) as [v|] eqn:Hv; [|reflexivity].
  apply dict_get_Some_elem in Hv as (k0 & Hin & _).
  rewrite Forall_forall in Hlabels.
  destruct (Hlabels _ Hin) as [s Hs]. cbn [snd] in Hs. subst v.
  reflexivity.
Qed.

Section Categories.
Context (env : environment).

(** C3 (amended). Under the declared type [category] with a map to
    labels that are strings, the sanitised column is cast to nullable
    32-bit integer codes when the first key of the map is an integer,
    and is taken as it is otherwise. When that cast succeeds and the
    labels given to the distinct values are pairwise different, a value
    equal to a key of the map is relabelled to its label, a value equal
    to no key is kept as it is (it does not become missing), and a
    missing value stays missing. *)
Theorem category_relabels_codes h column md lm mapping first rest cleaned
    codes :
  contains h (VStr "type") md = Return true →
  subscript h md (VStr "type") = Return (VStr "category") →
  subscript h md (VStr "categories") = Return (VRef lm) →
  h !! lm = Some mapping →
  dict_keys mapping = first :: rest →
  Forall (λ e, ∃ s, e.2 = VStr s) mapping →
  _general_cleaning column = Return cleaned →
  (if is_int first then astype_Int32 env cleaned else Return cleaned)
    = Return codes →
  unique (map (relabel mapping) (distinct (values codes))) = true →
  _apply_type_to_column env h column md
  = Return (mkSeries category (map (relabel mapping) (values codes))).
Proof.
  intros Hin Htype Hcats Hlm Hkeys Hlabels Hclean Hcodes Huniq.
  unfold _apply_type_to_column. rewrite Hclean.
  cbn [bind]. rewrite Hin. cbn [bind]. rewrite Htype. cbn [bind].
  change (eq_str (VStr "category") "string") with false.
  change (eq_str (VStr "category") "boolean") with false.
  change (eq_str (VStr "category") "unsigned") with false.
  change (eq_str (VStr "category") "integer") with false.
  change (eq_str (VStr "category") "float") with false.
  change (fixed_width (VStr "category")) with (@None (dtype * Z)).
  change (eq_str (VStr "category") "category") with true.
  cbn [orb]. rewrite Hcats. cbn [bind]. rewrite Hlm, Hkeys.
  assert (Hrename :
    rename_categories mapping (astype_category codes)
    = Return (mkSeries category (map (relabel mapping) (values codes)))).
  { unfold rename_categories, astype_category. cbn [values].
    rewrite (mapM_ext _ (relabel mapping))
      by (apply Forall_forall; intros;
          apply new_category_relabel, Hlabels).
    cbn [bind]. rewrite Huniq.
    rewrite (mapM_ext _ (relabel mapping)); [reflexivity|].
    apply Forall_forall. intros c _.
    destruct (is_na c) eqn:Hna; [|apply new_category_relabel, Hlabels].
    destruct c; try discriminate. reflexivity. }
  destruct (is_int first).
  - rewrite Hcodes. cbn [bind]. exact Hrename.
  - injection Hcodes as ->. exact Hrename.
Qed.
End Categories.

Lemma parse_cells_unparsable parse l :
  ∀ first i s, l !! i = Some (CStr s) → parse s = None →
  ∃ j s', parse_cells parse first l
          = Raise (ValueError (unparsable s' (first + j)))
          ∧ l !! j = Some (CStr s') ∧ parse s' = None.
Proof.
  induction l as [|c l IH]; intros first i s Hi Hs; [discriminate|].
  cbn [parse_cells].
  assert (Hhere : ∀ s0, c = CStr s0 → parse s0 = None →
    ∃ j s', (let* c' := Raise (ValueError (unparsable s0 first)) in
             let* cs := parse_cells parse (S first) l in
             Return (c' :: cs))
            = Raise (ValueError (unparsable s' (first + j)))
            ∧ (c :: l) !! j = Some (CStr s') ∧ parse s' = None).
  { intros s0 -> Hs0. exists 0%nat, s0. rewrite Nat.add_0_r. auto. }
  assert (Hthere : ∀ c', i ≠ 0%nat →
    ∃ j s', (let* c' := Return c' in
             let* cs := parse_cells parse (S first) l in
             Return (c' :: cs))
            = Raise (ValueError (unparsable s' (first + j)))
            ∧ (c :: l) !! j = Some (CStr s') ∧ parse s' = None).
  { intros c' Hne. destruct i as [|i]; [congruence|].
    destruct (IH (S first) i s Hi Hs) as (j & s' & Hrun & Hj & Hs').
    exists (S j), s'. cbn [bind]. rewrite Hrun. cbn [bind].
    rewrite Nat.add_succ_r. auto. }
  destruct c as [|b|z|q|s0]; try (apply Hthere; intros ->; discriminate).
  destruct (parse s0) as [n|] eqn:Hs0; [|apply (Hhere s0); auto].
  apply Hthere. intros ->. cbn in Hi. congruence.
Qed.

Section Numeric.
Context (env : environment).

(** C4 (amended). Under a numeric declared type, text that is still
    there after sanitation and that the parser rejects makes the
    coercion raise: the error names the first such text and its
    position, and nothing is coerced to missing. *)
Theorem unparsable_text_raises h column md type cleaned i s :
  contains h (VStr "type") md = Return true →
  subscript h md (VStr "type") = Return type →
  eq_str type "unsigned" || eq_str type "integer" || eq_str type "float"
    = true →
  _general_cleaning column = Return cleaned →
  is_numeric_dtype (dtype_of cleaned) = false →
  values cleaned !! i = Some (CStr s) →
  parse_number env s = None →
  ∃ j s', _apply_type_to_column env h column md
          = Raise (ValueError (unparsable s' j))
          ∧ values cleaned !! j = Some (CStr s')
          ∧ parse_number env s' = None.
Proof.
  intros Hin Htype Hnum Hclean Hobj Hi Hs.
  destruct (parse_cells_unparsable (parse_number env) (values cleaned)
              0%nat i s Hi Hs) as (j & s' & Hrun & Hj & Hs').
  exists j, s'. split; [|auto].
  unfold _apply_type_to_column. rewrite Hclean. cbn [bind].
  rewrite Hin. cbn [bind]. rewrite Htype. cbn [bind].
  assert (Hno : eq_str type "string" = false ∧ eq_str type "boolean" = false).
  { apply orb_true_iff in Hnum as [Hnum|Hnum];
      [apply orb_true_iff in Hnum as [Hnum|Hnum]|];
      apply eq_str_true in Hnum; subst type; split; reflexivity. }
  destruct Hno as [-> ->]. rewrite Hnum.
  unfold to_numeric. rewrite Hobj, Hrun. reflexivity.
Qed.
End Numeric.

(** ** Resolution builds new dicts and leaves the registry as it is *)

Section Resolution.
Context (env : environment) (h0 : heap).

Lemma preserved_ret {A} (good : A → Prop) a : good a → preserved h0 good (ret a).
Proof. intros Ha h r h' Hsub Hcl [= <- <-]. split_and!; [done..|]. by intros ? [= <-]. Qed.

Lemma preserved_raise {A} (good : A → Prop) e : preserved h0 good (raise e).
Proof. intros h r h' Hsub Hcl [= <- <-]. split_and!; [done..|]. by intros ? [=]. Qed.

Lemma preserved_bind {A B} (good : A → Prop) (good' : B → Prop) m k :
  preserved h0 good m → (∀ a, good a → preserved h0 good' (k a)) →
  preserved h0 good' (bindM m k).
Proof.
  intros Hm Hk h r h' Hsub Hcl. unfold bindM.
  destruct (m h) as [[a|e] h1] eqn:E.
  - destruct (Hm _ _ _ Hsub Hcl E) as (Hsub1 & Hcl1 & Ha).
    apply Hk; auto.
  - destruct (Hm _ _ _ Hsub Hcl E) as (Hsub1 & Hcl1 & Ha).
    intros [= <- <-]. split_and!; [done..|]. by intros ? [=].
Qed.

Lemma preserved_alloc d :
  Forall (λ e, own h0 e.2) d → preserved h0 (own h0) (alloc d).
Proof.
  intros Hd h r h' Hsub Hcl. unfold alloc. intros [= <- <-].
  assert (Hfresh : h !! fresh (dom h) = None)
    by (apply not_elem_of_dom, is_fresh).
  assert (Hfresh0 : h0 !! fresh (dom h) = None).
  { destruct (h0 !! fresh (dom h)) as [x|] eqn:E; [|done].
    rewrite (lookup_weaken _ _ _ _ E Hsub) in Hfresh. done. }
  split_and!.
  - by apply insert_subseteq_r.
  - intros l d' Hl. destruct (decide (l = fresh (dom h))) as [->|Hne].
    + rewrite lookup_insert_eq. by intros [= <-].
    + rewrite lookup_insert_ne by done. by apply Hcl.
  - by intros ? [= <-].
Qed.

Lemma preserved_mapM_items f d :
  (∀ v, preserved h0 (own h0) (f v)) →
  preserved h0 (λ d', Forall (λ e, own h0 e.2) d') (mapM_items f d).
Proof.
  intros Hf. induction d as [|[k v] d IH]; cbn [mapM_items].
  - by apply preserved_ret.
  - eapply preserved_bind; [apply Hf|]. intros v' Hv'.
    eapply preserved_bind; [apply IH|]. intros rest Hrest.
    apply preserved_ret. by constructor.
Qed.

Lemma preserved_resolve depth v year :
  preserved h0 (own h0) (resolve_metadata env depth v year).
Proof.
  revert v. induction depth as [|depth IH]; intros v;
    cbn [resolve_metadata].
  - apply preserved_raise.
  - destruct v as [x|l]; [by apply preserved_ret|].
    intros h r h' Hsub Hcl.
    destruct (h !! l) as [d|] eqn:Hl.
    2:{ intros [= <- <-]. split_and!; [done..|]. by intros ? [=]. }
    destruct (year_keyed env d).
    + destruct year as [[| |y|]|];
        try (intros [= <- <-]; split_and!; [done..|]; by intros ? [=]).
      destruct (select_branch env d y) as [branch|].
      * by apply IH.
      * intros [= <- <-]. split_and!; [done..|]. by intros ? [=].
    + revert h r h' Hsub Hcl Hl.
      assert (Hp : preserved h0 (own h0)
                (let+ resolved :=
                   mapM_items (λ v, resolve_metadata env depth v year) d in
                 alloc resolved)).
      { eapply preserved_bind; [apply (preserved_mapM_items _ d), IH|].
        intros d' Hd'. by apply preserved_alloc. }
      intros h r h' Hsub Hcl _. by apply Hp.
Qed.

Lemma preserved_read {A} (f : heap → result A) :
  preserved h0 (λ _, True) (read f).
Proof. intros h r h' Hsub Hcl [= <- <-]. done. Qed.
End Resolution.

Section Idempotence.
Context (env : environment).

(** The settings of a table built by the resolution are a new dict: the
    defaults are written into it and nowhere else. *)
Lemma settled_extends h0 tm h :
  own h0 tm → h0 ⊆ h → closed h0 h → h0 ⊆ settled env tm h.
Proof.
  intros Hown Hsub Hcl. unfold settled.
  destruct (get_table_settings_frame env tm h)
    as [-> | (ld & ls & d & s & Hdflt & Hts & Hne & Hd & Hs)]; [done|].
  rewrite (get_table_settings_dicts env tm h ld ls d s) by assumption.
  cbn [snd]. apply insert_subseteq_r; [|done].
  destruct tm as [x|ltm]; [destruct x as [| | |x]; discriminate|].
  cbn [own] in Hown. unfold subscript in Hts.
  destruct (h !! ltm) as [dtm|] eqn:Hltm; [|discriminate].
  destruct (pyget (SStr "settings") dtm) as [v|] eqn:Hv; [|discriminate].
  injection Hts as ->.
  apply dict_get_Some_elem in Hv as (k0 & Hin & _).
  pose proof (Hcl _ _ Hown Hltm) as Hvalues.
  rewrite Forall_forall in Hvalues. exact (Hvalues _ Hin).
Qed.

Lemma load_raw_data_preserved h0 year table_name :
  preserved h0 (λ _, True) (load_raw_data env year table_name).
Proof.
  unfold load_raw_data.
  eapply preserved_bind; [apply preserved_read|]. intros versioned _.
  eapply preserved_bind; [apply preserved_resolve|]. intros file_code _.
  destruct file_code as [[| | |]|];
    first [apply preserved_raise | apply preserved_read].
Qed.

Lemma kept_bind {A B} h0 (good : A → Prop) (m : M A) (k : A → M B) :
  preserved h0 good m → (∀ a, good a → kept h0 (k a)) → kept h0 (bindM m k).
Proof.
  intros Hm Hk h r h' Hsub Hcl. unfold bindM.
  destruct (m h) as [[a|e] h1] eqn:E;
    destruct (Hm _ _ _ Hsub Hcl E) as (Hsub1 & Hcl1 & Ha).
  - apply Hk; auto.
  - intros [= <- <-]. exact Hsub1.
Qed.

Lemma apply_metadata_to_table_kept h0 table tm :
  own h0 tm → kept h0 (_apply_metadata_to_table env table tm).
Proof.
  intros Hown h r h' Hsub Hcl Hrun. unfold _apply_metadata_to_table in Hrun.
  destruct (clean_columns_heap env tm table [] h) as [E|E];
    rewrite Hrun in E; cbn [snd] in E; subst h'; [done|].
  apply settled_extends; auto.
Qed.

(** A call of [open_and_clean_table] changes no object that was there
    before it: what it writes, it writes into the dicts it has built. *)
Lemma open_and_clean_table_kept year table_name h :
  h ⊆ (open_and_clean_table env year table_name h).2.
Proof.
  assert (Hkept : kept h (open_and_clean_table env year table_name)).
  { unfold open_and_clean_table.
    eapply kept_bind; [apply load_raw_data_preserved|]. intros table _.
    eapply kept_bind; [apply preserved_read|]. intros versioned _.
    eapply kept_bind; [apply preserved_resolve|]. intros tm Hown.
    apply apply_metadata_to_table_kept, Hown. }
  destruct (open_and_clean_table env year table_name h) as [r h'] eqn:E.
  eapply Hkept; [reflexivity| |exact E].
  intros l d Hnone Hsome. congruence.
Qed.

(** Applying one table metadata object to a raw table twice in
    succession yields the same table, although the first run may have
    written the default settings into it. *)
Lemma apply_metadata_to_table_twice table tm h :
  (_apply_metadata_to_table env table tm
     (_apply_metadata_to_table env table tm h).2).1
  = (_apply_metadata_to_table env table tm h).1.
Proof.
  rewrite !apply_metadata_to_table_assemble.
  unfold _apply_metadata_to_table.
  destruct (clean_columns_heap env tm table [] h) as [->| ->];
    [reflexivity|].
  rewrite settled_settled. reflexivity.
Qed.

End Idempotence.

(** ** Successive runs: the same structure at other addresses *)

Lemma alike_mono φ φ' v v' : φ ⊆ φ' → alike φ v v' → alike φ' v v'.
Proof.
  intros Hsub. destruct v as [k|l], v' as [k'|l']; cbn [alike]; try done.
  intros Hl. eapply lookup_weaken; eassumption.
Qed.

Lemma items_alike_mono φ φ' d d' :
  φ ⊆ φ' → items_alike φ d d' → items_alike φ' d d'.
Proof.
  intros Hsub Hd. eapply Forall2_impl; [exact Hd|]. intros e e' [? ?].
  split; [done | by eapply alike_mono].
Qed.

Lemma alike_scalar φ k v' : alike φ (VScalar k) v' → v' = VScalar k.
Proof. destruct v' as [k'|l']; cbn [alike]; [by intros -> | done]. Qed.

Lemma alike_ref φ l v' : alike φ (VRef l) v' → ∃ l', v' = VRef l' ∧ φ !! l = Some l'.
Proof. destruct v' as [k'|l']; cbn [alike]; [done | eauto]. Qed.

Lemma items_alike_keys φ d d' : items_alike φ d d' → dict_keys d = dict_keys d'.
Proof.
  unfold dict_keys. induction 1 as [|e e' d d' [Hk _] _ IH]; [done|].
  cbn. by rewrite Hk, IH.
Qed.

Lemma pyget_alike φ k d d' :
  items_alike φ d d' →
  match pyget k d, pyget k d' with
  | Some v, Some v' => alike φ v v'
  | None, None => True
  | _, _ => False
  end.
Proof.
  unfold pyget. induction 1 as [|[k0 v] [k0' v'] d d' [Hk Hv] _ IH]; [done|].
  cbn [fst snd] in Hk, Hv. subst k0'. cbn [dict_get].
  destruct (decide (norm_key k = norm_key k0)); [exact Hv | exact IH].
Qed.

Lemma dict_mem_alike φ k d d' :
  items_alike φ d d' → dict_mem norm_key k d = dict_mem norm_key k d'.
Proof.
  intros Hd. pose proof (pyget_alike φ k d d' Hd) as H.
  unfold dict_mem, pyget in *.
  destruct (dict_get norm_key k d), (dict_get norm_key k d'); done.
Qed.

Lemma pyset_alike φ k v v' d d' :
  items_alike φ d d' → alike φ v v' →
  items_alike φ (pyset k v d) (pyset k v' d').
Proof.
  intros Hd Hv. unfold pyset.
  induction Hd as [|[k0 w] [k0' w'] d d' [Hk Hw] Hd IH]; cbn [dict_set].
  - constructor; [split; [reflexivity | exact Hv] | constructor].
  - cbn [fst snd] in Hk, Hw. subst k0'.
    destruct (decide (norm_key k = norm_key k0)).
    + constructor; [split; [reflexivity | exact Hv] | exact Hd].
    + constructor; [split; [reflexivity | exact Hw] | exact IH].
Qed.

Lemma paired_lookup φ g g' l l' :
  paired φ g g' → φ !! l = Some l' →
  ∃ d d', g !! l = Some d ∧ g' !! l' = Some d' ∧ items_alike φ d d'.
Proof. intros [_ H]. apply H. Qed.

Lemma eq_str_alike φ v v' s : alike φ v v' → eq_str v s = eq_str v' s.
Proof.
  destruct v as [k|l], v' as [k'|l']; cbn [alike]; try done.
  by intros ->.
Qed.

Lemma is_dict_alike φ v v' : alike φ v v' → is_dict v = is_dict v'.
Proof. destruct v as [k|l], v' as [k'|l']; cbn [alike]; done. Qed.

Lemma py_str_alike φ v v' : alike φ v v' → py_str v = py_str v'.
Proof.
  destruct v as [k|l], v' as [k'|l']; cbn [alike]; try done.
  by intros ->.
Qed.

Lemma str_index_alike φ s i :
  outcome_alike (alike φ) (str_index s i) (str_index s i).
Proof.
  unfold str_index. destruct (_ && _); [|done].
  destruct (String.get _ s); done.
Qed.

Lemma subscript_alike φ g g' obj obj' key key' :
  paired φ g g' → alike φ obj obj' → alike φ key key' →
  outcome_alike (alike φ) (subscript g obj key) (subscript g' obj' key').
Proof.
  intros Hp Hobj Hkey. destruct obj as [x|l].
  - apply alike_scalar in Hobj as ->.
    destruct key as [k|lk].
    + apply alike_scalar in Hkey as ->.
      destruct x as [| | |s]; try done.
      destruct k as [|b|i|t]; cbn [subscript outcome_alike]; try done.
      * apply str_index_alike.
      * apply str_index_alike.
    + apply alike_ref in Hkey as (lk' & -> & _).
      destruct x; done.
  - apply alike_ref in Hobj as (l' & -> & Hl).
    destruct (paired_lookup _ _ _ _ _ Hp Hl) as (d & d' & Hd & Hd' & Hitems).
    unfold subscript. rewrite Hd, Hd'.
    destruct key as [k|lk].
    + apply alike_scalar in Hkey as ->.
      pose proof (pyget_alike φ k d d' Hitems) as H.
      destruct (pyget k d), (pyget k d'); done.
    + apply alike_ref in Hkey as (lk' & -> & _). done.
Qed.

Lemma contains_alike φ g g' key key' obj obj' :
  paired φ g g' → alike φ key key' → alike φ obj obj' →
  contains g key obj = contains g' key' obj'.
Proof.
  intros Hp Hkey Hobj. destruct obj as [x|l].
  - apply alike_scalar in Hobj as ->.
    destruct key as [k|lk].
    + by apply alike_scalar in Hkey as ->.
    + apply alike_ref in Hkey as (lk' & -> & _). by destruct x.
  - apply alike_ref in Hobj as (l' & -> & Hl).
    destruct (paired_lookup _ _ _ _ _ Hp Hl) as (d & d' & Hd & Hd' & Hitems).
    unfold contains. rewrite Hd, Hd'.
    destruct key as [k|lk].
    + apply alike_scalar in Hkey as ->.
      by rewrite (dict_mem_alike φ k d d' Hitems).
    + by apply alike_ref in Hkey as (lk' & -> & _).
Qed.

Lemma iterate_alike φ g g' obj obj' :
  paired φ g g' → alike φ obj obj' → iterate g obj = iterate g' obj'.
Proof.
  intros Hp Hobj. destruct obj as [x|l].
  - by apply alike_scalar in Hobj as ->.
  - apply alike_ref in Hobj as (l' & -> & Hl).
    destruct (paired_lookup _ _ _ _ _ Hp Hl) as (d & d' & Hd & Hd' & Hitems).
    unfold iterate. rewrite Hd, Hd'.
    by rewrite (items_alike_keys φ d d' Hitems).
Qed.

Section Related.
Context (φ0 : gmap loc loc).

Lemma related_ret {A} (R : gmap loc loc → A → A → Prop) a a' :
  (∀ φ, φ0 ⊆ φ → R φ a a') → related φ0 R (ret a) (ret a').
Proof. intros Ha φ g g' Hsub Hp. exists φ. split_and!; [done..|]. by apply Ha. Qed.

Lemma related_raise {A} (R : gmap loc loc → A → A → Prop) e :
  related φ0 R (raise e) (raise e).
Proof. intros φ g g' Hsub Hp. exists φ. done. Qed.

Lemma related_read {A} (R : gmap loc loc → A → A → Prop) f f' :
  (∀ φ g g', φ0 ⊆ φ → paired φ g g' → outcome_alike (R φ) (f g) (f' g')) →
  related φ0 R (read f) (read f').
Proof.
  intros Hf φ g g' Hsub Hp. exists φ. split_and!; [done..|]. by apply Hf.
Qed.
End Related.

Lemma related_bind {A B} φ0 (R : gmap loc loc → A → A → Prop)
    (S : gmap loc loc → B → B → Prop) m m' k k' :
  related φ0 R m m' →
  (∀ φ1 a a', φ0 ⊆ φ1 → R φ1 a a' → related φ1 S (k a) (k' a')) →
  related φ0 S (bindM m k) (bindM m' k').
Proof.
  intros Hm Hk φ g g' Hsub Hp. unfold bindM.
  destruct (Hm φ g g' Hsub Hp) as (φ1 & Hsub1 & Hp1 & Hr).
  destruct (m g) as [[a|e] g1], (m' g') as [[a'|e'] g1'];
    cbn [fst snd outcome_alike] in *; try done.
  - destruct (Hk φ1 a a' (transitivity Hsub Hsub1) Hr φ1 g1 g1')
      as (φ2 & Hsub2 & Hp2 & Hr2); [done..|].
    exists φ2. split_and!; [by etransitivity | done..].
  - exists φ1. done.
Qed.

Lemma related_weaken {A} φ0 φ1 (R : gmap loc loc → A → A → Prop) m m' :
  φ0 ⊆ φ1 → related φ0 R m m' → related φ1 R m m'.
Proof.
  intros Hsub Hm φ g g' Hsub' Hp. apply Hm; [by etransitivity | done].
Qed.

Lemma setitem_related φ0 obj obj' key v v' :
  alike φ0 obj obj' → alike φ0 v v' →
  related φ0 (λ _ _ _, True) (setitem obj key v) (setitem obj' key v').
Proof.
  intros Hobj Hv φ g g' Hsub Hp. exists φ. split; [done|].
  apply (alike_mono _ _ _ _ Hsub) in Hobj, Hv.
  destruct obj as [x|l].
  - apply alike_scalar in Hobj as ->. done.
  - apply alike_ref in Hobj as (l' & -> & Hl).
    destruct (paired_lookup _ _ _ _ _ Hp Hl) as (d & d' & Hd & Hd' & Hitems).
    unfold setitem. rewrite Hd, Hd'. cbn [fst snd outcome_alike].
    split; [|done]. destruct Hp as [Hinj Hdicts]. split; [exact Hinj|].
    intros a a' Ha.
    destruct (decide (a = l)) as [->|Hne].
    + assert (a' = l') as -> by congruence.
      rewrite !lookup_insert_eq. eexists _, _. split_and!; [done..|].
      by apply pyset_alike.
    + assert (a' ≠ l') by (intros ->; apply Hne; eapply Hinj; eassumption).
      rewrite !lookup_insert_ne by done. by apply Hdicts.
Qed.

Lemma alloc_related φ0 d d' :
  items_alike φ0 d d' → related φ0 alike (alloc d) (alloc d').
Proof.
  intros Hd φ g g' Hsub [Hinj Hdicts]. unfold alloc. cbn [fst snd].
  assert (Hl : g !! fresh (dom g) = None) by apply not_elem_of_dom, is_fresh.
  assert (Hl' : g' !! fresh (dom g') = None)
    by apply not_elem_of_dom, is_fresh.
  generalize dependent (fresh (dom g')). intros l' Hl'.
  generalize dependent (fresh (dom g)). intros l Hl.
  assert (Hφl : φ !! l = None).
  { destruct (φ !! l) as [x|] eqn:E; [|done].
    destruct (Hdicts _ _ E) as (? & ? & ? & _). congruence. }
  assert (Hφl' : ∀ a, φ !! a ≠ Some l').
  { intros a E. destruct (Hdicts _ _ E) as (? & ? & _ & ? & _). congruence. }
  exists (<[l := l']> φ).
  assert (Hext : φ ⊆ <[l := l']> φ) by by apply insert_subseteq.
  split_and!; [done| |cbn; apply lookup_insert_eq].
  split.
  - intros a1 a2 a'. rewrite !lookup_insert_Some.
    intros [[-> <-]|[? E1]] [[-> E2]|[? E2]]; try done.
    + by destruct (Hφl' a2).
    + subst a'. by destruct (Hφl' a1).
    + by eapply Hinj.
  - intros a a'. rewrite lookup_insert_Some.
    intros [[-> <-]|[Hne E]].
    + rewrite !lookup_insert_eq. eexists _, _. split_and!; [done..|].
      eapply items_alike_mono; [|exact Hd]. by etransitivity.
    + assert (a' ≠ l') by (intros ->; by destruct (Hφl' a)).
      rewrite !lookup_insert_ne by done.
      destruct (Hdicts _ _ E) as (da & da' & ? & ? & Hitems).
      eexists _, _. split_and!; [done..|].
      by eapply items_alike_mono.
Qed.

Section Resolving.
Context (env : environment).

Lemma year_keyed_alike φ d d' :
  items_alike φ d d' → year_keyed env d = year_keyed env d'.
Proof.
  intros Hd. unfold year_keyed.
  destruct Hd as [|e e' d d' [Hk _] Hd]; [done|].
  cbn [forallb]. rewrite Hk. f_equal.
  induction Hd as [|x x' d d' [Hx _] _ IH]; [done|].
  cbn [forallb]. by rewrite Hx, IH.
Qed.

Lemma find_alike φ (p : scalar → bool) d d' :
  items_alike φ d d' →
  match List.find (λ e, p e.1) d, List.find (λ e, p e.1) d' with
  | Some e, Some e' => alike φ e.2 e'.2
  | None, None => True
  | _, _ => False
  end.
Proof.
  induction 1 as [|e e' d d' [Hk Hv] _ IH]; [done|].
  cbn [List.find]. rewrite Hk. destruct (p e'.1); [exact Hv | exact IH].
Qed.

Lemma select_branch_alike φ d d' y :
  items_alike φ d d' →
  match select_branch env d y, select_branch env d' y with
  | Some v, Some v' => alike φ v v'
  | None, None => True
  | _, _ => False
  end.
Proof.
  intros Hd. unfold select_branch.
  pose proof (find_alike φ (λ k, in_range y (year_range_of_key env k))
                d d' Hd) as H1.
  pose proof (find_alike φ (λ k, is_fallback (year_range_of_key env k))
                d d' Hd) as H2.
  cbn beta in H1, H2.
  destruct (List.find _ d), (List.find _ d'); try done.
  destruct (List.find _ d), (List.find _ d'); done.
Qed.

Lemma mapM_items_related φ0 f f' d d' :
  (∀ φ v v', φ0 ⊆ φ → alike φ v v' → related φ alike (f v) (f' v')) →
  items_alike φ0 d d' →
  related φ0 items_alike (mapM_items f d) (mapM_items f' d').
Proof.
  intros Hf Hd. revert φ0 d' Hf Hd.
  induction d as [|[k v] d IH]; intros φ0 d0 Hf Hd;
    inversion Hd as [|? [k' v'] ? d' [Hk Hv] Hd']; subst; cbn [mapM_items].
  - apply related_ret. constructor.
  - cbn [fst snd] in Hk, Hv. subst k'.
    eapply related_bind; [by apply Hf|]. intros φ1 w w' Hsub1 Hw.
    eapply related_bind.
    + apply IH.
      * intros φ x x' Hsub Hx. apply Hf; [by etransitivity | done].
      * by eapply items_alike_mono.
    + intros φ2 rest rest' Hsub2 Hrest. apply related_ret.
      intros φ Hsub. constructor.
      * split; [done|]. eapply alike_mono; [|exact Hw].
        by etransitivity.
      * by eapply items_alike_mono.
Qed.

Lemma resolve_related depth φ0 v v' year year' :
  alike φ0 v v' → alike φ0 year year' →
  related φ0 alike (resolve_metadata env depth v year)
                   (resolve_metadata env depth v' year').
Proof.
  revert φ0 v v'. induction depth as [|depth IH]; intros φ0 v v' Hv Hyear;
    cbn [resolve_metadata].
  - apply related_raise.
  - destruct v as [x|l].
    { apply alike_scalar in Hv as ->. by apply related_ret. }
    apply alike_ref in Hv as (l' & -> & Hl).
    intros φ g g' Hsub Hp.
    destruct (paired_lookup _ _ _ _ _ Hp (lookup_weaken _ _ _ _ Hl Hsub))
      as (d & d' & Hd & Hd' & Hitems).
    rewrite Hd, Hd'. rewrite <- (year_keyed_alike φ d d' Hitems).
    destruct (year_keyed env d).
    + destruct year as [ky|ly].
      * apply alike_scalar in Hyear as ->.
        destruct ky as [| |y|]; try (exists φ; done).
        pose proof (select_branch_alike φ d d' y Hitems) as Hb.
        destruct (select_branch env d y) as [b|],
                 (select_branch env d' y) as [b'|]; try done.
        -- apply (IH φ b b'); [done | done | done | done].
        -- exists φ. done.
      * apply alike_ref in Hyear as (ly' & -> & _). exists φ. done.
    + assert (Hrel : related φ alike
                (let+ resolved :=
                   mapM_items (λ v, resolve_metadata env depth v year) d in
                 alloc resolved)
                (let+ resolved :=
                   mapM_items (λ v, resolve_metadata env depth v year') d' in
                 alloc resolved)).
      { eapply related_bind.
        - apply mapM_items_related; [|done].
          intros φ1 x x' Hsub1 Hx. apply IH; [done|].
          eapply alike_mono; [|exact Hyear]. by etransitivity.
        - intros φ1 r r' Hsub1 Hr. by apply alloc_related. }
      by apply Hrel.
Qed.
End Resolving.

Lemma mapM_pointwise {A B} (f f' : A → result B) l :
  (∀ a, f a = f' a) → mapM f l = mapM f' l.
Proof.
  intros Hf. induction l as [|a l IH]; [done|].
  cbn [mapM]. by rewrite Hf, IH.
Qed.

Lemma new_category_alike φ mapping mapping' item :
  items_alike φ mapping mapping' →
  new_category mapping item = new_category mapping' item.
Proof.
  intros Hm. unfold new_category, renamed.
  pose proof (find_alike φ (λ k, cell_eqb item (cell_of_scalar k))
                mapping mapping' Hm) as H.
  cbn beta in H.
  destruct (List.find _ mapping) as [[k v]|],
           (List.find _ mapping') as [[k' v']|]; try done.
  cbn [snd] in H. destruct v as [x|l].
  - by apply alike_scalar in H as ->.
  - by apply alike_ref in H as (l' & -> & _).
Qed.

Lemma rename_categories_alike φ mapping mapping' column :
  items_alike φ mapping mapping' →
  rename_categories mapping column = rename_categories mapping' column.
Proof.
  intros Hm. unfold rename_categories.
  rewrite (mapM_pointwise (new_category mapping) (new_category mapping'))
    by (intros; by eapply new_category_alike).
  destruct (mapM _ (distinct (values column))) as [cats|e]; [|done].
  cbn [bind]. destruct (unique cats); [|done].
  rewrite (mapM_pointwise
             (λ c, if is_na c then Return NA else new_category mapping c)
             (λ c, if is_na c then Return NA else new_category mapping' c));
    [done|].
  intros c. destruct (is_na c); [done | by eapply new_category_alike].
Qed.

Lemma eq_scalar_alike φ column x x' :
  alike φ x x' → eq_scalar column x = eq_scalar column x'.
Proof.
  destruct x as [k|l].
  - by intros ->%alike_scalar.
  - by intros (l' & -> & _)%alike_ref.
Qed.

Section Cleaning.
Context (env : environment).

Lemma apply_type_to_column_alike φ g g' column md md' :
  paired φ g g' → alike φ md md' →
  _apply_type_to_column env g column md
  = _apply_type_to_column env g' column md'.
Proof.
  intros Hp Hmd. unfold _apply_type_to_column.
  destruct (_general_cleaning column) as [cleaned|e]; [|done]. cbn [bind].
  rewrite (contains_alike φ g g' (VStr "type") (VStr "type") md md')
    by done.
  destruct (contains g' (VStr "type") md') as [typed|e]; [|done].
  cbn [bind].
  assert (Htype : outcome_alike (alike φ)
            (if typed then subscript g md (VStr "type")
             else Return (VStr "string"))
            (if typed then subscript g' md' (VStr "type")
             else Return (VStr "string"))).
  { destruct typed; [by apply subscript_alike | done]. }
  destruct (if typed then subscript g md (VStr "type")
            else Return (VStr "string")) as [type|e],
           (if typed then subscript g' md' (VStr "type")
            else Return (VStr "string")) as [type'|e'];
    cbn [outcome_alike] in Htype; try done; [|by subst].
  cbn [bind].
  assert (Hstr : ∀ s, eq_str type' s = eq_str type s)
    by (intros; symmetry; by eapply eq_str_alike).
  unfold fixed_width. rewrite !Hstr.
  rewrite <- (py_str_alike φ type type' Htype).
  destruct (eq_str type "string"); [done|].
  destruct (eq_str type "boolean").
  { destruct (astype_Int32 env cleaned) as [codes|e]; [|done]. cbn [bind].
    pose proof (subscript_alike φ g g' md md' (VStr "true_condition")
                  (VStr "true_condition") Hp Hmd eq_refl) as Htc.
    destruct (subscript g md _) as [tc|e], (subscript g' md' _) as [tc'|e'];
      cbn [outcome_alike] in Htc; try done; [|by subst].
    cbn [bind]. by rewrite (eq_scalar_alike φ codes tc tc' Htc). }
  destruct (eq_str type "unsigned" || eq_str type "integer"
            || eq_str type "float"); [done|].
  destruct (eq_str type "UInt8"); [done|].
  destruct (eq_str type "UInt16"); [done|].
  destruct (eq_str type "UInt32"); [done|].
  destruct (eq_str type "UInt64"); [done|].
  destruct (eq_str type "category"); [|done].
  pose proof (subscript_alike φ g g' md md' (VStr "categories")
                (VStr "categories") Hp Hmd eq_refl) as Hcat.
  destruct (subscript g md _) as [cats|e], (subscript g' md' _) as [cats'|e'];
    cbn [outcome_alike] in Hcat; try done; [|by subst].
  cbn [bind]. destruct cats as [x|l].
  { by apply alike_scalar in Hcat as ->. }
  apply alike_ref in Hcat as (l' & -> & Hl).
  destruct (paired_lookup _ _ _ _ _ Hp Hl)
    as (mapping & mapping' & -> & -> & Hitems).
  rewrite <- (items_alike_keys φ mapping mapping' Hitems).
  destruct (dict_keys mapping) as [|first rest]; [done|].
  destruct (is_int first).
  - destruct (astype_Int32 env cleaned) as [codes|e]; [|done]. cbn [bind].
    by eapply rename_categories_alike.
  - by eapply rename_categories_alike.
Qed.

Lemma apply_metadata_to_column_alike φ g g' column md md' :
  replace_by_content env →
  paired φ g g' → alike φ md md' →
  _apply_metadata_to_column env g column md
  = _apply_metadata_to_column env g' column md'.
Proof.
  intros Hreplace Hp Hmd. unfold _apply_metadata_to_column.
  rewrite (contains_alike φ g g' (VStr "replace") (VStr "replace") md md')
    by done.
  destruct (contains g' (VStr "replace") md') as [has|e]; [|done].
  cbn [bind].
  assert (Hcolumn :
    (if has then
       let* to_replace := subscript g md (VStr "replace") in
       match to_replace with
       | VNone => Return column
       | _ => Series_replace env g column to_replace
       end
     else Return column)
    = (if has then
         let* to_replace := subscript g' md' (VStr "replace") in
         match to_replace with
         | VNone => Return column
         | _ => Series_replace env g' column to_replace
         end
       else Return column)).
  { destruct has; [|done].
    pose proof (subscript_alike φ g g' md md' (VStr "replace")
                  (VStr "replace") Hp Hmd eq_refl) as Hr.
    destruct (subscript g md _) as [r|e], (subscript g' md' _) as [r'|e'];
      cbn [outcome_alike] in Hr; try done; [|by subst].
    cbn [bind]. destruct r as [x|l].
    - apply alike_scalar in Hr as Hr'. subst r'.
      destruct x; [done|..]; by apply (Hreplace φ).
    - apply alike_ref in Hr as Hr'. destruct Hr' as (l' & -> & _).
      by apply (Hreplace φ). }
  rewrite Hcolumn. clear Hcolumn.
  destruct (if has then _ else _) as [replaced|e]; cbn [bind]; [|done].
  by eapply apply_type_to_column_alike.
Qed.

Lemma inherit_defaults_related φ0 dflt dflt' ts ts' keys :
  alike φ0 dflt dflt' → alike φ0 ts ts' →
  related φ0 (λ _ _ _, True) (inherit_defaults dflt ts keys)
                             (inherit_defaults dflt' ts' keys).
Proof.
  revert φ0. induction keys as [|key keys IH]; intros φ0 Hdflt Hts;
    cbn [inherit_defaults].
  - by apply related_ret.
  - eapply (related_bind _ (λ _, eq)).
    { apply related_read. intros φ g g' Hsub Hp.
      rewrite (contains_alike φ g g' (VScalar key) (VScalar key) ts ts');
        [|done|done|by eapply alike_mono].
      destruct (contains g' _ ts'); done. }
    intros φ1 present ? Hsub1 <-.
    eapply (related_bind _ (λ _ _ _, True)).
    { destruct present; [by apply related_ret|].
      eapply (related_bind _ alike).
      - apply related_read. intros φ g g' Hsub Hp.
        apply subscript_alike; [done| |done].
        eapply alike_mono; [|exact Hdflt]. by etransitivity.
      - intros φ2 v v' Hsub2 Hv. apply setitem_related; [|done].
        eapply alike_mono; [|exact Hts]. by etransitivity. }
    intros φ2 _ _ Hsub2 _. apply IH.
    + eapply alike_mono; [|exact Hdflt]. by etransitivity.
    + eapply alike_mono; [|exact Hts]. by etransitivity.
Qed.

Lemma get_table_settings_related φ0 tm tm' :
  alike φ0 (metadata_tables env) (metadata_tables env) →
  alike φ0 tm tm' →
  related φ0 alike (_get_table_settings env tm) (_get_table_settings env tm').
Proof.
  intros Hroot Htm. unfold _get_table_settings.
  eapply (related_bind _ alike).
  { apply related_read. intros φ g g' Hsub Hp.
    apply subscript_alike; [done| |done]. by eapply alike_mono. }
  intros φ1 dflt dflt' Hsub1 Hdflt φ g g' Hsub Hp.
  pose proof (subscript_alike φ g g' tm tm' (VStr "settings")
                (VStr "settings") Hp) as Hts.
  destruct (subscript g tm _) as [ts|e], (subscript g' tm' _) as [ts'|e'];
    cbn [outcome_alike] in Hts.
  - assert (Halike : alike φ ts ts').
    { apply Hts; [|done]. eapply alike_mono; [|exact Htm].
      by etransitivity. }
    assert (Hrel : related φ alike
              (let+ keys := read (λ h, iterate h dflt) in
               let+ _ := inherit_defaults dflt ts keys in
               ret ts)
              (let+ keys := read (λ h, iterate h dflt') in
               let+ _ := inherit_defaults dflt' ts' keys in
               ret ts')).
    { eapply (related_bind _ (λ _, eq)).
      - apply related_read. intros φ2 g2 g2' Hsub2 Hp2.
        rewrite (iterate_alike φ2 g2 g2' dflt dflt'); [|done|].
        + destruct (iterate g2' dflt'); done.
        + eapply alike_mono; [|exact Hdflt]. by etransitivity.
      - intros φ2 keys ? Hsub2 <-.
        eapply (related_bind _ (λ _ _ _, True)).
        + apply inherit_defaults_related.
          * eapply alike_mono; [|exact Hdflt]. by etransitivity.
          * by eapply alike_mono.
        + intros φ3 _ _ Hsub3 _. apply related_ret.
          intros φ4 Hsub4. eapply alike_mono; [|exact Halike].
          by repeat (etransitivity; [eassumption|]). }
    by apply Hrel.
  - exfalso. apply Hts; [|done]. eapply alike_mono; [|exact Htm].
    by etransitivity.
  - exfalso. apply Hts; [|done]. eapply alike_mono; [|exact Htm].
    by etransitivity.
  - assert (e = e') as <-.
    { apply Hts; [|done]. eapply alike_mono; [|exact Htm].
      by etransitivity. }
    exists φ. destruct e; cbn [fst snd outcome_alike]; split_and!; try done.
    by eapply alike_mono.
Qed.


Lemma get_column_metadata_related φ0 tm tm' name :
  alike φ0 (metadata_tables env) (metadata_tables env) →
  alike φ0 tm tm' →
  related φ0 alike (_get_column_metadata env tm name)
                   (_get_column_metadata env tm' name).
Proof.
  intros Hroot Htm. unfold _get_column_metadata.
  eapply (related_bind _ alike);
    [by apply get_table_settings_related|].
  intros φ1 ts ts' Hsub1 Hts.
  eapply (related_bind _ alike).
  { apply related_read. intros φ g g' Hsub Hp.
    apply subscript_alike; [done| |done].
    eapply alike_mono; [|exact Htm]. by etransitivity. }
  intros φ2 cm cm' Hsub2 Hcm.
  rewrite <- (is_dict_alike φ2 cm cm' Hcm),
          <- (py_str_alike φ2 cm cm' Hcm).
  destruct (negb (is_dict cm)); [apply related_raise|].
  eapply (related_bind _ (λ _, eq)).
  { apply related_read. intros φ g g' Hsub Hp.
    rewrite (contains_alike φ g g' (VStr name) (VStr name) cm cm');
      [|done|done|by eapply alike_mono].
    destruct (contains g' _ cm'); done. }
  intros φ3 listed ? Hsub3 <-. destruct listed.
  - eapply (related_bind _ alike).
    { apply related_read. intros φ g g' Hsub Hp.
      apply subscript_alike; [done| |done].
      eapply alike_mono; [|exact Hcm]. by etransitivity. }
    intros φ4 md md' Hsub4 Hmd.
    rewrite <- (is_dict_alike φ4 md md' Hmd),
            <- (eq_str_alike φ4 md md' "drop" Hmd).
    destruct (negb _); [apply related_raise|].
    apply related_ret. intros φ Hsub. by eapply alike_mono.
  - eapply (related_bind _ alike).
    { apply related_read. intros φ g g' Hsub Hp.
      apply subscript_alike; [done| |done].
      eapply alike_mono; [|exact Hts]. by repeat (etransitivity; [eassumption|]). }
    intros φ4 md md' Hsub4 Hmd.
    rewrite <- (eq_str_alike φ4 md md' "drop" Hmd),
            <- (eq_str_alike φ4 md md' "error" Hmd).
    destruct (negb _); [apply related_raise|].
    apply related_ret. intros φ Hsub. by eapply alike_mono.
Qed.

Lemma clean_columns_related φ0 items tm tm' cleaned_table :
  replace_by_content env →
  alike φ0 (metadata_tables env) (metadata_tables env) →
  alike φ0 tm tm' →
  related φ0 (λ _, eq) (clean_columns env items tm cleaned_table)
                       (clean_columns env items tm' cleaned_table).
Proof.
  intros Hreplace. revert φ0 cleaned_table.
  induction items as [|[k column] items IH];
    intros φ0 cleaned_table Hroot Htm; cbn [clean_columns].
  - by apply related_ret.
  - destruct k as [| | |column_name]; try apply related_raise.
    eapply (related_bind _ alike);
      [by apply get_column_metadata_related|].
    intros φ1 md md' Hsub1 Hmd.
    assert (Hroot1 : alike φ1 (metadata_tables env) (metadata_tables env))
      by by eapply alike_mono.
    assert (Htm1 : alike φ1 tm tm') by by eapply alike_mono.
    rewrite <- (eq_str_alike φ1 md md' "drop" Hmd),
            <- (eq_str_alike φ1 md md' "error" Hmd).
    destruct (eq_str md "drop"); [by apply IH|].
    destruct (eq_str md "error"); [apply related_raise|].
    eapply (related_bind _ (λ _, eq)).
    { apply related_read. intros φ g g' Hsub Hp.
      rewrite (apply_metadata_to_column_alike φ g g' column md md');
        [|done|done|by eapply alike_mono].
      destruct (_apply_metadata_to_column env g' column md'); done. }
    intros φ2 cleaned ? Hsub2 <-.
    eapply (related_bind _ (λ _, eq)).
    { apply related_read. intros φ g g' Hsub Hp.
      assert (Hmd' : alike φ md md')
        by (eapply alike_mono; [|exact Hmd]; by etransitivity).
      pose proof (subscript_alike φ g g' md md' (VStr "new_name")
                    (VStr "new_name") Hp Hmd' eq_refl) as Hlabel.
      destruct (subscript g md _) as [label|e],
               (subscript g' md' _) as [label'|e'];
        cbn [outcome_alike bind] in *; try done.
      destruct label as [x|l].
      + apply alike_scalar in Hlabel as ->.
        destruct (DataFrame_setitem _ _ _); done.
      + by apply alike_ref in Hlabel as (l' & -> & _). }
    intros φ3 table' ? Hsub3 <-. apply IH.
    + eapply alike_mono; [|exact Hroot1]. by etransitivity.
    + eapply alike_mono; [|exact Htm1]. by etransitivity.
Qed.

Lemma load_raw_data_related φ0 year year' table_name table_name' :
  alike φ0 (metadata_tables env) (metadata_tables env) →
  alike φ0 year year' → alike φ0 table_name table_name' →
  related φ0 (λ _, eq) (load_raw_data env year table_name)
                       (load_raw_data env year' table_name').
Proof.
  intros Hroot Hyear Hname. unfold load_raw_data.
  eapply (related_bind _ alike).
  { apply related_read. intros φ g g' Hsub Hp.
    assert (Ht : outcome_alike (alike φ)
              (subscript g (metadata_tables env) table_name)
              (subscript g' (metadata_tables env) table_name'))
      by (apply subscript_alike; [done|..]; by eapply alike_mono).
    destruct (subscript g _ table_name) as [t|e],
             (subscript g' _ table_name') as [t'|e'];
      cbn [outcome_alike bind] in *; try done.
    by apply subscript_alike. }
  intros φ1 versioned versioned' Hsub1 Hv.
  eapply (related_bind _ alike).
  { apply resolve_related; [done | by eapply alike_mono]. }
  intros φ2 file_code file_code' Hsub2 Hcode.
  assert (Hyear2 : py_str year = py_str year') by by eapply py_str_alike.
  assert (Hname2 : py_str table_name = py_str table_name')
    by by eapply py_str_alike.
  rewrite <- Hyear2, <- Hname2, <- (py_str_alike φ2 _ _ Hcode).
  destruct file_code as [x|l].
  - apply alike_scalar in Hcode as ->.
    destruct x; [apply related_raise|..];
      (apply related_read; intros;
       destruct (read_csv env _); done).
  - apply alike_ref in Hcode as (l' & -> & _).
    apply related_read. intros. destruct (read_csv env _); done.
Qed.

Lemma open_and_clean_table_related φ0 year year' table_name table_name' :
  replace_by_content env →
  alike φ0 (metadata_tables env) (metadata_tables env) →
  alike φ0 year year' → alike φ0 table_name table_name' →
  related φ0 (λ _, eq) (open_and_clean_table env year table_name)
                       (open_and_clean_table env year' table_name').
Proof.
  intros Hreplace Hroot Hyear Hname. unfold open_and_clean_table.
  eapply (related_bind _ (λ _, eq));
    [by apply load_raw_data_related|].
  intros φ1 table ? Hsub1 <-.
  eapply (related_bind _ alike).
  { apply related_read. intros φ g g' Hsub Hp.
    apply subscript_alike; [done| |].
    - eapply alike_mono; [|exact Hroot]. by etransitivity.
    - eapply alike_mono; [|exact Hname]. by etransitivity. }
  intros φ2 versioned versioned' Hsub2 Hv.
  eapply (related_bind _ alike).
  { apply resolve_related; [done|]. eapply alike_mono; [|exact Hyear].
    by etransitivity. }
  intros φ3 tm tm' Hsub3 Htm. unfold _apply_metadata_to_table.
  apply clean_columns_related; [done| |done].
  eapply alike_mono; [|exact Hroot].
  by repeat (etransitivity; [eassumption|]).
Qed.
End Cleaning.

(** A well-formed heap is paired with every heap that extends it, each
    dict with itself. *)
Lemma self_pairing_lookup h l l' :
  self_pairing h !! l = Some l' ↔ l' = l ∧ is_Some (h !! l).
Proof.
  unfold self_pairing. rewrite map_lookup_imap.
  destruct (h !! l) as [d|]; cbn.
  - split; [intros [= <-]; eauto | by intros [-> _]].
  - split; [done | by intros [_ [? ?]]].
Qed.

Lemma alike_self h v : resident h v → alike (self_pairing h) v v.
Proof.
  destruct v as [k|l]; cbn [resident alike]; [done|].
  intros Hl. by apply self_pairing_lookup.
Qed.

Lemma paired_self h h' :
  wellformed h → h ⊆ h' → paired (self_pairing h) h h'.
Proof.
  intros Hwf Hsub. split.
  - intros l1 l2 l' [-> _]%self_pairing_lookup [-> _]%self_pairing_lookup.
    done.
  - intros l l' [-> [d Hd]]%self_pairing_lookup.
    exists d, d. split_and!; [done | by eapply lookup_weaken |].
    specialize (Hwf l d Hd). clear Hd. unfold items_alike.
    induction Hwf as [|e d' He _ IH]; constructor; [|exact IH].
    split; [done | by apply alike_self].
Qed.

Section Twice.
Context (env : environment).

(** C9. Cleaning a table of a year twice in succession yields the same
    cleaned table (or the same error) twice: the second run, made on the
    heap the first run has left, returns what the first returned. So
    does applying one table metadata object to one raw table twice in
    succession. *)
Theorem open_and_clean_table_twice (year table_name : scalar) h :
  wellformed h →
  replace_by_content env →
  let first := open_and_clean_table env (VScalar year) (VScalar table_name) h in
  (open_and_clean_table env (VScalar year) (VScalar table_name) first.2).1
  = first.1
  ∧ ∀ table table_metadata,
      (_apply_metadata_to_table env table table_metadata
         (_apply_metadata_to_table env table table_metadata h).2).1
      = (_apply_metadata_to_table env table table_metadata h).1.
Proof.
  intros Hwf Hreplace. cbv zeta.
  split; [|intros; apply apply_metadata_to_table_twice].
  assert (Hroot : ¬ resident h (metadata_tables env) →
            open_and_clean_table env (VScalar year) (VScalar table_name) h
            = (Raise DanglingReference, h)).
  { destruct (metadata_tables env) as [x|l] eqn:Eroot; cbn [resident];
      [intros []; done|].
    intros Hl. unfold open_and_clean_table, load_raw_data.
    unfold bindM at 1. unfold bindM at 1. unfold read at 1.
    rewrite Eroot. unfold subscript at 1.
    destruct (h !! l) as [d|]; [destruct Hl; eauto | done]. }
  assert (Hcases : resident h (metadata_tables env)
                   ∨ ¬ resident h (metadata_tables env)).
  { destruct (metadata_tables env) as [x|l]; cbn [resident]; [by left|].
    destruct (h !! l) as [d|]; [left; eauto | right; by intros [d Hd]]. }
  destruct Hcases as [Hres|Hres].
  2:{ rewrite (Hroot Hres). cbn [fst snd]. by rewrite (Hroot Hres). }
  pose proof (open_and_clean_table_kept env (VScalar year)
                (VScalar table_name) h) as Hkept.
  destruct (open_and_clean_table_related env (self_pairing h)
              (VScalar year) (VScalar year)
              (VScalar table_name) (VScalar table_name) Hreplace
              (alike_self h _ Hres) eq_refl eq_refl
              (self_pairing h) h
              (open_and_clean_table env (VScalar year)
                 (VScalar table_name) h).2
              (reflexivity _) (paired_self _ _ Hwf Hkept))
    as (φ & _ & _ & Hout).
  destruct (open_and_clean_table env (VScalar year)
              (VScalar table_name) h).1 as [a|e],
           (open_and_clean_table env (VScalar year)
              (VScalar table_name) _).1 as [a'|e'];
    cbn [outcome_alike] in Hout; try done; by subst.
Qed.
End Twice.

(** ** The batch driver *)

Section Batch.
Context (env : environment).

(** The call [open_and_clean_table(_table_name, year)] passes the table
    name for the year and the year for the table name: the registry is
    subscripted by the year. When that fails the batch stops at its
    first pair and writes no file. *)
Lemma save_pairs_registry_error _table_name year rest h files e :
  subscript h (metadata_tables env) (VInt year) = Raise e →
  save_pairs env ((_table_name, year) :: rest) h files
  = (Raise e, (h, files)).
Proof.
  intros Hsub. cbn [save_pairs].
  unfold open_and_clean_table, load_raw_data.
  unfold bindM at 1. unfold bindM at 1. unfold read at 1.
  rewrite Hsub. reflexivity.
Qed.
End Batch.

(** The batch is sequential. *)
Lemma save_pairs_app env before after h files :
  save_pairs env (before ++ after) h files
  = match save_pairs env before h files with
    | (Return _, (h', files')) => save_pairs env after h' files'
    | (Raise e, state) => (Raise e, state)
    end.
Proof.
  revert h files. induction before as [|[name year] before IH];
    intros h files; [reflexivity|].
  rewrite <- app_comm_cons. cbn [save_pairs].
  destruct (open_and_clean_table env (VStr name) (VInt year) h)
    as [[table|e] h']; [apply IH | reflexivity].
Qed.

(** ** The examples *)

Example flatten_dict_docstring :
  flatten_dict example_document
  = Return [([SStr "a"], 1); ([SStr "b"; SStr "c"], 2);
            ([SStr "b"; SStr "d"; SStr "e"], 3)].
Proof. reflexivity. Qed.

Example sanitation_of_text :
  _general_cleaning example_text
  = Return (mkSeries object [NA; NA; CStr "3.0"; CStr "abc"]).
Proof. vm_compute. reflexivity. Qed.

Example boundary_hyphens :
  remove_boundary_hyphens false "a--b-" = "a-b"
  ∧ remove_boundary_hyphens false "-5" = "-5".
Proof. split; reflexivity. Qed.

Example float_of_clean_text :
  _apply_type_to_column example_env example_heap example_amounts (VRef 14)
  = Return (mkSeries (narrowed "float") [NA; NA; CFloat 3; CFloat 12]).
Proof. vm_compute. reflexivity. Qed.

Example cleaning_of_data :
  (open_and_clean_table example_env (VInt 1390) (VStr "data")
     example_heap).1
  = Return example_cleaned.
Proof. vm_compute. reflexivity. Qed.

(** C1. On the registry of the example, the batch for the table [data] and
    the year 1390 looks up the year as a table name, fails with a key error
    and writes no file, whereas cleaning the table [data] for the year 1390
    returns a table. *)
Theorem save_cleaned_tables_swaps_arguments :
  save_cleaned_tables example_env None [1390] example_heap ∅
  = (Raise (KeyError (SInt 1390)), (example_heap, ∅))
  ∧ (open_and_clean_table example_env (VInt 1390) (VStr "data")
       example_heap).1
    = Return example_cleaned.
Proof.
  split; [|exact cleaning_of_data].
  apply save_pairs_registry_error. reflexivity.
Qed.

(** Counterexample to C2 as stated, at the column [B01] of the table
    [persons], whose declared type is [decimal]: no error, a column of missing
    values. *)
Lemma unrecognised_type_no_error :
  subscript example_heap (VRef 23) (VStr "type") = Return (VStr "decimal")
  ∧ _apply_type_to_column example_env example_heap example_ages (VRef 23)
    = Return (mkSeries float64 [NA; NA]).
Proof. split; vm_compute; reflexivity. Qed.

(** The column [B01] again, through the theorem. *)
Lemma unrecognised_type_witness :
  _apply_type_to_column example_env example_heap example_ages (VRef 23)
  = Return (mkSeries float64 (replicate (length (values example_ages)) NA)).
Proof.
  apply (unrecognised_type_gives_missing example_env example_heap
           example_ages (VRef 23) (VStr "decimal"));
    [reflexivity | reflexivity |].
  repeat constructor.
Defined.

(** Counterexample to C3 as stated, at the codes [1, 2, 9, null]: the code 9
    is kept; at the codes [1.5, 1]: an error of the cast; and at a map
    that gives the codes 1 and 2 one label: an error of the relabelling. *)
Lemma unmapped_code_is_kept :
  _apply_type_to_column example_env example_heap example_codes (VRef 13)
  = Return (mkSeries category [CStr "Urban"; CStr "Rural"; CInt 9; NA])
  ∧ _apply_type_to_column example_env example_heap example_codes (VRef 13)
    ≠ Return (mkSeries category [CStr "Urban"; CStr "Rural"; NA; NA])
  ∧ _apply_type_to_column example_env example_heap
      (mkSeries float64 [CFloat (3 # 2); CFloat 1]) (VRef 13)
    = Raise TypeError
  ∧ _apply_type_to_column example_env
      (<[15%positive := [(SInt 1, VStr "Urban"); (SInt 2, VStr "Urban")]]>
         example_heap)
      example_codes (VRef 13)
    = Raise (ValueError "Categorical categories must be unique").
Proof.
  split_and!; [vm_compute; reflexivity | vm_compute; discriminate
              | vm_compute; reflexivity | vm_compute; reflexivity].
Qed.

(** The codes [1, 2, 9, null] under integer keys, and a column of text
    under string keys, through the theorem. *)
Lemma category_relabels_codes_witness :
  _apply_type_to_column example_env example_heap example_codes (VRef 13)
  = Return (mkSeries category [CStr "Urban"; CStr "Rural"; CInt 9; NA])
  ∧ _apply_type_to_column example_env example_types
      (mkSeries object [CStr "M"; CStr "F"; CStr "X"; CStr " "]) (VRef 34)
    = Return (mkSeries category [CStr "Male"; CStr "Female"; CStr "X"; NA]).
Proof.
  split.
  - apply (category_relabels_codes example_env example_heap example_codes
             (VRef 13) 15%positive
             [(SInt 1, VStr "Urban"); (SInt 2, VStr "Rural")]
             (SInt 1) [SInt 2]
             example_codes (mkSeries Int32 [CInt 1; CInt 2; CInt 9; NA]));
      try (vm_compute; reflexivity).
    repeat constructor; eexists; reflexivity.
  - apply (category_relabels_codes example_env example_types
             (mkSeries object [CStr "M"; CStr "F"; CStr "X"; CStr " "])
             (VRef 34) 35%positive
             [(SStr "M", VStr "Male"); (SStr "F", VStr "Female")]
             (SStr "M") [SStr "F"]
             (mkSeries object [CStr "M"; CStr "F"; CStr "X"; NA])
             (mkSeries object [CStr "M"; CStr "F"; CStr "X"; NA]));
      try (vm_compute; reflexivity).
    repeat constructor; eexists; reflexivity.
Defined.

(** Counterexample to C4 as stated, at the values ["  ", "-", "3.0.", "abc"]:
    an error. *)
Lemma unparsable_text_is_an_error :
  _apply_type_to_column example_env example_heap example_text (VRef 14)
  = Raise (ValueError (unparsable "abc" 3))
  ∧ _apply_type_to_column example_env example_heap example_text (VRef 14)
    ≠ Return (mkSeries (narrowed "float") [NA; NA; CFloat 3; NA]).
Proof. split; [vm_compute; reflexivity | vm_compute; discriminate]. Qed.

(** The same values, through the theorem. *)
Lemma unparsable_text_raises_witness :
  ∃ j s', _apply_type_to_column example_env example_heap example_text (VRef 14)
          = Raise (ValueError (unparsable s' j))
          ∧ [NA; NA; CStr "3.0"; CStr "abc"] !! j = Some (CStr s')
          ∧ decimal_literal s' = None.
Proof.
  apply (unparsable_text_raises example_env example_heap example_text
           (VRef 14) (VStr "float")
           (mkSeries object [NA; NA; CStr "3.0"; CStr "abc"])
           3%nat "abc");
    vm_compute; reflexivity.
Defined.

(** Counterexample to C6 as stated, at the column [A04] of the table [data],
    which the metadata lists with the error sentinel: the lookup raises. *)
Lemma listed_error_sentinel_is_rejected :
  subscript example_heap (VRef 12) (VStr "A04") = Return (VStr "error")
  ∧ (_get_column_metadata example_env (VRef 10) "A04" example_heap).1
    = Raise (ValueError "Metadata for column A04 is not valid").
Proof. split; vm_compute; reflexivity. Qed.

(** The column [A02], listed with the drop sentinel, is returned. *)
Lemma listed_column_metadata_witness :
  _get_column_metadata example_env (VRef 10) "A02" example_heap
  = (Return (VStr "drop"), settled example_env (VRef 10) example_heap).
Proof.
  apply (listed_column_metadata example_env (VRef 10) example_heap "A02"
           (VRef 11) 12%positive
           [(SStr "A01", VRef 13); (SStr "A02", VStr "drop");
            (SStr "A03", VRef 14); (SStr "A04", VStr "error")]
           (VStr "drop"));
    vm_compute; reflexivity.
Defined.

(** Counterexample to C7 as stated, at the table [persons] and its unlisted
    column [x9]: the error names the column and not the table. *)
Lemma unexpected_column_error_omits_table :
  ∃ message,
    (open_and_clean_table example_env (VInt 1390) (VStr "persons")
       example_heap).1 = Raise (ValueError message)
    ∧ str_contains "x9" message = true
    ∧ str_contains "persons" message = false.
Proof.
  exists (not_found "x9"). split; [|split]; vm_compute; reflexivity.
Qed.

(** The table [persons] and its unlisted column [x9], through the
    theorem. *)
Lemma unlisted_column_treatment_witness :
  (subscript (settled example_env (VRef 20) example_heap) (VRef 21)
     (VStr "missings") = Return (VStr "drop") →
   (_apply_metadata_to_table example_env
      ([(SStr "B01", example_ages)] ++ [(SStr "x9", example_text)])
      (VRef 20) example_heap).1
   = (_apply_metadata_to_table example_env
        ([(SStr "B01", example_ages)] ++ []) (VRef 20) example_heap).1)
  ∧ (subscript (settled example_env (VRef 20) example_heap) (VRef 21)
       (VStr "missings") = Return (VStr "error") →
     is_return (_apply_metadata_to_table example_env
                  [(SStr "B01", example_ages)] (VRef 20) example_heap).1
     = true →
     (_apply_metadata_to_table example_env
        ([(SStr "B01", example_ages)] ++ [(SStr "x9", example_text)])
        (VRef 20) example_heap).1
     = Raise (ValueError (not_found "x9"))).
Proof.
  apply (unlisted_column_treatment example_env [(SStr "B01", example_ages)]
           "x9" example_text [] (VRef 20) example_heap (VRef 21)
           22%positive [(SStr "B01", VRef 23)]);
    vm_compute; reflexivity.
Defined.

Example dropped_column_is_omitted :
  (_apply_metadata_to_table example_env example_data (VRef 10)
     example_heap).1
  = Return example_cleaned.
Proof. vm_compute. reflexivity. Qed.

(** Counterexample to C8 as stated, at two raw columns [a01] and [A01]: both
    are cleaned under the metadata of [A01] and assigned to [Region]; the
    cleaned table has the one column, with the data of the second. *)
Lemma two_raw_columns_one_cleaned_column :
  (_apply_metadata_to_table example_env
     [(SStr "a01", mkSeries float64 [CFloat 1; CFloat 1])]
     (VRef 10) example_heap).1
  = Return [(SStr "Region", mkSeries category [CStr "Urban"; CStr "Urban"])]
  ∧ (_apply_metadata_to_table example_env
       [(SStr "A01", mkSeries float64 [CFloat 2; CFloat 2])]
       (VRef 10) example_heap).1
    = Return [(SStr "Region", mkSeries category [CStr "Rural"; CStr "Rural"])]
  ∧ (_apply_metadata_to_table example_env example_twins (VRef 10)
       example_heap).1
    = Return [(SStr "Region", mkSeries category [CStr "Rural"; CStr "Rural"])].
Proof. split; [|split]; vm_compute; reflexivity. Qed.

(** The column [Region] of the table cleaned from the twins comes from the
    second of them. *)
Lemma cleaned_column_origin_witness :
  let cleaned :=
    [(SStr "Region", mkSeries category [CStr "Rural"; CStr "Rural"])] in
  let h1 := settled example_env (VRef 10) example_heap in
  NoDup (map norm_key (dict_keys cleaned))
  ∧ ∀ label c, (label, c) ∈ cleaned →
      ∃ before name column after,
        example_twins = before ++ (SStr name, column) :: after
        ∧ assigned example_env h1 (VRef 10) name column label c
        ∧ ∀ name' column' c', (SStr name', column') ∈ after →
            ¬ assigned example_env h1 (VRef 10) name' column' label c'.
Proof.
  apply (cleaned_column_origin example_env example_twins (VRef 10)
           example_heap).
  vm_compute. reflexivity.
Defined.

(** The table [data] of the example, whose settings block is empty,
    inherits the treatment of unlisted columns. *)
Lemma table_settings_inherited_witness :
  ∃ s', _get_table_settings example_env (VRef 10) example_heap
        = (Return (VRef 11), <[11%positive := s']> example_heap)
        ∧ s' ≠ []
        ∧ subscript (<[11%positive := s']> example_heap) (VRef 10)
            (VStr "settings") = Return (VRef 11)
        ∧ ∀ k, pyget k s'
               = match pyget k [] with
                 | Some v => Some v
                 | None => pyget k [(SStr "missings", VStr "drop")]
                 end.
Proof.
  apply (table_settings_inherited_in_place example_env (VRef 10)
           example_heap 2%positive 11%positive
           [(SStr "missings", VStr "drop")] []);
    try (vm_compute; reflexivity).
  exists (SStr "missings"). split; [left | reflexivity].
Defined.

Example settings_after_inheritance :
  (settled example_env (VRef 10) example_heap) !! 11%positive
  = Some [(SStr "missings", VStr "drop")].
Proof. vm_compute. reflexivity. Qed.

Lemma example_heap_wellformed : wellformed example_heap.
Proof.
  intros l d Hl.
  apply elem_of_list_to_map_2 in Hl.
  repeat (apply elem_of_cons in Hl as [[= -> ->]|Hl];
          [repeat (apply List.Forall_cons;
                   [first [exact I | eexists; vm_compute; reflexivity]|]);
           apply List.Forall_nil|]).
  by apply elem_of_nil in Hl.
Qed.

(** The table [data] of the year 1390, cleaned twice on the example. *)
Lemma open_and_clean_table_twice_witness :
  let first :=
    open_and_clean_table example_env (VInt 1390) (VStr "data")
      example_heap in
  (open_and_clean_table example_env (VInt 1390) (VStr "data") first.2).1
  = first.1
  ∧ ∀ table table_metadata,
      (_apply_metadata_to_table example_env table table_metadata
         (_apply_metadata_to_table example_env table table_metadata
            example_heap).2).1
      = (_apply_metadata_to_table example_env table table_metadata
           example_heap).1.
Proof.
  apply (open_and_clean_table_twice example_env (SInt 1390) (SStr "data")
           example_heap).
  - exact example_heap_wellformed.
  - intros φ g g' column v v' _ _. reflexivity.
Defined.

(* ===================================================================== *)
(** * Part III. Further properties of the code *)
(* ===================================================================== *)

(** ** [metadata_reader.py]: flattening and the tiers of the settings *)

Section FlattenFacts.
Context {A : Type}.
Implicit Types (t : settings_table A) (p : key_path).

Lemma unique_keys_item (items : list (scalar * document A)) key value :
  unique_keys (Mapping items) → (key, value) ∈ items → unique_keys value.
Proof.
  intros [_ Hall] Hin. induction items as [|[k v] items IH].
  - apply elem_of_nil in Hin as [].
  - destruct Hall as [Hv Hall].
    apply elem_of_cons in Hin as [[= -> ->]|Hin]; [exact Hv|].
    apply IH; assumption.
Qed.

Lemma path_get_set p q (a : A) t :
  path_get p (dict_set norm_path q a t)
  = if decide (norm_path p = norm_path q) then Some a else path_get p t.
Proof. apply dict_get_set. Qed.

Lemma norm_path_cons k p key q :
  norm_path (k :: p) = norm_path (key :: q)
  ↔ norm_key k = norm_key key ∧ norm_path p = norm_path q.
Proof.
  unfold norm_path. simpl.
  split; [intros [= ? ?] | intros [? ?]]; split || congruence; assumption.
Qed.

(** The key-paths a sub-document contributes under its key. *)
Lemma prefixed_get key (l : settings_table A) t p :
  distinct_paths l →
  path_get p
    (fold_left (λ acc sub, dict_set norm_path (key :: sub.1) sub.2 acc) l t)
  = match p with
    | k :: p' =>
        if decide (norm_key k = norm_key key)
        then match path_get p' l with
             | Some a => Some a
             | None => path_get p t
             end
        else path_get p t
    | [] => path_get p t
    end.
Proof.
  unfold distinct_paths. revert t.
  induction l as [|[q a] l IH]; intros t Hl.
  - destruct p as [|k p']; [reflexivity|]. cbn [fold_left path_get dict_get].
    destruct (decide (norm_key k = norm_key key)); reflexivity.
  - apply NoDup_cons in Hl as [Hq Hl]. cbn [fold_left fst snd].
    rewrite IH by assumption.
    rewrite path_get_set.
    destruct p as [|k p'].
    + rewrite decide_False by discriminate. reflexivity.
    + destruct (decide (norm_key k = norm_key key)) as [E|E].
      * change (path_get p' ((q, a) :: l))
          with (if decide (norm_path p' = norm_path q) then Some a
                else path_get p' l).
        destruct (decide (norm_path p' = norm_path q)) as [E'|E'].
        -- assert (path_get p' l = None) as ->.
           { apply dict_get_None. rewrite E'. exact Hq. }
           rewrite decide_True by (apply norm_path_cons; split; assumption).
           reflexivity.
        -- rewrite decide_False by (rewrite norm_path_cons; tauto).
           reflexivity.
      * rewrite decide_False by (rewrite norm_path_cons; tauto).
        reflexivity.
Qed.

Lemma flatten_items_get flatten items t p :
  (∀ d, distinct_paths (flatten d)) →
  NoDup (map norm_key (dict_keys items)) →
  path_get p (flatten_items flatten items t)
  = match level_get flatten p items with
    | Some a => Some a
    | None => path_get p t
    end.
Proof.
  intros Hflat. revert t.
  induction items as [|[key value] items IH]; intros t Hitems.
  - destruct p; reflexivity.
  - apply NoDup_cons in Hitems as [Hkey Hitems].
    cbn [flatten_items]. rewrite IH by assumption.
    destruct p as [|k p'].
    + cbn [level_get]. destruct value.
      * rewrite path_get_set, decide_False by discriminate. reflexivity.
      * rewrite prefixed_get by apply Hflat. reflexivity.
    + cbn [level_get dict_get].
      destruct (decide (norm_key k = norm_key key)) as [E|E].
      * assert (dict_get norm_key k items = None) as ->.
        { apply dict_get_None. rewrite E. exact Hkey. }
        destruct value as [a|sub].
        -- rewrite path_get_set.
           destruct p' as [|k' p'].
           ++ rewrite decide_True by (apply norm_path_cons; tauto).
              reflexivity.
           ++ rewrite decide_False
                by (rewrite norm_path_cons; intros [_ [=]]).
              reflexivity.
        -- rewrite prefixed_get by apply Hflat.
           rewrite decide_True by assumption. reflexivity.
      * destruct (match dict_get norm_key k items with
                  | Some (Leaf a) => match p' with [] => Some a | _ => None end
                  | Some value => path_get p' (flatten value)
                  | None => None
                  end); [reflexivity|].
        destruct value as [a|sub].
        -- rewrite path_get_set.
           rewrite decide_False by (rewrite norm_path_cons; tauto).
           reflexivity.
        -- rewrite prefixed_get by apply Hflat.
           rewrite decide_False by assumption. reflexivity.
Qed.

Lemma flatten_document_get (d : document A) p :
  unique_keys d →
  path_get p (flatten_document d) = leaf_at p d.
Proof.
  revert d. induction p as [|key p IH]; intros d Hd.
  - destruct d as [a|items]; simpl; [reflexivity|].
    rewrite flatten_items_get;
      [reflexivity | apply flatten_document_distinct | apply Hd].
  - destruct d as [a|items]; [reflexivity|].
    cbn [flatten_document].
    rewrite flatten_items_get;
      [| apply flatten_document_distinct | apply Hd].
    cbn [level_get leaf_at].
    destruct (dict_get norm_key key items) as [[a|sub]|] eqn:Hget;
      [destruct p; reflexivity | | reflexivity].
    destruct (path_get p (flatten_document (Mapping sub))) eqn:E;
      rewrite <- (IH (Mapping sub)); try (rewrite E; reflexivity).
    all: apply dict_get_Some_elem in Hget as [k0 [Hin _]];
      eapply unique_keys_item; eassumption.
Qed.

(** X3. Flattening is faithful to nested lookup: in the flattened table
    of a nested dict, a key-path holds exactly the leaf that the chain of
    subscripts along the path reaches in the dict, and a key-path that
    reaches no leaf (a missing key, a mapping, an empty mapping, a step
    through a leaf) is not a key of the table. *)
Theorem flatten_dict_lookup (dictionary : document A) t p :
  unique_keys dictionary →
  flatten_dict dictionary = Return t →
  path_get p t = leaf_at p dictionary.
Proof.
  intros Hd Hflat. destruct dictionary as [a|items]; [discriminate|].
  injection Hflat as <-. apply (flatten_document_get (Mapping items)), Hd.
Qed.

(** [_update_settings] neither adds a key-path nor removes or moves
    one. *)
Lemma update_settings_keys t new :
  dict_keys (_update_settings t new) = dict_keys t.
Proof.
  unfold _update_settings. revert t.
  induction new as [|[k a] new IH]; intros t; [reflexivity|].
  cbn [fold_left fst snd]. rewrite IH.
  destruct (dict_mem norm_path k t) eqn:Hk; [|reflexivity].
  apply dict_set_keys_present, Hk.
Qed.
End FlattenFacts.

Section TierFacts.
Context {A : Type} (default_settings : result (document A))
        (open_yaml : location → A → option (result (document A))).

Lemma override_keys place name (t t' : settings_table A) :
  override open_yaml place name t = Return t' →
  dict_keys t' = dict_keys t.
Proof.
  unfold override.
  destruct (settings_path name t) as [path|e]; [|discriminate].
  cbn [bind].
  destruct (open_yaml place path) as [[content|e]|]; cbn [bind];
    [| discriminate | intros [= <-]; reflexivity].
  destruct (flatten_dict content) as [new|e]; [|discriminate].
  intros [= <-]. apply update_settings_keys.
Qed.

(** X4. The collected settings have the key-paths of the default
    settings, in their order, whatever the override files hold: an
    override changes values only, and a key-path it introduces is
    ignored. *)
Theorem collect_settings_keys defaults (t : settings_table A) :
  default_settings = Return defaults →
  collect_settings default_settings open_yaml = Return t →
  dict_keys t = dict_keys (flatten_document defaults).
Proof.
  intros Hdefault. unfold collect_settings. rewrite Hdefault. cbn [bind].
  destruct defaults as [a|items]; [discriminate|]. cbn [flatten_dict bind].
  destruct (override open_yaml package "package_settings" _)
    as [t1|e] eqn:Hpackage; [|discriminate].
  cbn [bind]. intros Hroot.
  apply override_keys in Hpackage, Hroot. congruence.
Qed.

(** X5. An override file that is there but does not hold a mapping (an
    empty file parses to [None]) is not skipped: collecting the settings
    fails with the attribute error of [flatten_dict]. *)
Theorem collect_settings_override_not_mapping defaults place name path a :
  default_settings = Return defaults →
  (∃ items, defaults = Mapping items) →
  match place with
  | package =>
      name = "package_settings"
      ∧ settings_path name (flatten_document defaults) = Return path
  | root =>
      name = "local_settings"
      ∧ ∃ t, override open_yaml package "package_settings"
               (flatten_document defaults) = Return t
             ∧ settings_path name t = Return path
  end →
  open_yaml place path = Some (Return (Leaf a)) →
  collect_settings default_settings open_yaml = Raise AttributeError.
Proof.
  intros Hdefault [items ->] Hplace Hfile.
  unfold collect_settings. rewrite Hdefault. cbn [bind flatten_dict].
  destruct place.
  - destruct Hplace as [-> Hpath].
    assert (override open_yaml package "package_settings"
              (flatten_document (Mapping items)) = Raise AttributeError)
      as ->; [|reflexivity].
    unfold override. rewrite Hpath. cbn [bind]. rewrite Hfile. reflexivity.
  - destruct Hplace as [-> (t & Hpackage & Hpath)].
    rewrite Hpackage. cbn [bind]. unfold override.
    rewrite Hpath. cbn [bind]. rewrite Hfile. reflexivity.
Qed.
End TierFacts.

(** The docstring example of [flatten_dict]: the path [("b", "d", "e")]
    holds the leaf [3]. *)
Lemma flatten_dict_lookup_witness :
  path_get [SStr "b"; SStr "d"; SStr "e"]
    [([SStr "a"], 1); ([SStr "b"; SStr "c"], 2);
     ([SStr "b"; SStr "d"; SStr "e"], 3)]
  = leaf_at [SStr "b"; SStr "d"; SStr "e"] example_document.
Proof.
  apply (flatten_dict_lookup example_document); [|reflexivity].
  cbn. repeat split; repeat constructor;
    rewrite ?elem_of_cons, elem_of_nil; intros H; decompose [or] H;
    discriminate || contradiction.
Defined.

(** The example settings: the key [verbose] of the package override is
    not among the collected settings. *)
Lemma collect_settings_keys_witness :
  dict_keys
    [([SStr "package_settings"], "config/settings.yaml");
     ([SStr "local_settings"], "lfsir_settings.yaml");
     ([SStr "columns"; SStr "year"], "Sal");
     ([SStr "columns"; SStr "season"], "Season")]
  = dict_keys (flatten_document example_defaults).
Proof.
  apply (collect_settings_keys (Return example_defaults) example_open_yaml);
    reflexivity.
Defined.

(** The example settings: the year column is named by the root override,
    the season column by the defaults. *)
Lemma collect_settings_precedence_witness :
  ∃ t, collect_settings (Return example_defaults) example_open_yaml
       = Return t
       ∧ path_get [SStr "columns"; SStr "year"] t
         = match path_get [SStr "columns"; SStr "year"]
                   (flatten_document example_defaults) with
           | Some v =>
               Some (default
                       (default v
                          (path_get [SStr "columns"; SStr "year"]
                             (flatten_document example_package_settings)))
                       (path_get [SStr "columns"; SStr "year"]
                          (flatten_document example_root_settings)))
           | None => None
           end.
Proof.
  apply (collect_settings_precedence (Return example_defaults)
           example_open_yaml example_defaults "config/settings.yaml"
           example_package_settings "lfsir_settings.yaml"
           example_root_settings);
    try reflexivity; eexists; reflexivity.
Defined.

(** The example settings with an empty root override. *)
Lemma collect_settings_override_not_mapping_witness :
  collect_settings (Return example_defaults) example_open_yaml_empty
  = Raise AttributeError.
Proof.
  apply (collect_settings_override_not_mapping (Return example_defaults)
           example_open_yaml_empty example_defaults root "local_settings"
           "lfsir_settings.yaml" "None");
    [reflexivity | eexists; reflexivity | | reflexivity].
  split; [reflexivity|]. eexists. split; reflexivity.
Defined.

(** ** [data_cleaner.py]: sanitation and coercion of a column *)





(** A column of text and missing values has the [str] accessor. *)
Lemma str_accessor_ok_text P l :
  Forall (text_cell P) l → str_accessor_ok (mkSeries object l) = true.
Proof.
  intros Hl. unfold str_accessor_ok. cbn [dtype_of values is_numeric_dtype
                                           negb andb].
  induction Hl as [|c l [->|(s & -> & _)] _ IH]; [reflexivity| |].
  - rewrite filter_cons_False by (cbn [is_na]; discriminate). exact IH.
  - rewrite filter_cons_True by reflexivity. reflexivity.
Qed.

Lemma str_method_text f column (Q : string → Prop) :
  str_accessor_ok column = true →
  (∀ s, CStr s ∈ values column → Q (f s)) →
  ∃ l, str_method f column = Return (mkSeries object l)
       ∧ length l = length (values column)
       ∧ Forall (text_cell Q) l.
Proof.
  intros Hok HQ. unfold str_method. rewrite Hok.
  eexists. split; [reflexivity|]. split; [apply length_map|].
  apply Forall_forall. intros c' [c [-> Hc]]%list_elem_of_fmap.
  destruct c as [| | | |s]; try (left; reflexivity).
  right. exists (f s). split; [reflexivity | apply HQ, Hc].
Qed.

Lemma text_cell_elem P l s :
  Forall (text_cell P) l → CStr s ∈ l → P s.
Proof.
  intros Hl Hs. rewrite Forall_forall in Hl.
  destruct (Hl _ Hs) as [[=]|(s' & [= <-] & HP)]. exact HP.
Qed.

(** X6. The sanitation step never fails and keeps the length of the
    column; a column of a numeric dtype, and a column without the string
    accessor, are returned as they are. *)
Theorem general_cleaning_returns column :
  ∃ cleaned,
    _general_cleaning column = Return cleaned
    ∧ length (values cleaned) = length (values column)
    ∧ (is_numeric_dtype (dtype_of column) = true
       ∨ str_accessor_ok column = false → cleaned = column).
Proof.
  destruct (general_cleaning_total column) as (cleaned & Hclean & Hlen).
  exists cleaned. split; [exact Hclean|]. split; [exact Hlen|].
  revert Hclean. unfold _general_cleaning, str_method.
  intros Hclean [Hnum|Hstr].
  - rewrite Hnum in Hclean. congruence.
  - rewrite Hstr in Hclean. cbn [bind] in Hclean.
    destruct (is_numeric_dtype (dtype_of column)); congruence.
Qed.

Lemma replace_char_free a b s :
  free_of (λ ch, bool_decide (ch = a)) s → replace_char a b s = s.
Proof.
  unfold free_of.
  induction s as [|c s IH]; intros Hs; cbn [replace_char]; [reflexivity|].
  rewrite (Hs c) by (left; reflexivity).
  rewrite IH; [reflexivity|]. intros ch Hch. apply Hs. right. exact Hch.
Qed.

Lemma remove_chars_free class s :
  free_of class s → remove_chars class s = s.
Proof.
  unfold free_of.
  induction s as [|c s IH]; intros Hs; cbn [remove_chars]; [reflexivity|].
  rewrite (Hs c) by (left; reflexivity).
  rewrite IH; [reflexivity|]. intros ch Hch. apply Hs. right. exact Hch.
Qed.

Lemma rstrip_not_ending a s : ends_with a s = false → rstrip a s = s.
Proof.
  induction s as [|c s IH]; [reflexivity|].
  cbn [ends_with rstrip]. destruct s as [|c' s].
  - cbn [rstrip]. intros ->. reflexivity.
  - intros Hs. rewrite (IH Hs). reflexivity.
Qed.

Lemma remove_boundary_hyphens_free prev s :
  boundary_hyphen prev s = false → remove_boundary_hyphens prev s = s.
Proof.
  revert prev. induction s as [|c s IH]; intros prev; [reflexivity|].
  cbn [boundary_hyphen remove_boundary_hyphens].
  intros [-> Hs]%orb_false_elim. rewrite (IH _ Hs). reflexivity.
Qed.

Lemma str_method_map f l :
  Forall (text_cell (λ _, True))
    (map (λ c, match c with CStr s => CStr (f s) | _ => NA end) l).
Proof.
  apply Forall_forall. intros c' [c [-> _]]%list_elem_of_fmap.
  destruct c; try (left; reflexivity). right. eauto.
Qed.

(** The sanitation step works value by value. *)
Lemma general_cleaning_map column :
  str_accessor_ok column = true →
  ∃ d, _general_cleaning column
       = Return (mkSeries d (map sanitised (values column))).
Proof.
  intros Hok.
  assert (Hobj : is_numeric_dtype (dtype_of column) = false).
  { unfold str_accessor_ok in Hok.
    destruct (is_numeric_dtype (dtype_of column)); [discriminate|].
    reflexivity. }
  unfold _general_cleaning. rewrite Hobj.
  unfold str_method. rewrite Hok. cbn [bind values].
  rewrite (str_accessor_ok_text _ _ (str_method_map _ _)).
  cbn beta iota. cbn [values].
  rewrite (str_accessor_ok_text _ _ (str_method_map _ _)).
  cbn beta iota. cbn [values].
  rewrite (str_accessor_ok_text _ _ (str_method_map _ _)).
  cbn beta iota.
  unfold replace_regex_nan. cbv zeta. cbn [values dtype_of].
  eexists. f_equal. f_equal.
  rewrite !map_map. apply map_ext.
  intros [| | | |s]; reflexivity.
Qed.



(** X8. Sanitation leaves tidy text alone: in a text column, a string
    without any of the removed characters, without a dot at its end,
    without a hyphen right after a word character, and not blank, is
    kept as it is (so are the digits of a number, its decimal point and
    its sign). *)
Theorem general_cleaning_keeps_tidy_text column i s :
  str_accessor_ok column = true →
  values column !! i = Some (CStr s) →
  tidy s →
  ∃ cleaned, _general_cleaning column = Return cleaned
             ∧ values cleaned !! i = Some (CStr s).
Proof.
  intros Hok Hi (Hfree & Hdot & Hhyphen & Hblank).
  destruct (general_cleaning_map column Hok) as [d Hclean].
  eexists. split; [exact Hclean|].
  cbn [values]. rewrite list_lookup_fmap, Hi. cbn [fmap option_fmap option_map].
  f_equal. unfold sanitised.
  rewrite replace_char_free.
  2:{ intros ch Hch. specialize (Hfree ch Hch). unfold unwanted in Hfree.
      apply orb_false_elim in Hfree as [_ ?]. assumption. }
  rewrite rstrip_not_ending by exact Hdot.
  rewrite remove_chars_free.
  2:{ intros ch Hch. specialize (Hfree ch Hch). unfold unwanted in Hfree.
      apply orb_false_elim in Hfree as [? _]. assumption. }
  rewrite remove_boundary_hyphens_free by exact Hhyphen.
  cbv zeta. rewrite Hblank. reflexivity.
Qed.

Lemma mapM_length {A B} (f : A → result B) l l' :
  mapM f l = Return l' → length l' = length l.
Proof.
  revert l'. induction l as [|a l IH]; intros l'; cbn [mapM].
  - intros [= <-]. reflexivity.
  - destruct (f a) as [b|e]; [|discriminate]. cbn [bind].
    destruct (mapM f l) as [bs|e]; [|discriminate]. cbn [bind].
    intros [= <-]. cbn [length]. rewrite (IH bs); reflexivity.
Qed.

Lemma parse_cells_length parse i l l' :
  parse_cells parse i l = Return l' → length l' = length l.
Proof.
  revert i l'. induction l as [|c l IH]; intros i l'; cbn [parse_cells].
  - intros [= <-]. reflexivity.
  - destruct (match c with
              | CStr s => match parse s with
                          | Some n => Return (cell_of_number n)
                          | None => Raise (ValueError (unparsable s i))
                          end
              | _ => Return c
              end) as [c'|e]; [|discriminate].
    cbn [bind].
    destruct (parse_cells parse (S i) l) as [cs|e] eqn:Hcs; [|discriminate].
    cbn [bind]. intros [= <-]. cbn [length]. rewrite (IH _ _ Hcs).
    reflexivity.
Qed.

Lemma unify_numeric_length l : length (unify_numeric l) = length l.
Proof.
  unfold unify_numeric.
  repeat match goal with
         | |- context [if ?b then _ else _] => destruct b
         end; rewrite ?length_map; reflexivity.
Qed.

Lemma downcast_values_length family l :
  length (downcast_values family l) = length l.
Proof.
  unfold downcast_values.
  repeat match goal with
         | |- context [if ?b then _ else _] => destruct b
         end; rewrite ?length_map; reflexivity.
Qed.

Lemma astype_int_length parse d lo hi column c :
  astype_int parse d lo hi column = Return c →
  length (values c) = length (values column).
Proof.
  unfold astype_int.
  destruct (mapM _ (values column)) as [vs|e] eqn:Hvs; [|discriminate].
  cbn [bind]. intros [= <-]. cbn [values]. eapply mapM_length, Hvs.
Qed.

Lemma to_numeric_length parse family column c :
  to_numeric parse family column = Return c →
  length (values c) = length (values column).
Proof.
  unfold to_numeric.
  destruct (is_numeric_dtype (dtype_of column)); cbn [bind].
  - intros [= <-]. cbn [values]. apply downcast_values_length.
  - destruct (parse_cells parse 0 (values column)) as [vs|e] eqn:Hvs;
      [|discriminate].
    cbn [bind]. intros [= <-]. cbn [values].
    rewrite downcast_values_length, unify_numeric_length.
    eapply parse_cells_length, Hvs.
Qed.

Lemma rename_categories_length mapping column c :
  rename_categories mapping column = Return c →
  length (values c) = length (values column).
Proof.
  unfold rename_categories.
  destruct (mapM _ (distinct (values column))) as [cats|e]; [|discriminate].
  cbn [bind]. destruct (unique cats); [|discriminate].
  destruct (mapM _ (values column)) as [vs|e] eqn:Hvs; [|discriminate].
  cbn [bind]. intros [= <-]. cbn [values]. eapply mapM_length, Hvs.
Qed.

Section CoercionFacts.
Context (env : environment).

Lemma apply_type_to_column_length h column md typed :
  _apply_type_to_column env h column md = Return typed →
  length (values typed) = length (values column).
Proof.
  destruct (general_cleaning_total column) as (cleaned & Hclean & Hlen).
  unfold _apply_type_to_column. rewrite Hclean. cbn [bind].
  rewrite <- Hlen. clear Hclean Hlen.
  destruct (contains h (VStr "type") md) as [present|e]; [|discriminate].
  cbn [bind].
  destruct (if present then subscript h md (VStr "type")
            else Return (VStr "string")) as [type|e]; [|discriminate].
  cbn [bind].
  destruct (eq_str type "string"); [intros [= <-]; reflexivity|].
  destruct (eq_str type "boolean").
  { destruct (astype_Int32 env cleaned) as [codes|e] eqn:Hcodes;
      [|discriminate].
    cbn [bind].
    destruct (subscript h md (VStr "true_condition")); [|discriminate].
    cbn [bind]. intros [= <-]. unfold eq_scalar. cbn [values].
    rewrite length_map. eapply astype_int_length, Hcodes. }
  destruct (eq_str type "unsigned" || eq_str type "integer"
            || eq_str type "float"); [apply to_numeric_length|].
  destruct (fixed_width type) as [[d bound]|]; [apply astype_int_length|].
  destruct (eq_str type "category").
  2:{ intros [= <-]. unfold nan_like. cbn [values]. apply length_map. }
  destruct (subscript h md (VStr "categories")) as [[x|l]|e];
    try discriminate.
  cbn [bind].
  destruct (h !! l) as [mapping|]; [|discriminate].
  destruct (dict_keys mapping) as [|first rest]; [discriminate|].
  destruct (is_int first).
  - destruct (astype_Int32 env cleaned) as [codes|e] eqn:Hcodes;
      [|discriminate].
    cbn [bind]. intros Hc%rename_categories_length.
    rewrite Hc. cbn [astype_category values].
    eapply astype_int_length, Hcodes.
  - intros Hc%rename_categories_length. exact Hc.
Qed.

(** X9. Whatever the declared type, a column that the coercion step
    returns has as many values as the raw column. *)
Theorem apply_type_keeps_length h column md typed :
  _apply_type_to_column env h column md = Return typed →
  length (values typed) = length (values column).
Proof. apply apply_type_to_column_length. Qed.

(** X10. Under the declared type [boolean], once the sanitised column is
    cast to integer codes, a code equal to the true condition becomes
    [True], any other code [False], and a missing value stays missing (it
    does not become [False]). *)
Theorem boolean_from_codes h column md cleaned codes t :
  contains h (VStr "type") md = Return true →
  subscript h md (VStr "type") = Return (VStr "boolean") →
  subscript h md (VStr "true_condition") = Return (VInt t) →
  _general_cleaning column = Return cleaned →
  astype_Int32 env cleaned = Return codes →
  _apply_type_to_column env h column md
  = Return (mkSeries boolean
              (map (λ c, match c with
                         | CInt z => CBool (bool_decide (z = t))
                         | _ => NA
                         end) (values codes))).
Proof.
  intros Hin Htype Htrue Hclean Hcodes.
  unfold _apply_type_to_column. rewrite Hclean.
  cbn [bind]. rewrite Hin. cbn [bind]. rewrite Htype. cbn [bind].
  change (eq_str (VStr "boolean") "string") with false.
  change (eq_str (VStr "boolean") "boolean") with true.
  cbn match. rewrite Hcodes. cbn [bind]. rewrite Htrue. cbn [bind].
  unfold eq_scalar. f_equal. f_equal.
  assert (Hcells : Forall (λ c, c = NA ∨ ∃ z, c = CInt z) (values codes)).
  { unfold astype_Int32, astype_int in Hcodes.
    destruct (mapM _ (values cleaned)) as [vs|e] eqn:Hvs; [|discriminate].
    injection Hcodes as <-. cbn [values].
    eapply mapM_Forall; [|exact Hvs].
    intros a b. apply cast_int_cell. }
  induction Hcells as [|c l [->|[z ->]] _ IH]; [reflexivity| |];
    cbn [map]; rewrite IH; [reflexivity|].
  cbn [cell_of_scalar cell_eqb numeric_value].
  rewrite Qeq_bool_inject. reflexivity.
Qed.

(** X11. Under the declared type [category] an empty category map is an
    error: the first key, which decides how the column is cast, is
    missing. *)
Theorem category_without_categories h column md lm :
  contains h (VStr "type") md = Return true →
  subscript h md (VStr "type") = Return (VStr "category") →
  subscript h md (VStr "categories") = Return (VRef lm) →
  h !! lm = Some [] →
  _apply_type_to_column env h column md = Raise IndexError.
Proof.
  intros Hin Htype Hcats Hlm.
  destruct (general_cleaning_total column) as (cleaned & Hclean & _).
  unfold _apply_type_to_column. rewrite Hclean.
  cbn [bind]. rewrite Hin. cbn [bind]. rewrite Htype. cbn [bind].
  change (eq_str (VStr "category") "string") with false.
  change (eq_str (VStr "category") "boolean") with false.
  change (eq_str (VStr "category") "unsigned") with false.
  change (eq_str (VStr "category") "integer") with false.
  change (eq_str (VStr "category") "float") with false.
  change (fixed_width (VStr "category")) with (@None (dtype * Z)).
  change (eq_str (VStr "category") "category") with true.
  cbn [orb]. rewrite Hcats. cbn [bind]. rewrite Hlm. reflexivity.
Qed.
(** X12. The declared type [unsigned] is not enforced: a numeric column
    with a negative value is no error and no value is changed; the column
    is returned as it is, not narrowed. *)
Theorem unsigned_keeps_negative_values h column md :
  is_numeric_dtype (dtype_of column) = true →
  contains h (VStr "type") md = Return true →
  subscript h md (VStr "type") = Return (VStr "unsigned") →
  forallb nonnegative (values column) = false →
  _apply_type_to_column env h column md
  = Return (mkSeries (narrowed "unsigned") (values column)).
Proof.
  intros Hnum Hin Htype Hneg.
  unfold _apply_type_to_column, _general_cleaning. rewrite Hnum.
  cbn [bind]. rewrite Hin. cbn [bind]. rewrite Htype. cbn [bind].
  change (eq_str (VStr "unsigned") "string") with false.
  change (eq_str (VStr "unsigned") "boolean") with false.
  change (eq_str (VStr "unsigned") "unsigned") with true.
  cbn [orb]. cbn match.
  unfold to_numeric. rewrite Hnum. cbn [bind].
  unfold downcast_values.
  change (py_str (VStr "unsigned")) with "unsigned".
  rewrite bool_decide_eq_false_2 by discriminate.
  rewrite bool_decide_eq_true_2 by reflexivity.
  rewrite Hneg, andb_false_r. reflexivity.
Qed.
End CoercionFacts.

(** ** [data_cleaner.py]: the settings and the columns of a table *)

Lemma dict_set_absent {K N V : Type} `{EqDecision N} (norm : K → N) k
    (v : V) d :
  dict_get norm k d = None → dict_set norm k v d = d ++ [(k, v)].
Proof.
  induction d as [|[k0 v0] d IH]; cbn [dict_get dict_set app];
    [reflexivity|].
  destruct (decide (norm k = norm k0)); [discriminate|].
  intros Hd. rewrite IH by exact Hd. reflexivity.
Qed.

Section TableSettingsMore.
Context (env : environment).

(** The settings lookup on the two dicts, the same one or not. *)
Lemma get_table_settings_run tm h ld ls d s :
  subscript h (metadata_tables env) (VStr "default_table_settings")
    = Return (VRef ld) →
  subscript h tm (VStr "settings") = Return (VRef ls) →
  h !! ld = Some d → h !! ls = Some s →
  (_get_table_settings env tm h).1 = Return (VRef ls)
  ∧ settled env tm h !! ls = Some (inherited d (dict_keys d) s).
Proof.
  intros Hdflt Hts Hd Hs. unfold settled.
  destruct (decide (ls = ld)) as [->|Hne].
  - assert (s = d) as -> by congruence.
    assert (_get_table_settings env tm h = (Return (VRef ld), h)) as ->.
    { unfold _get_table_settings. unfold bindM at 1. unfold read at 1.
      rewrite Hdflt, Hts. unfold bindM at 1. unfold read at 1.
      unfold iterate. rewrite Hd. unfold bindM at 1.
      rewrite inherit_defaults_complete; [reflexivity|].
      apply Forall_forall. intros k Hk. unfold contains.
      rewrite Hd, (pyget_key_mem _ _ Hk). reflexivity. }
    cbn [fst snd]. split; [reflexivity|].
    rewrite inherited_complete; [exact Hd|].
    apply Forall_forall. intros k Hk. apply pyget_key_mem, Hk.
  - rewrite (get_table_settings_dicts env tm h ld ls d s) by assumption.
    cbn [fst snd]. split; [reflexivity | apply lookup_insert_eq].
Qed.

(** X13. Looking the settings of a table up a second time returns the
    same settings and writes nothing: the defaults are inherited once. *)
Theorem table_settings_second_lookup tm h :
  _get_table_settings env tm (settled env tm h)
  = ((_get_table_settings env tm h).1, settled env tm h).
Proof.
  unfold settled.
  destruct (_get_table_settings env tm h) as [r h1] eqn:E. cbn [fst snd].
  apply (get_table_settings_stable env tm h r h1 E).
Qed.

(** X14. The settings lookup creates no object and writes to no dict
    other than the settings dict of the table: every other object, the
    defaults of the registry among them, is as it was. *)
Theorem table_settings_writes_one_dict tm h l :
  subscript h tm (VStr "settings") ≠ Return (VRef l) →
  dom (settled env tm h) = dom h ∧ settled env tm h !! l = h !! l.
Proof.
  intros Hl. unfold settled.
  destruct (get_table_settings_frame env tm h)
    as [-> | (ld & ls & d & s & Hdflt & Hts & Hne & Hd & Hs)];
    [split; reflexivity|].
  rewrite (get_table_settings_dicts env tm h ld ls d s) by assumption.
  cbn [snd]. split.
  - apply dom_insert_lookup_L. eauto.
  - apply lookup_insert_ne. intros <-. apply Hl, Hts.
Qed.

(** X15. The treatment of a column that the table metadata does not list
    is the [missings] setting of the table itself when its settings block
    has one, and the registry default otherwise; it is returned when it
    is one of the two sentinels and rejected in every other case. *)
Theorem unlisted_treatment_inherited tm h ld ls d s lc cols name :
  subscript h (metadata_tables env) (VStr "default_table_settings")
    = Return (VRef ld) →
  subscript h tm (VStr "settings") = Return (VRef ls) →
  h !! ld = Some d → h !! ls = Some s →
  subscript (settled env tm h) tm (VStr "columns") = Return (VRef lc) →
  settled env tm h !! lc = Some cols →
  pyget (SStr name) cols = None →
  (_get_column_metadata env tm name h).1
  = match match pyget (SStr "missings") s with
          | Some v => Some v
          | None => pyget (SStr "missings") d
          end with
    | Some treatment =>
        if eq_str treatment "drop" || eq_str treatment "error"
        then Return treatment
        else Raise (ValueError "Missing treatment is not valid")
    | None => Raise (KeyError (SStr "missings"))
    end.
Proof.
  intros Hdflt Hts Hd Hs Hcols Hlc Hname.
  destruct (get_table_settings_run tm h ld ls d s Hdflt Hts Hd Hs)
    as [Hrun Hsettled].
  rewrite <- get_column_metadata_settled.
  rewrite (unlisted_lookup env tm h name (VRef ls) lc cols)
    by assumption.
  unfold subscript at 1. rewrite Hsettled.
  rewrite inherited_get.
  destruct (pyget (SStr "missings") s) as [v|].
  - cbn [bind]. destruct (eq_str v "drop" || eq_str v "error"); reflexivity.
  - destruct (decide _) as [|Hout].
    + destruct (pyget (SStr "missings") d) as [v|]; [|reflexivity].
      cbn [bind].
      destruct (eq_str v "drop" || eq_str v "error"); reflexivity.
    + assert (pyget (SStr "missings") d = None) as ->
        by (apply dict_get_None; exact Hout).
      reflexivity.
Qed.

(** X16. The metadata of a column, when the lookup returns one, is a
    dict or one of the two sentinels [drop] and [error], and nothing
    else. *)
Theorem column_metadata_is_dict_or_sentinel tm name h md :
  (_get_column_metadata env tm name h).1 = Return md →
  is_dict md = true ∨ md = VStr "drop" ∨ md = VStr "error".
Proof. apply get_column_metadata_result. Qed.

Lemma assemble_in_order h1 tm table
    (steps : list (option (scalar * Series))) acc :
  Forall2 (λ item step,
             ∃ name, item.1 = SStr name
                     ∧ cleaned_column env h1 tm name item.2
                       = Return (prod_map VScalar id <$> step))
    table steps →
  NoDup (map norm_key (dict_keys (acc ++ omap id steps))) →
  assemble env h1 tm table acc = Return (acc ++ omap id steps).
Proof.
  intros Hsteps. revert acc.
  induction Hsteps as [|[k column] step table steps (name & Hk & Hstep) _ IH];
    intros acc Hnodup.
  - cbn [omap]. rewrite app_nil_r. reflexivity.
  - cbn [fst snd] in Hk, Hstep. subst k. cbn [assemble].
    rewrite Hstep. cbn [bind].
    destruct step as [[label c]|]; cbn [fmap option_fmap option_map prod_map
                                         fst snd id omap mbind option_bind].
    + cbn [omap option_bind mbind] in Hnodup.
      assert (Hfresh : dict_get norm_key label acc = None).
      { apply dict_get_None. unfold dict_keys in *.
        rewrite fmap_app, map_app in Hnodup.
        apply NoDup_app in Hnodup as (_ & Hdisj & _).
        intros Hin. apply (Hdisj _ Hin). cbn. left. }
      cbn [DataFrame_setitem bind].
      rewrite (dict_set_absent norm_key label c acc Hfresh).
      rewrite IH; rewrite <- app_assoc; [reflexivity | exact Hnodup].
    + apply IH. exact Hnodup.
Qed.

(** X17. The cleaned table keeps the column order of the raw table: when
    every raw column is either left out or cleaned into a column under a
    label, and these labels are pairwise different, the cleaned table
    holds exactly these columns, in the order of the raw columns they
    come from. *)
Theorem cleaned_columns_in_order table tm h
    (steps : list (option (scalar * Series))) :
  Forall2 (λ item step,
             ∃ name, item.1 = SStr name
                     ∧ cleaned_column env (settled env tm h) tm name item.2
                       = Return (prod_map VScalar id <$> step))
    table steps →
  NoDup (map norm_key (dict_keys (omap id steps))) →
  (_apply_metadata_to_table env table tm h).1 = Return (omap id steps).
Proof.
  intros Hsteps Hnodup. rewrite apply_metadata_to_table_assemble.
  apply (assemble_in_order _ tm table steps []); assumption.
Qed.

Lemma assemble_label h1 tm before k column after acc :
  (∀ name, k ≠ SStr name) →
  is_return (assemble env h1 tm before acc) = true →
  assemble env h1 tm (before ++ (k, column) :: after) acc
  = Raise AssertionError.
Proof.
  intros Hk. revert acc.
  induction before as [|[k0 c] before IH]; intros acc.
  - intros _. cbn [app assemble].
    destruct k as [| | |name]; try reflexivity. exfalso. exact (Hk name eq_refl).
  - rewrite <- !app_comm_cons. destruct k0 as [| | |n]; try discriminate.
    cbn [assemble].
    destruct (cleaned_column env h1 tm n c) as [[[label c']|]|e'];
      cbn [bind]; [|apply IH|discriminate].
    destruct (DataFrame_setitem acc label c') as [acc'|e']; cbn [bind];
      [apply IH | discriminate].
Qed.

(** X18. Cleaning a table is all or nothing: once the raw columns before
    it are cleaned, a raw column whose cleaning fails makes the cleaning
    of the table fail with that very error, whatever the columns after it
    are. *)
Theorem first_failing_column_fails_table before name column after tm h e :
  is_return (_apply_metadata_to_table env before tm h).1 = true →
  cleaned_column env (settled env tm h) tm name column = Raise e →
  (_apply_metadata_to_table env
     (before ++ (SStr name, column) :: after) tm h).1 = Raise e.
Proof.
  rewrite !apply_metadata_to_table_assemble. intros Hbefore Hstep.
  apply assemble_raise; assumption.
Qed.

(** X19. A raw column whose label is not a string fails the assertion on
    the label, once the raw columns before it are cleaned. *)
Theorem column_label_must_be_string before k column after tm h :
  is_return (_apply_metadata_to_table env before tm h).1 = true →
  (∀ name, k ≠ SStr name) →
  (_apply_metadata_to_table env
     (before ++ (k, column) :: after) tm h).1 = Raise AssertionError.
Proof.
  rewrite !apply_metadata_to_table_assemble. intros Hbefore Hk.
  apply assemble_label; assumption.
Qed.

(** X20. Cleaning a table has no effect on the registry other than the
    inheritance of the default settings by the table: the heap after it
    is the heap the settings lookup leaves (the heap as it was when the
    table has no column, or a first column without a string label). *)
Theorem apply_metadata_to_table_effect table tm h :
  (_apply_metadata_to_table env table tm h).2
  = match table with
    | (SStr _, _) :: _ => settled env tm h
    | _ => h
    end.
Proof.
  unfold _apply_metadata_to_table.
  destruct table as [|[k column] items]; [reflexivity|].
  destruct k as [| | |name]; try reflexivity.
  cbn [clean_columns]. unfold bindM at 1.
  pose proof (get_column_metadata_heap env tm (upper name) h) as Hheap.
  destruct (_get_column_metadata env tm (upper name) h) as [[md|e] h'];
    cbn [fst snd] in *; subst h'; [|reflexivity].
  assert (Hst : settled env tm (settled env tm h) = settled env tm h)
    by apply settled_settled.
  destruct (eq_str md "drop");
    [rewrite clean_columns_pure by exact Hst; reflexivity|].
  destruct (eq_str md "error"); [reflexivity|].
  unfold bindM at 1. unfold read at 1.
  destruct (_apply_metadata_to_column env _ column md) as [c|e];
    [|reflexivity].
  unfold bindM at 1. unfold read at 1.
  destruct (subscript _ md (VStr "new_name")) as [label|e]; [|reflexivity].
  cbn [bind].
  destruct (DataFrame_setitem [] label c) as [acc'|e]; [|reflexivity].
  rewrite clean_columns_pure by exact Hst. reflexivity.
Qed.

(** X21. The cleaned table has the rows of the raw table: when the
    substitution of values keeps the length of a column, as
    [Series.replace] does, and every raw column has [n] values, every
    column of the cleaned table has [n] values. *)
Theorem cleaned_table_keeps_rows table tm h cleaned n :
  (∀ h column to_replace replaced,
     Series_replace env h column to_replace = Return replaced →
     length (values replaced) = length (values column)) →
  Forall (λ item, length (values item.2) = n) table →
  (_apply_metadata_to_table env table tm h).1 = Return cleaned →
  Forall (λ item, length (values item.2) = n) cleaned.
Proof.
  intros Hreplace Htable. rewrite apply_metadata_to_table_assemble.
  intros Hrun.
  destruct (assemble_origin env _ tm table [] cleaned Hrun (NoDup_nil_2 (A:=scalar)))
    as [_ Horigin].
  apply Forall_forall. intros [label c] Hin. cbn [snd].
  destruct (Horigin label c Hin)
    as [(before & name & column & after & -> & Hassigned & _)
       |[[]%elem_of_nil _]].
  destruct Hassigned as (md & new_name & _ & _ & Hc & _).
  rewrite Forall_forall in Htable.
  rewrite <- (Htable (SStr name, column))
    by (apply elem_of_app; right; left).
  cbn [snd]. revert Hc. unfold _apply_metadata_to_column.
  destruct (contains _ (VStr "replace") md) as [has_replace|e];
    [|discriminate].
  cbn [bind].
  destruct has_replace.
  - destruct (subscript _ md (VStr "replace")) as [to_replace|e];
      [|discriminate].
    cbn [bind].
    destruct (match to_replace with
              | VNone => Return column
              | _ => Series_replace env (settled env tm h) column to_replace
              end) as [replaced|e] eqn:Hreplaced; [|discriminate].
    cbn [bind]. intros Hc%apply_type_to_column_length. rewrite Hc.
    destruct to_replace as [[| | |]|];
      first [injection Hreplaced as <-; reflexivity
            | eapply Hreplace, Hreplaced].
  - cbn [bind]. apply apply_type_to_column_length.
Qed.
End TableSettingsMore.

(** ** [data_cleaner.py]: the batch *)

(** X2. The batch stops at the first error: when the pairs before a pair
    have been cleaned and written and the cleaning of that pair fails,
    the batch fails with the error of that pair and ends in the state
    that pair left; no pair after it is attempted, and the files are
    those written before it. *)
Theorem batch_stops_at_first_error env before _table_name year after
    h files h1 files1 e h2 :
  save_pairs env before h files = (Return tt, (h1, files1)) →
  open_and_clean_table env (VStr _table_name) (VInt year) h1
    = (Raise e, h2) →
  save_pairs env (before ++ (_table_name, year) :: after) h files
  = (Raise e, (h2, files1)).
Proof.
  intros Hbefore Hpair. rewrite save_pairs_app, Hbefore.
  cbn [save_pairs]. rewrite Hpair. reflexivity.
Qed.

Section BatchFacts.
Context (env : environment).

(** X22. The batch subscripts the registry by the year: when the
    registry has no entry under the first year, as a registry keyed by
    table names has none, the batch fails at its first pair, before any
    file is read, and writes nothing. *)
Theorem batch_subscripts_registry_by_year table_names name names year years
    h files e :
  default original_tables table_names = name :: names →
  subscript h (metadata_tables env) (VInt year) = Raise e →
  save_cleaned_tables env table_names (year :: years) h files
  = (Raise e, (h, files)).
Proof.
  intros Hnames Hsub.
  unfold save_cleaned_tables, construct_table_year_pairs.
  rewrite Hnames. cbn [list_prod map app].
  cbn [save_pairs].
  unfold open_and_clean_table, load_raw_data.
  unfold bindM at 1. unfold bindM at 1. unfold read at 1.
  rewrite Hsub. reflexivity.
Qed.

(** X23. The batch writes no file but those named after its pairs: a
    file of any other name is as it was, whether the batch ends or
    fails. *)
Theorem batch_keeps_other_files table_year h files name :
  (∀ _table_name year, (_table_name, year) ∈ table_year →
     name ≠ py_str (VInt year) +:+ "_" +:+ _table_name +:+ ".parquet") →
  (save_pairs env table_year h files).2.2 !! name = files !! name.
Proof.
  revert h files.
  induction table_year as [|[_table_name year] table_year IH];
    intros h files Hname; [reflexivity|].
  cbn [save_pairs].
  destruct (open_and_clean_table env (VStr _table_name) (VInt year) h)
    as [[table|e] h']; [|reflexivity].
  rewrite IH.
  - apply lookup_insert_ne. intros E. apply (Hname _table_name year).
    + apply elem_of_cons. left. reflexivity.
    + symmetry. exact E.
  - intros t y Hin. apply Hname. apply elem_of_cons. right. exact Hin.
Qed.
End BatchFacts.

(** ** [api.py] *)

Section ApiFacts.
Context {X : Type}.
Implicit Types (d : variables X).

Lemma extract_parameters_get d key :
  NoDup (dict_keys d) →
  dict_get id key (_extract_parameters d)
  = match dict_get id key d with
    | Some v => if is_None v then None else Some v
    | None => None
    end.
Proof.
  unfold _extract_parameters.
  induction d as [|[k v] d IH]; intros Hd; [reflexivity|].
  apply NoDup_cons in Hd as [Hk Hd]. cbn [dict_get].
  destruct (is_None v) eqn:Hv.
  - rewrite filter_cons_False by (cbn [snd]; rewrite Hv; discriminate).
    rewrite IH by exact Hd.
    destruct (decide (id key = id k)) as [E|E]; [|reflexivity].
    unfold id in E. subst key. rewrite Hv.
    assert (dict_get id k d = None) as ->; [|reflexivity].
    apply dict_get_None. rewrite map_id. exact Hk.
  - rewrite filter_cons_True by (cbn [snd]; exact Hv).
    cbn [dict_get].
    destruct (decide (id key = id k)); [rewrite Hv; reflexivity|].
    apply IH, Hd.
Qed.

(** X24. The parameters extracted from the local variables of a
    function are those that are not [None], each with its value: a
    variable that holds [None] is no parameter, and no parameter holds
    [None]. *)
Theorem extract_parameters_lookup d key :
  NoDup (dict_keys d) →
  dict_get id key (_extract_parameters d)
  = match dict_get id key d with
    | Some v => if is_None v then None else Some v
    | None => None
    end.
Proof. apply extract_parameters_get. Qed.

Context (api : classifier X).

(** X25. [add_classification] infers the classification type only when
    none is given, and then from the default code columns of the table
    alone: [commodity] when the table has the commodity code column,
    else [occupation] when it has the job code column, else the error;
    the test on the values of a code column is never made, whatever the
    argument [code_col] is. *)
Theorem add_classification_infers_type table name classification_type
    aspects levels column_names drop_value missing_value_replacements
    code_col year_col :
  let parameters :=
    _extract_parameters
      (add_classification_locals table name classification_type aspects
         levels column_names drop_value missing_value_replacements
         code_col year_col) in
  add_classification api table name classification_type aspects levels
    column_names drop_value missing_value_replacements code_col year_col
  = if is_None classification_type then
      if dict_mem norm_key (SStr (commodity_code api)) table then
        decoder api table
          (dict_set id "classification_type" (AStr "commodity") parameters)
      else if dict_mem norm_key (SStr (job_code api)) table then
        decoder api table
          (dict_set id "classification_type" (AStr "occupation") parameters)
      else Raise (ValueError "Missing Code Column")
    else decoder api table parameters.
Proof.
  cbv zeta. unfold add_classification.
  set (locals := add_classification_locals _ _ _ _ _ _ _ _ _ _).
  assert (Hkeys : NoDup (dict_keys locals)).
  { cbn. repeat constructor;
      rewrite ?elem_of_cons, elem_of_nil; intros H; decompose [or] H;
      discriminate || contradiction. }
  unfold dict_mem at 1 2.
  rewrite !extract_parameters_get by exact Hkeys.
  change (dict_get id "classification_type" locals)
    with (Some classification_type).
  change (dict_get id "code_column_name" locals)
    with (@None (argument X)).
  cbn beta iota.
  destruct (is_None classification_type); [|reflexivity].
  cbn [negb bind].
  destruct (dict_mem norm_key (SStr (commodity_code api)) table);
    [reflexivity|].
  destruct (dict_mem norm_key (SStr (job_code api)) table); reflexivity.
Qed.
End ApiFacts.

Section SetupFacts.
Context {C : Type}.
Implicit Types (src dst : gmap string C).

Lemma copy_fold_lookup replace src dst name :
  map_fold (copy_file replace) dst src !! name
  = if replace then (src ∪ dst) !! name else (dst ∪ src) !! name.
Proof.
  apply (map_fold_weak_ind
           (λ r m, r !! name
                   = if replace then (m ∪ dst) !! name
                     else (dst ∪ m) !! name)).
  - rewrite map_empty_union, map_union_empty.
    destruct replace; reflexivity.
  - intros i x m r Hi IH. unfold copy_file.
    destruct (decide (i = name)) as [->|Hne].
    + rewrite !lookup_union, Hi in IH.
      rewrite !lookup_union, lookup_insert_eq.
      destruct replace.
      * rewrite orb_true_r, lookup_insert_eq.
        destruct (dst !! name); reflexivity.
      * rewrite orb_false_r.
        destruct (dst !! name) as [c|] eqn:Hdst; cbn in IH.
        -- rewrite bool_decide_eq_true_2 by (rewrite IH; eauto).
           exact IH.
        -- rewrite bool_decide_eq_false_2
             by (rewrite IH; intros [? [=]]).
           apply lookup_insert_eq.
    + assert (Hr : ∀ r', (if negb (bool_decide (is_Some (r !! i)))
                             || replace
                          then <[i:=x]> r else r) = r'
                         → r' !! name = r !! name).
      { intros r' <-.
        destruct (negb _ || replace); [|reflexivity].
        apply lookup_insert_ne, Hne. }
      rewrite (Hr _ eq_refl), IH, !lookup_union.
      rewrite lookup_insert_ne by exact Hne. reflexivity.
Qed.

(** X26. [setup_metadata] makes the metadata folder of the root
    directory the union of that folder and the metadata folder of the
    package: without [replace] a file that is already there is never
    changed and the package files that are missing are added; with
    [replace] every package file takes the place of the file of its
    name; a file the package does not have is kept in both cases. *)
Theorem setup_metadata_union replace src (dst_folder : option (gmap string C)) :
  setup_metadata replace (Some src) dst_folder
  = (Return tt,
     Some (if replace then src ∪ default ∅ dst_folder
           else default ∅ dst_folder ∪ src)).
Proof.
  unfold setup_metadata. f_equal. f_equal. apply map_eq. intros name.
  rewrite copy_fold_lookup. destruct replace; reflexivity.
Qed.

(** X27. Setting the metadata up a second time changes nothing. *)
Theorem setup_metadata_twice replace src (dst_folder : option (gmap string C)) :
  setup_metadata replace (Some src)
    (setup_metadata replace (Some src) dst_folder).2
  = setup_metadata replace (Some src) dst_folder.
Proof.
  unfold setup_metadata. cbn [snd from_option id].
  set (dst := default ∅ dst_folder). f_equal. f_equal.
  apply map_eq. intros name. rewrite copy_fold_lookup.
  destruct replace; rewrite !lookup_union, copy_fold_lookup, !lookup_union;
    destruct (src !! name), (dst !! name); reflexivity.
Qed.
End SetupFacts.
(** ** The further properties at the examples *)


(** The column of amounts under the declared type [float]. *)
Lemma apply_type_keeps_length_witness :
  length (values (mkSeries (narrowed "float")
                    [NA; NA; CFloat 3; CFloat 12]))
  = length (values example_amounts).
Proof.
  apply (apply_type_keeps_length example_env example_heap example_amounts
           (VRef 14)).
  vm_compute. reflexivity.
Defined.

(** The codes 1, 2 and a missing value under the true condition 1. *)
Lemma boolean_from_codes_witness :
  _apply_type_to_column example_env example_types
    (mkSeries float64 [CFloat 1; CFloat 2; NA]) (VRef 30)
  = Return (mkSeries boolean [CBool true; CBool false; NA]).
Proof.
  apply (boolean_from_codes example_env example_types
           (mkSeries float64 [CFloat 1; CFloat 2; NA]) (VRef 30)
           (mkSeries float64 [CFloat 1; CFloat 2; NA])
           (mkSeries Int32 [CInt 1; CInt 2; NA]) 1);
    vm_compute; reflexivity.
Defined.

Lemma category_without_categories_witness :
  _apply_type_to_column example_env example_types example_codes (VRef 31)
  = Raise IndexError.
Proof.
  apply (category_without_categories example_env example_types
           example_codes (VRef 31) 32%positive);
    vm_compute; reflexivity.
Defined.

Lemma unsigned_keeps_negative_values_witness :
  _apply_type_to_column example_env example_types
    (mkSeries int64 [CInt (-5); CInt 7]) (VRef 33)
  = Return (mkSeries (narrowed "unsigned") [CInt (-5); CInt 7]).
Proof.
  apply (unsigned_keeps_negative_values example_env example_types
           (mkSeries int64 [CInt (-5); CInt 7]) (VRef 33));
    vm_compute; reflexivity.
Defined.

(** The column [A02] of the table [data]. *)
Lemma column_metadata_is_dict_or_sentinel_witness :
  is_dict (VStr "drop") = true
  ∨ VStr "drop" = VStr "drop" ∨ VStr "drop" = VStr "error".
Proof.
  apply (column_metadata_is_dict_or_sentinel example_env (VRef 10) "A02"
           example_heap).
  vm_compute. reflexivity.
Defined.

(** The settings lookup of the table [data] leaves the defaults of the
    registry as they are. *)
Lemma table_settings_writes_one_dict_witness :
  dom (settled example_env (VRef 10) example_heap) = dom example_heap
  ∧ settled example_env (VRef 10) example_heap !! 2%positive
    = example_heap !! 2%positive.
Proof.
  apply (table_settings_writes_one_dict example_env (VRef 10) example_heap
           2%positive).
  vm_compute. discriminate.
Defined.

(** The column [Z9], which the table [data] does not list: its settings
    block is empty and the default treatment applies. *)
Lemma unlisted_treatment_inherited_witness :
  (_get_column_metadata example_env (VRef 10) "Z9" example_heap).1
  = Return (VStr "drop").
Proof.
  apply (unlisted_treatment_inherited example_env (VRef 10) example_heap
           2%positive 11%positive [(SStr "missings", VStr "drop")] []
           12%positive
           [(SStr "A01", VRef 13); (SStr "A02", VStr "drop");
            (SStr "A03", VRef 14); (SStr "A04", VStr "error")] "Z9");
    vm_compute; reflexivity.
Defined.

(** The table [data]: [Region] comes before [Income], as [a01] comes
    before [A03]. *)
Lemma cleaned_columns_in_order_witness :
  (_apply_metadata_to_table example_env example_data (VRef 10)
     example_heap).1
  = Return example_cleaned.
Proof.
  apply (cleaned_columns_in_order example_env example_data (VRef 10)
           example_heap
           [Some (SStr "Region",
                  mkSeries category [CStr "Urban"; CStr "Rural"; CInt 9; NA]);
            None;
            Some (SStr "Income",
                  mkSeries (narrowed "float") [NA; NA; CFloat 3; CFloat 12]);
            None]).
  - unfold example_data.
    repeat (apply List.Forall2_cons;
            [eexists; split; [reflexivity | vm_compute; reflexivity]|]).
    apply List.Forall2_nil.
  - cbn. repeat constructor;
      rewrite ?elem_of_cons, elem_of_nil; intros H; decompose [or] H;
      discriminate || contradiction.
Defined.

(** The table [data] with text that is no number in the column [A03]:
    the error of that column, although the column after it would be left
    out. *)
Lemma first_failing_column_fails_table_witness :
  (_apply_metadata_to_table example_env
     ([(SStr "a01", example_codes)]
      ++ (SStr "A03", example_text) :: [(SStr "Z9", example_ages)])
     (VRef 10) example_heap).1
  = Raise (ValueError (unparsable "abc" 3)).
Proof.
  apply (first_failing_column_fails_table example_env
           [(SStr "a01", example_codes)] "A03" example_text
           [(SStr "Z9", example_ages)] (VRef 10) example_heap);
    vm_compute; reflexivity.
Defined.

(** A raw table whose second column is labelled by the number 1. *)
Lemma column_label_must_be_string_witness :
  (_apply_metadata_to_table example_env
     ([(SStr "a01", example_codes)] ++ (SInt 1, example_ages) :: [])
     (VRef 10) example_heap).1
  = Raise AssertionError.
Proof.
  apply (column_label_must_be_string example_env
           [(SStr "a01", example_codes)] (SInt 1) example_ages []
           (VRef 10) example_heap).
  - vm_compute. reflexivity.
  - discriminate.
Defined.

(** The batch for the table [data] and the year 1390. *)
Lemma batch_subscripts_registry_by_year_witness :
  save_cleaned_tables example_env None [1390] example_heap ∅
  = (Raise (KeyError (SInt 1390)), (example_heap, ∅)).
Proof.
  apply (batch_subscripts_registry_by_year example_env None "data" []);
    reflexivity.
Defined.

Lemma batch_keeps_other_files_witness :
  (save_pairs example_env [("data", 1390)] example_heap ∅).2.2
    !! "1389_data.parquet"
  = (∅ : gmap string DataFrame) !! "1389_data.parquet".
Proof.
  apply (batch_keeps_other_files example_env [("data", 1390)]).
  intros _table_name year [= -> ->]%list_elem_of_singleton.
  vm_compute. discriminate.
Defined.

Lemma extract_parameters_lookup_witness :
  dict_get id "levels"
    (_extract_parameters
       [("name", AStr "original"); ("levels", @ANone unit)])
  = None.
Proof.
  apply (extract_parameters_lookup
           [("name", AStr "original"); ("levels", @ANone unit)] "levels").
  cbn. repeat constructor;
    rewrite ?elem_of_cons, elem_of_nil; intros H; decompose [or] H;
    discriminate || contradiction.
Defined.

(** The twins of the example: two rows before and after. *)
Lemma cleaned_table_keeps_rows_witness :
  Forall (λ item : scalar * Series, length (values item.2) = 2%nat)
    [(SStr "Region", mkSeries category [CStr "Rural"; CStr "Rural"])].
Proof.
  apply (cleaned_table_keeps_rows example_env example_twins (VRef 10)
           example_heap).
  - intros h column to_replace replaced [= <-]. reflexivity.
  - repeat constructor.
  - vm_compute. reflexivity.
Defined.

(** The amount [12] of the example. *)
Lemma general_cleaning_keeps_tidy_text_witness :
  ∃ cleaned, _general_cleaning example_amounts = Return cleaned
             ∧ values cleaned !! 3%nat = Some (CStr "12").
Proof.
  apply (general_cleaning_keeps_tidy_text example_amounts 3 "12");
    try reflexivity.
  repeat split; try reflexivity.
  intros ch [<-|[<-|[]]]; reflexivity.
Defined.

(** The batch for the years 1390 and 1391 of the table [data]: the first
    pair fails and the second is not attempted. *)
Lemma batch_stops_at_first_error_witness :
  save_pairs example_env ([] ++ ("data", 1390) :: [("data", 1391)])
    example_heap ∅
  = (Raise (KeyError (SInt 1390)), (example_heap, ∅)).
Proof.
  apply (batch_stops_at_first_error example_env [] "data" 1390
           [("data", 1391)] example_heap ∅ example_heap ∅
           (KeyError (SInt 1390)) example_heap);
    reflexivity.
Defined.
